(** * pytest-samples: the history store, the brokers and the timeout governor

    A shallow embedding of [pytest_samples.database] (the [Session] and
    [EngineBase] classes over the two tables [test_file] and [test_item]),
    of [pytest_samples.tools] ([move_idx_to_end], [count_truefalse]) and of
    the brokers of [pytest_samples.plugin] (the timeout of the base class,
    the collection hook, the lazy and the immediate broker), followed by the
    properties of the specification that concern them and by further
    properties of the code.

    Conventions of the embedding.
    - A table is the list of its rows in insertion order; a fresh row gets
      the id [max + 1], as SQLite's integer primary key does.
    - An [Arrow] time stamp and a [timedelta] are a number of microseconds
      in [Z]; [bytes] are a [string] (a sequence of 8-bit characters). The
      float that [total_seconds] returns is kept as that whole number of
      microseconds, which orders two spans as the floats do as long as the
      spans stay below some 270 years.
    - A [TestFile] or [TestItem] value is an object with its columns
      loaded; whether a [TestFile] belongs to the session is kept in the
      state, by its id.
    - A method is a function from the state of the Python objects involved
      to a result (a value or a raised exception) and the next state.
    - The unit of work of the ORM session is applied to the session's view
      of the tables at once, so [flush] has nothing left to do; queries of
      an autoflushing session cannot tell the difference. *)

From Stdlib Require Import ZArith String List Lia.
From stdpp Require Import base option list sorting gmap sets strings.

Local Open Scope string_scope.
Local Open Scope Z_scope.
Local Open Scope list_scope.

(** ** Values, exceptions and results *)

Abbreviation bytes := string (only parsing).

(** [types.Location]: file path, optional line number, test name. *)
Definition Location : Type := string * option Z * string.

Inductive Exn : Type :=
| InactiveSessionError
| EngineDisposedError
| MultipleResultsFound
| NoResultFound
| IntegrityError
| DetachedInstanceError
| AttributeError
| AssertionError
| IndexError
| ValueError
| KeyError
| RuntimeError
| OSError.

Inductive Result (A : Type) : Type :=
| Ok (a : A)
| Raise (e : Exn).
Arguments Ok {A} a.
Arguments Raise {A} e.

#[global] Instance Exn_eq_dec : EqDecision Exn.
Proof. solve_decision. Defined.

(** ** The two tables ([database/_defs.py]) *)

Record TestFile : Type := mkTestFile {
  f_id : Z;
  f_path : string;
  f_last_hash : option bytes
}.

Record TestItem : Type := mkTestItem {
  i_id : Z;
  i_file_id : Z;
  i_lineno : option Z;
  i_testname : string;
  i_last_run : Z
}.

Record DB : Type := mkDB {
  test_file : list TestFile;
  test_item : list TestItem
}.

#[global] Instance TestFile_eq_dec : EqDecision TestFile.
Proof. solve_decision. Defined.
#[global] Instance TestItem_eq_dec : EqDecision TestItem.
Proof. solve_decision. Defined.
#[global] Instance DB_eq_dec : EqDecision DB.
Proof. solve_decision. Defined.

Definition empty_db : DB := mkDB [] [].

(** The id SQLite gives to the next inserted row. *)
Definition next_id (ids : list Z) : Z := foldr Z.max 0 ids + 1.

(** The relationship [TestItem.file]: the file row the foreign key names. *)
Definition item_file (db : DB) (it : TestItem) : option TestFile :=
  head (filter (λ f, f_id f = i_file_id it) (test_file db)).

(** The property [TestItem.location]; reading [.path] of a missing file is
    an [AttributeError]. *)
Definition item_location (db : DB) (it : TestItem) : Result Location :=
  match item_file db it with
  | Some f => Ok (f_path f, i_lineno it, i_testname it)
  | None => Raise AttributeError
  end.

(** ** The state of the Python objects

    One SQLAlchemy engine with its database file, the [EngineBase] that
    wraps it, and the [Session] in use (the brokers use one at a time). *)

Record State : Type := mkState {
  (* sqlalchemy.Engine and the database file behind it *)
  pool_open : bool;
  durable : DB;
  past : list DB;
  (* EngineBase._disposed *)
  disposed : bool;
  (* Session._session is not None *)
  entered : bool;
  (* the orm.Session: its view of the tables, its open SAVEPOINTs and
     the TestFile objects attached to it (by id) *)
  working : DB;
  savepoints : list (DB * list Z);
  attached : list Z
}.

Definition set_pool_open (b : bool) (s : State) : State :=
  mkState b (durable s) (past s) (disposed s) (entered s)
          (working s) (savepoints s) (attached s).
Definition set_disposed (b : bool) (s : State) : State :=
  mkState (pool_open s) (durable s) (past s) b (entered s)
          (working s) (savepoints s) (attached s).
Definition set_working (db : DB) (s : State) : State :=
  mkState (pool_open s) (durable s) (past s) (disposed s) (entered s)
          db (savepoints s) (attached s).
Definition set_attached (l : list Z) (s : State) : State :=
  mkState (pool_open s) (durable s) (past s) (disposed s) (entered s)
          (working s) (savepoints s) l.
Definition set_savepoints (l : list (DB * list Z)) (s : State) : State :=
  mkState (pool_open s) (durable s) (past s) (disposed s) (entered s)
          (working s) l (attached s).

(** An engine freshly created over a database file holding [db]. *)
Definition fresh_state (db : DB) : State :=
  mkState false db [] false false db [] [].

(** ** The monad of methods *)

Definition M (A : Type) : Type := State → Result A * State.

Definition ret {A} (a : A) : M A := λ s, (Ok a, s).
Definition raise {A} (e : Exn) : M A := λ s, (Raise e, s).
Definition bind {A B} (m : M A) (k : A → M B) : M B :=
  λ s, match m s with
       | (Ok a, s') => k a s'
       | (Raise e, s') => (Raise e, s')
       end.
Definition lift {A} (r : Result A) : M A := λ s, (r, s).

Notation "x <- m ;; k" := (bind m (λ x, k))
  (at level 100, m at next level, right associativity, only parsing).
Notation "m ;;; k" := (bind m (λ _, k))
  (at level 100, k at level 200, right associativity, only parsing).

(** A [for] loop with an accumulator. *)
Fixpoint for_each {A B} (f : B → A → M B) (acc : B) (l : list A) : M B :=
  match l with
  | [] => ret acc
  | x :: l' => acc' <- f acc x ;; for_each f acc' l'
  end.

(** [map] over an iterable, consumed at once. *)
Fixpoint map_M {A B} (f : A → M B) (l : list A) : M (list B) :=
  match l with
  | [] => ret []
  | x :: l' => y <- f x ;; ys <- map_M f l' ;; ret (y :: ys)
  end.

(** ** [tools/_iterabletools.py] *)

Fixpoint count_truefalse_from (true_ false_ : Z) (it : list bool) : Z * Z :=
  match it with
  | [] => (true_, false_)
  | b :: it' =>
      if b then count_truefalse_from (true_ + 1) false_ it'
      else count_truefalse_from true_ (false_ + 1) it'
  end.

Definition count_truefalse (it : list bool) : Z * Z :=
  count_truefalse_from 0 0 it.

(** ** [tools/_collectiontools.py] *)

(** [sorted(idx, reverse=True)] on integers. *)
Fixpoint insert_reverse (i : Z) (l : list Z) : list Z :=
  match l with
  | [] => [i]
  | j :: l' => if decide (j ≤ i) then i :: j :: l' else j :: insert_reverse i l'
  end.

Definition sorted_reverse (idx : list Z) : list Z :=
  foldr insert_reverse [] idx.

(** [src.pop(i)]: the element and the rest, or nothing when [i] is out of
    range; a negative [i] counts from the end. *)
Definition list_pop {A} (src : list A) (i : Z) : option (A * list A) :=
  let n := Z.of_nat (length src) in
  let j := if decide (i < 0) then i + n else i in
  if decide (0 ≤ j < n) then
    match src !! Z.to_nat j with
    | Some x => Some (x, delete (Z.to_nat j) src)
    | None => None
    end
  else None.

(** [[src.pop(i) for i in checked_indices()]]: the popped elements and what
    is left of [src], also when an exception ends the loop early. *)
Fixpoint pop_checked {A} (src : list A) (prev_idx : option Z)
    (idx_b : list Z) : Result (list A) * list A :=
  match idx_b with
  | [] => (Ok [], src)
  | i :: idx_b' =>
      if decide (Some i = prev_idx) then (Raise ValueError, src)
      else
        match list_pop src i with
        | None => (Raise IndexError, src)
        | Some (x, src') =>
            match pop_checked src' (Some i) idx_b' with
            | (Ok removed, src'') => (Ok (x :: removed), src'')
            | (Raise e, src'') => (Raise e, src'')
            end
        end
  end.

(** [list.sort(key=...)]: the keys are computed first, one call per
    element; the sort is stable. *)
Fixpoint keys_of {A} (key : A → Result Z) (l : list A)
    : Result (list (Z * A)) :=
  match l with
  | [] => Ok []
  | x :: l' =>
      match key x with
      | Raise e => Raise e
      | Ok k =>
          match keys_of key l' with
          | Raise e => Raise e
          | Ok ks => Ok ((k, x) :: ks)
          end
      end
  end.

Fixpoint insert_keyed {A} (x : Z * A) (l : list (Z * A)) : list (Z * A) :=
  match l with
  | [] => [x]
  | y :: l' => if decide (x.1 ≤ y.1) then x :: y :: l' else y :: insert_keyed x l'
  end.

Definition sort_keyed {A} (l : list (Z * A)) : list (Z * A) :=
  foldr insert_keyed [] l.

(** [move_idx_to_end(src, idx, sorting_key=...)]: the result and the list
    [src] afterwards. *)
Definition move_idx_to_end {A} (src : list A) (idx : list Z)
    (sorting_key : option (A → Result Z)) : Result unit * list A :=
  match idx with
  | [] => (Ok tt, src)
  | _ =>
      let idx_b := sorted_reverse idx in
      if decide (default 0 (last idx_b) < 0) then (Raise IndexError, src)
      else
        match pop_checked src None idx_b with
        | (Raise e, src') => (Raise e, src')
        | (Ok removed, src') =>
            match sorting_key with
            | None => (Ok tt, src' ++ reverse removed)
            | Some key =>
                match keys_of key removed with
                | Raise e => (Raise e, src')
                | Ok keyed => (Ok tt, src' ++ (sort_keyed keyed).*2)
                end
            end
        end
  end.

(** The elements of [src] whose index, counted from [i], satisfies [P], in
    their order in [src]. *)
Fixpoint pick_from {A} (P : Z → Prop) `{∀ i, Decision (P i)} (i : Z)
    (src : list A) : list A :=
  match src with
  | [] => []
  | x :: src' =>
      if decide (P i) then x :: pick_from P (i + 1) src'
      else pick_from P (i + 1) src'
  end.

(** ** [database/_session.py]: the primitives of the ORM session *)

(** [Session._ensure_session] *)
Definition _ensure_session : M unit :=
  λ s, if entered s then (Ok tt, s) else (Raise InactiveSessionError, s).

(** Executing a statement takes a connection from the engine's pool, which
    the engine opens (again) when it has none. *)
Definition query {A} (q : DB → A) : M A :=
  λ s, (Ok (q (working s)), set_pool_open true s).

Definition execute (f : DB → DB) : M unit :=
  λ s, (Ok tt, set_working (f (working s)) (set_pool_open true s)).

Definition attach (fid : Z) : M unit :=
  λ s, (Ok tt, set_attached (fid :: attached s) s).

(** [file in dbsession] *)
Definition is_attached (file : TestFile) : M bool :=
  λ s, (Ok (bool_decide (f_id file ∈ attached s)), s).

Definition flush : M unit := ret tt.

(** [dbsession.commit()]: the view becomes the content of the file and
    every SAVEPOINT is gone. *)
Definition commit : M unit :=
  λ s, (Ok tt,
        mkState true (working s) (durable s :: past s) (disposed s)
                (entered s) (working s) [] (attached s)).

Definition push_savepoint (s : State) : State :=
  set_savepoints ((working s, attached s) :: savepoints s)
                 (set_pool_open true s).

Definition release_savepoint (s : State) : State :=
  set_savepoints (tail (savepoints s)) s.

Definition rollback_savepoint (s : State) : State :=
  match savepoints s with
  | [] => s
  | (db, att) :: sps =>
      set_savepoints sps (set_attached att (set_working db s))
  end.

(** [with dbsession.begin_nested(): body]. When the body returns, the
    SAVEPOINT is released if it is still there; when it raises, the
    session is rolled back to it. *)
Definition begin_nested {A} (body : M A) : M A :=
  λ s, match body (push_savepoint s) with
       | (Ok a, s') => (Ok a, release_savepoint s')
       | (Raise e, s') => (Raise e, rollback_savepoint s')
       end.

(** [Result.scalar_one_or_none] *)
Definition scalar_one_or_none {A} (rows : list A) : Result (option A) :=
  match rows with
  | [] => Ok None
  | [x] => Ok (Some x)
  | _ => Raise MultipleResultsFound
  end.

(** [dbsession.add] of a new [TestFile]; the column [path] is unique. *)
Definition insert_file (path : string) (hash : option bytes) : M TestFile :=
  clash <- query (λ db, bool_decide (path ∈ f_path <$> test_file db)) ;;
  if clash : bool then raise IntegrityError
  else
    fid <- query (λ db, next_id (f_id <$> test_file db)) ;;
    let file := mkTestFile fid path hash in
    execute (λ db, mkDB (test_file db ++ [file]) (test_item db)) ;;;
    attach fid ;;;
    ret file.

Definition same_item (fid : Z) (lineno : option Z) (testname : string)
    (it : TestItem) : Prop :=
  i_file_id it = fid ∧ i_lineno it = lineno ∧ i_testname it = testname.

#[global] Instance same_item_dec fid lineno testname it :
  Decision (same_item fid lineno testname it).
Proof. unfold same_item; apply _. Defined.

(** [dbsession.add] of a new [TestItem]. The unique constraint on
    (file_id, lineno, testname) treats NULL line numbers as distinct. *)
Definition insert_item (fid : Z) (lineno : option Z) (testname : string)
    (last_run : Z) : M TestItem :=
  clash <- query (λ db,
    bool_decide (is_Some lineno ∧
                 Exists (same_item fid lineno testname) (test_item db))) ;;
  if clash : bool then raise IntegrityError
  else
    iid <- query (λ db, next_id (i_id <$> test_item db)) ;;
    let item := mkTestItem iid fid lineno testname last_run in
    execute (λ db, mkDB (test_file db) (test_item db ++ [item])) ;;;
    ret item.

Definition with_last_run (last_run : Z) (it : TestItem) : TestItem :=
  mkTestItem (i_id it) (i_file_id it) (i_lineno it) (i_testname it) last_run.

Definition with_last_hash (h : option bytes) (f : TestFile) : TestFile :=
  mkTestFile (f_id f) (f_path f) h.

(** [db_item.last_run = last_run] on a loaded item. *)
Definition update_last_run (iid : Z) (last_run : Z) : M unit :=
  execute (λ db, mkDB (test_file db)
    ((λ it, if decide (i_id it = iid) then with_last_run last_run it else it)
       <$> test_item db)).

(** [file.last_hash = new_hash] on a loaded file. *)
Definition update_last_hash (fid : Z) (h : bytes) : M unit :=
  execute (λ db, mkDB
    ((λ f, if decide (f_id f = fid) then with_last_hash (Some h) f else f)
       <$> test_file db)
    (test_item db)).

(** [delete(TestItem).where(P)], returning the row count. *)
Definition delete_items_where (P : TestItem → Prop) `{∀ it, Decision (P it)}
    : M Z :=
  n <- query (λ db, Z.of_nat (length (filter P (test_item db)))) ;;
  execute (λ db, mkDB (test_file db)
                      (filter (λ it, ¬ P it) (test_item db))) ;;;
  ret n.

(** ** [database/_session.py]: the methods of [Session] *)

Definition _try_get_file (path : string) : M (option TestFile) :=
  rows <- query (λ db, filter (λ f, f_path f = path) (test_file db)) ;;
  r <- lift (scalar_one_or_none rows) ;;
  match r with
  | Some f => attach (f_id f) ;;; ret (Some f)
  | None => ret None
  end.

Definition try_get_file (path : string) : M (option TestFile) :=
  _ensure_session ;;; _try_get_file path.

Definition add_file (path : string) (hash : option bytes) : M TestFile :=
  _ensure_session ;;;
  instance <- insert_file path hash ;;
  commit ;;;
  ret instance.

Definition _try_get_item (file : TestFile) (lineno : option Z)
    (testname : string) : M (option TestItem) :=
  a <- is_attached file ;;
  if a : bool then
    rows <- query (λ db,
      filter (same_item (f_id file) lineno testname) (test_item db)) ;;
    lift (scalar_one_or_none rows)
  else raise DetachedInstanceError.

Definition try_get_item (file : TestFile) (lineno : option Z)
    (testname : string) : M (option TestItem) :=
  _ensure_session ;;; _try_get_item file lineno testname.

(** [invalidate_hash]. A [TestFile] value stands for an object whose columns
    are loaded, so reading [file.id] for the predicate returns, whether the
    object belongs to the session or not. The assignment
    [file.last_hash = new_hash] changes the object; [flush] writes the change
    to the table only for an object of the session. *)
Definition invalidate_hash (file : TestFile) (new_hash : bytes) : M Z :=
  _ensure_session ;;;
  begin_nested (
    a <- is_attached file ;;
    (if a : bool then update_last_hash (f_id file) new_hash else ret tt) ;;;
    flush ;;;
    num_del_items <- delete_items_where (λ it, i_file_id it = f_id file) ;;
    commit ;;;
    ret num_del_items).

Definition _prune_files : M Z :=
  fdeleted <- query (λ db, Z.of_nat (length
    (filter (λ f, ¬ Exists (λ it, i_file_id it = f_id f) (test_item db))
            (test_file db)))) ;;
  execute (λ db, mkDB
    (filter (λ f, Exists (λ it, i_file_id it = f_id f) (test_item db))
            (test_file db))
    (test_item db)) ;;;
  ret fdeleted.

Definition prune_files : M Z :=
  _ensure_session ;;;
  begin_nested (result <- _prune_files ;; commit ;;; ret result).

Definition delete_item (it : TestItem) : M unit :=
  execute (λ db, mkDB (test_file db)
                      (filter (λ it', i_id it' ≠ i_id it) (test_item db))).

(** The body of the loop of [_prune_items]. *)
Definition _prune_items_body (known_locations : gset Location)
    (num_del : Z) (item : TestItem) : M Z :=
  db <- query id ;;
  loc <- lift (item_location db item) ;;
  if decide (loc ∈ known_locations) then ret num_del
  else delete_item item ;;; ret (num_del + 1).

Definition _prune_items (known_locations : gset Location) : M Z :=
  scalars <- query test_item ;;
  for_each (_prune_items_body known_locations) 0 scalars.

Definition prune_items (known_locations : gset Location) : M Z :=
  _ensure_session ;;;
  begin_nested (
    result <- _prune_items known_locations ;; commit ;;; ret result).

Definition add_or_update_item (file : TestFile) (lineno : option Z)
    (testname : string) (last_run : Z) : M TestItem :=
  _ensure_session ;;;
  db_item <- _try_get_item file lineno testname ;;
  match db_item with
  | None =>
      db_item <- insert_item (f_id file) lineno testname last_run ;;
      commit ;;;
      ret db_item
  | Some db_item =>
      update_last_run (i_id db_item) last_run ;;;
      commit ;;;
      ret (with_last_run last_run db_item)
  end.

Definition _try_delete_item (location : Location) : M bool :=
  let '(file, lineno, testname) := location in
  db_file <- _try_get_file file ;;
  match db_file with
  | None => ret false
  | Some db_file =>
      rc <- delete_items_where (same_item (f_id db_file) lineno testname) ;;
      if decide (rc < 0) then raise AssertionError
      else if decide (rc > 1) then raise MultipleResultsFound
      else ret (bool_decide (rc = 1))
  end.

Definition try_delete_item (location : Location) : M bool :=
  _ensure_session ;;;
  begin_nested (
    result <- _try_delete_item location ;;
    (if result : bool then commit else ret tt) ;;;
    ret result).

Record BulkUpdateResult : Type := mkBulkUpdateResult {
  added : Z;
  updated : Z;
  removed : Z;
  pruned_files : option Z
}.

Record DropAllEntriesResult : Type := mkDropAllEntriesResult {
  files_dropped : Z;
  tests_dropped : Z
}.

Definition TestFileHashProvider : Type := TestFile → Result bytes.

(** The closure [add_or_update] of [bulk_add_update_remove]. *)
Definition add_or_update (last_run : Z)
    (hash_provider : option TestFileHashProvider) (location : Location)
    : M bool :=
  let '(file, lineno, testname) := location in
  db_file <- try_get_file file ;;
  match db_file with
  | None =>
      hash <- match hash_provider with
             | Some hp => h <- lift (hp (mkTestFile 0 file None)) ;; ret (Some h)
             | None => ret None
             end ;;
      db_file <- insert_file file hash ;;
      insert_item (f_id db_file) lineno testname last_run ;;;
      ret false
  | Some db_file =>
      db_item <- _try_get_item db_file lineno testname ;;
      match db_item with
      | None =>
          insert_item (f_id db_file) lineno testname last_run ;;;
          ret false
      | Some db_item =>
          update_last_run (i_id db_item) last_run ;;;
          ret true
      end
  end.

Definition sum_bools (l : list bool) : Z :=
  foldl (λ acc (b : bool), acc + (if b then 1 else 0)) 0 l.

Definition bulk_add_update_remove (last_run : Z)
    (add_update try_delete : list Location)
    (hash_provider : option TestFileHashProvider) (prune_files : bool)
    : M BulkUpdateResult :=
  _ensure_session ;;;
  res <- begin_nested (
    results <- map_M (add_or_update last_run hash_provider) add_update ;;
    let '(updated, added) := count_truefalse results in
    flush ;;;
    deleted <- map_M _try_delete_item try_delete ;;
    let removed := sum_bools deleted in
    pruned <- (if prune_files then
                flush ;;; n <- _prune_files ;; ret (Some n)
              else ret None) ;;
    commit ;;;
    ret (added, updated, removed, pruned)) ;;
  let '(added, updated, removed, pruned) := res in
  ret (mkBulkUpdateResult added updated removed pruned).

Definition drop_all_entries : M DropAllEntriesResult :=
  _ensure_session ;;;
  res <- begin_nested (
    deld_items <- delete_items_where (λ _, True) ;;
    deld_files <- query (λ db, Z.of_nat (length (test_file db))) ;;
    execute (λ db, mkDB [] (test_item db)) ;;;
    commit ;;;
    ret (deld_files, deld_items)) ;;
  let '(deld_files, deld_items) := res in
  ret (mkDropAllEntriesResult deld_files deld_items).

(** [Session.__enter__] and [Session.__exit__]: a new [orm.Session] over
    the engine, which sees the content of the file; leaving closes it and
    gives up what was not committed. *)
Definition __enter__ : M unit :=
  λ s, (Ok tt,
        mkState (pool_open s) (durable s) (past s) (disposed s)
                true (durable s) [] []).

Definition __exit__ : M unit :=
  λ s, (Ok tt,
        if entered s then
          mkState (pool_open s) (durable s) (past s) (disposed s)
                  true (durable s) [] []
        else s).

(** [with session: body] *)
Definition with_session {A} (body : M A) : M A :=
  λ s, match __enter__ s with
       | (Ok _, s1) =>
           match body s1 with
           | (r, s2) => (r, snd (__exit__ s2))
           end
       | (Raise e, s1) => (Raise e, s1)
       end.

(** A sequence of [add_or_update_item] calls on one identity, one call per
    time stamp. *)
Definition add_or_update_item_calls (file : TestFile) (lineno : option Z)
    (testname : string) (stamps : list Z) : M unit :=
  for_each (λ _ last_run,
              add_or_update_item file lineno testname last_run ;;; ret tt)
           tt stamps.

(** ** [database/_engine.py]: [EngineBase] *)

Definition _ensure_not_disposed : M unit :=
  λ s, if disposed s then (Raise EngineDisposedError, s) else (Ok tt, s).

(** [self._engine.dispose()] closes the connections of the pool. *)
Definition dispose : M unit :=
  λ s, (Ok tt, set_disposed true (set_pool_open false s)).

(** [_defs.create_tables]: the two tables are part of every [DB]; creating
    them connects to the file. *)
Definition create_tables : M unit :=
  λ s, (Ok tt, set_pool_open true s).

Definition setup_tables : M unit :=
  _ensure_not_disposed ;;; create_tables.

(** [EngineBase.new_session]: a [Session] whose [_session] is [None]. *)
Definition new_session : M unit :=
  _ensure_not_disposed ;;;
  (λ s, (Ok tt,
         mkState (pool_open s) (durable s) (past s) (disposed s)
                 false (working s) (savepoints s) (attached s))).

(** [with engine.new_session() as session: body] *)
Definition with_new_session {A} (body : M A) : M A :=
  new_session ;;; with_session body.

(** The calls [EngineBase] offers. *)
Inductive EngineCall : Type :=
| CallSetupTables
| CallNewSession
| CallDispose.

Definition engine_call (c : EngineCall) : M unit :=
  match c with
  | CallSetupTables => setup_tables
  | CallNewSession => new_session
  | CallDispose => dispose
  end.

(** The state after a sequence of calls, whether they raise or not, and the
    results of the calls. *)
Fixpoint engine_calls (cs : list EngineCall) (s : State)
    : list (Result unit) * State :=
  match cs with
  | [] => ([], s)
  | c :: cs' =>
      let '(r, s') := engine_call c s in
      let '(rs, s'') := engine_calls cs' s' in
      (r :: rs, s'')
  end.

(** ** [plugin/_broker_base.py]: the soft timeout *)

(** The fields of [SamplesBrokerBase] the timeout uses. *)
Record SamplesBrokerBase : Type := mkSamplesBrokerBase {
  _soft_timeout : option Z;
  _start_time : option Z;
  _past_timeout : bool
}.

(** The fields as [__init__] leaves them. *)
Definition new_broker_base (soft_timeout : option Z) : SamplesBrokerBase :=
  mkSamplesBrokerBase soft_timeout None false.

(** [check_timeout_expired], with [now] the reading of [Arrow.now()]. *)
Definition check_timeout_expired (now start_time timeout : Z) : bool :=
  bool_decide (now - start_time >= timeout).

(** [_prepare_item_check_timeout]: the next fields and whether the item got
    the skip marker; [now] is what [Arrow.now()] reads during the call. *)
Definition _prepare_item_check_timeout (now : Z) (self : SamplesBrokerBase)
    : SamplesBrokerBase * bool :=
  match _soft_timeout self with
  | None => (self, false)
  | Some timeout =>
      if _past_timeout self then (self, true)
      else
        match _start_time self with
        | None =>
            (mkSamplesBrokerBase (_soft_timeout self) (Some now)
                                 (_past_timeout self), false)
        | Some st =>
            if check_timeout_expired now st timeout then
              (mkSamplesBrokerBase (_soft_timeout self) (_start_time self)
                                   true, true)
            else (self, false)
        end
  end.

(** The test loop: [pytest_runtest_protocol] on one item after the other,
    given the clock reading at each; the result tells which items were
    marked. *)
Fixpoint run_items (clock : list Z) (self : SamplesBrokerBase) : list bool :=
  match clock with
  | [] => []
  | now :: clock' =>
      let '(self', skip) := _prepare_item_check_timeout now self in
      skip :: run_items clock' self'
  end.

(** ** [plugin/_broker_stateful.py] *)

(** A collected [pytest.Item]: its identity and its location. *)
Record Item : Type := mkItem {
  nodeid : string;
  location : Location
}.

#[global] Instance Item_eq_dec : EqDecision Item.
Proof. solve_decision. Defined.

#[global] Instance Item_countable : Countable Item.
Proof.
  apply (inj_countable' (λ it, (nodeid it, location it))
                        (λ p, mkItem p.1 p.2)).
  by intros [].
Defined.

Inductive _TestResultAction : Type := WRITE | DROP | IGNORE.

#[global] Instance _TestResultAction_eq_dec : EqDecision _TestResultAction.
Proof. solve_decision. Defined.

Record DatabaseItemFilterResult : Type := mkDatabaseItemFilterResult {
  known_test_indices : list Z;
  last_run_map : gmap Item Z
}.

(** The fields of [StatefulSamplesBroker] and of its lazy subclass, with
    the two things a broker reaches outside itself: the shuffle of its
    random generator and the hash of a file on disk. *)
Record StatefulSamplesBroker : Type := mkStatefulSamplesBroker {
  _hash_testfiles : bool;
  _randomize : bool;
  _no_pruning : bool;
  _reset_on_saturation : bool;
  _engine : bool;
  _num_tests : option Z;
  _session_finished : bool;
  _failed_tests : list Location;
  _passed_tests : list Location;
  _shuffle_items : list Item → list Item;
  _hash_file : string → Result bytes
}.

Definition set_collected (num_tests : Z) (self : StatefulSamplesBroker)
    : StatefulSamplesBroker :=
  mkStatefulSamplesBroker (_hash_testfiles self) (_randomize self)
    (_no_pruning self) (_reset_on_saturation self) true (Some num_tests)
    (_session_finished self) (_failed_tests self) (_passed_tests self)
    (_shuffle_items self) (_hash_file self).

Definition set_recorded (failed passed : list Location)
    (self : StatefulSamplesBroker) : StatefulSamplesBroker :=
  mkStatefulSamplesBroker (_hash_testfiles self) (_randomize self)
    (_no_pruning self) (_reset_on_saturation self) (_engine self)
    (_num_tests self) (_session_finished self) failed passed
    (_shuffle_items self) (_hash_file self).

(** [_setup_engine]: a new [Engine] over the database file, and its tables.
    The file is taken to hold a valid database, so that [setup_tables]
    returns at the first attempt. *)
Definition _setup_engine : M unit :=
  λ s, setup_tables
         (mkState false (durable s) (past s) false (entered s)
                  (working s) (savepoints s) (attached s)).

(** [enumerate(items)] *)
Fixpoint enumerate_from {A} (i : Z) (l : list A) : list (Z * A) :=
  match l with
  | [] => []
  | x :: l' => (i, x) :: enumerate_from (i + 1) l'
  end.

(** The generator [filter_hashed_and_update], one item at a time: the two
    sets of file ids afterwards and whether the item is yielded. *)
Definition filter_hashed_and_update (hash_func : string → Result bytes)
    (ids : gset Z * gset Z) (pytest_item : Item) (file : TestFile)
    : M (gset Z * gset Z * bool) :=
  let '(ok_file_ids, updated_file_ids) := ids in
  let id := f_id file in
  if decide (id ∈ updated_file_ids) then ret (ids, false)
  else if decide (id ∉ ok_file_ids) then
    let file_path := (location pytest_item).1.1 in
    hash <- lift (hash_func file_path) ;;
    if decide (f_last_hash file ≠ Some hash) then
      invalidate_hash file hash ;;;
      ret (ok_file_ids, {[id]} ∪ updated_file_ids, true)
    else ret ({[id]} ∪ ok_file_ids, updated_file_ids, true)
  else ret (ids, true).

(** One item through the chain of generators and the body of the final
    loop of [_compare_against_database]; [now] is the reading of
    [arrow.utcnow()] and the recorded time is in microseconds. *)
Definition _compare_item (hash_func : option (string → Result bytes))
    (now : Z) (acc : gset Z * gset Z * DatabaseItemFilterResult)
    (indexed : Z * Item) : M (gset Z * gset Z * DatabaseItemFilterResult) :=
  let '(ids, res) := acc in
  let '(i, item) := indexed in
  db_file <- try_get_file (location item).1.1 ;;
  match db_file with
  | None => ret acc
  | Some db_file =>
      step <- match hash_func with
              | Some hash_func =>
                  filter_hashed_and_update hash_func ids item db_file
              | None => ret (ids, true)
              end ;;
      let '(ids', yielded) := step in
      if yielded : bool then
        db_item <- try_get_item db_file (location item).1.2
                                (location item).2 ;;
        match db_item with
        | None => ret (ids', res)
        | Some db_item =>
            let time := now - i_last_run db_item in
            ret (ids',
                 mkDatabaseItemFilterResult
                   (known_test_indices res ++ [i])
                   (<[item := time]> (last_run_map res)))
        end
      else ret (ids', res)
  end.

Definition _compare_against_database (items : list Item)
    (hash_func : option (string → Result bytes)) (now : Z)
    : M DatabaseItemFilterResult :=
  acc <- for_each (_compare_item hash_func now)
                  (∅, ∅, mkDatabaseItemFilterResult [] ∅)
                  (enumerate_from 0 items) ;;
  ret acc.2.

(** [filter_res.last_run_map.__getitem__] *)
Definition getitem (m : gmap Item Z) (item : Item) : Result Z :=
  match m !! item with
  | Some v => Ok v
  | None => Raise KeyError
  end.

(** What goes on inside the session of [pytest_collection_modifyitems]:
    [None] stands for the [return] out of the [with] block. *)
Definition _collection_session (self : StatefulSamplesBroker)
    (items : list Item) (num_tests : Z) (now : Z)
    : M (option DatabaseItemFilterResult) :=
  filter_res <- _compare_against_database items
    (if _hash_testfiles self then Some (_hash_file self) else None) now ;;
  saturated <-
    (if decide (Z.of_nat (length (known_test_indices filter_res)) = num_tests)
     then
       if _reset_on_saturation self then drop_all_entries ;;; ret true
       else ret false
     else ret false) ;;
  if saturated : bool then ret None
  else
    (if negb (_no_pruning self) then
       prune_items (list_to_set (location <$> items)) ;;; ret tt
     else ret tt) ;;;
    ret (Some filter_res).

(** The hook [pytest_collection_modifyitems]: its result, the broker and
    the list [items] afterwards, and the next state of the store. *)
Definition pytest_collection_modifyitems (self : StatefulSamplesBroker)
    (items : list Item) (now : Z)
    : State → Result unit * (StatefulSamplesBroker * list Item) * State :=
  λ s,
    let items := if _randomize self then _shuffle_items self items
                 else items in
    match _setup_engine s with
    | (Raise e, s1) => (Raise e, (self, items), s1)
    | (Ok _, s1) =>
        let num_tests := Z.of_nat (length items) in
        let self := set_collected num_tests self in
        if decide (num_tests = 0) then (Ok tt, (self, items), s1)
        else
          match with_new_session
                  (_collection_session self items num_tests now) s1 with
          | (Raise e, s2) => (Raise e, (self, items), s2)
          | (Ok None, s2) => (Ok tt, (self, items), s2)
          | (Ok (Some filter_res), s2) =>
              let '(r, items') :=
                move_idx_to_end items (known_test_indices filter_res)
                                (Some (getitem (last_run_map filter_res))) in
              (r, (self, items'), s2)
          end
    end.

(** [_is_error_exitstatus] *)
Definition _is_error_exitstatus (exitstatus : Z) : bool :=
  bool_decide (exitstatus ∉ [0; 1; 5]).

(** [_decide_result]; the warning for an unknown state is not kept. *)
Definition _decide_result (state : string) : _TestResultAction :=
  if decide (state = "skipped") then IGNORE
  else if decide (state ∈ ["passed"; "xpassed"; "xfailed"]) then WRITE
  else if decide (state ∈ ["failed"; "error"]) then DROP
  else IGNORE.

(** [LazyStatefulSamplesBroker._process_result] *)
Definition _process_result (self : StatefulSamplesBroker) (state : string)
    (location : Location) : StatefulSamplesBroker :=
  match _decide_result state with
  | IGNORE => self
  | DROP => set_recorded (_failed_tests self ++ [location])
                         (_passed_tests self) self
  | WRITE => set_recorded (_failed_tests self)
                          (_passed_tests self ++ [location]) self
  end.

(** The results of a run, one after the other. *)
Definition process_results (self : StatefulSamplesBroker)
    (reports : list (string * Location)) : StatefulSamplesBroker :=
  foldl (λ self r, _process_result self r.1 r.2) self reports.

(** [LazyStatefulSamplesBroker._sessionfinish]; [now] is the reading of
    [arrow.utcnow()], and a set is handed over as the list of its
    elements. *)
Definition _sessionfinish (self : StatefulSamplesBroker) (exitstatus : Z)
    (now : Z) : M unit :=
  if _is_error_exitstatus exitstatus then ret tt
  else
    let hash_provider : option TestFileHashProvider :=
      if _hash_testfiles self
      then Some (λ test_file, _hash_file self (f_path test_file))
      else None in
    let passed_tests : gset Location := list_to_set (_passed_tests self) in
    let failed_tests : gset Location := list_to_set (_failed_tests self) in
    let passed_tests := passed_tests ∖ failed_tests in
    let num_passed_tests := Z.of_nat (size passed_tests) in
    match _num_tests self with
    | None => raise AssertionError
    | Some num_tests =>
        if negb (_engine self) then raise RuntimeError
        else if bool_decide (num_passed_tests = num_tests)
                && _reset_on_saturation self
        then with_new_session drop_all_entries ;;; ret tt
        else
          with_new_session
            (bulk_add_update_remove now (elements passed_tests)
               (elements failed_tests) hash_provider
               (negb (_no_pruning self))) ;;;
          ret tt
    end.

(** ** [plugin/_broker_stateful.py]: the reports and the end of the session *)

Definition set_session_finished (self : StatefulSamplesBroker)
    : StatefulSamplesBroker :=
  mkStatefulSamplesBroker (_hash_testfiles self) (_randomize self)
    (_no_pruning self) (_reset_on_saturation self) (_engine self)
    (_num_tests self) true (_failed_tests self) (_passed_tests self)
    (_shuffle_items self) (_hash_file self).

(** [pytest_report_teststatus] of the lazy broker; [state] is the first
    component of what the wrapped hook implementations returned for the
    report at [location]. *)
Definition pytest_report_teststatus (self : StatefulSamplesBroker)
    (state : string) (location : Location) : StatefulSamplesBroker :=
  if _session_finished self then self
  else if decide (state = "") then self
  else _process_result self state location.

(** [pytest_sessionfinish] of the lazy broker: [_sessionfinish], and
    whether it returns or raises, the engine is disposed if there is one
    and [_session_finished] is set. *)
Definition pytest_sessionfinish (self : StatefulSamplesBroker)
    (exitstatus : Z) (now : Z)
    : State → Result unit * StatefulSamplesBroker * State :=
  λ s,
    let '(r, s1) := _sessionfinish self exitstatus now s in
    let s2 := if _engine self then snd (dispose s1) else s1 in
    (r, set_session_finished self, s2).

(** ** [plugin/_broker_stateful.py]: [ImmediateStatefulSamplesBroker] *)

Module Immediate.

(** The fields of the immediate broker: those of [StatefulSamplesBroker]
    (the two lists of the lazy subclass stay unused) and its two
    counters. *)
Record ImmediateStatefulSamplesBroker : Type :=
  mkImmediateStatefulSamplesBroker {
    stateful : StatefulSamplesBroker;
    _num_failed_tests : Z;
    _num_passed_tests : Z
  }.

(** [_post_init] *)
Definition _post_init (stateful : StatefulSamplesBroker)
    : ImmediateStatefulSamplesBroker :=
  mkImmediateStatefulSamplesBroker stateful 0 0.

(** [_process_result]: the result, the broker afterwards and the next state
    of the store; [now] is the reading of [arrow.utcnow()]. A counter is
    incremented after the calls on the session have returned. *)
Definition _process_result (self : ImmediateStatefulSamplesBroker)
    (state : string) (location : Location) (now : Z)
    : State → Result unit * ImmediateStatefulSamplesBroker * State :=
  λ s,
    let action := _decide_result state in
    if decide (action = IGNORE) then (Ok tt, self, s)
    else if negb (_engine (stateful self)) then (Raise RuntimeError, self, s)
    else
      match action with
      | DROP =>
          match with_new_session (try_delete_item location) s with
          | (Ok _, s') =>
              (Ok tt,
               mkImmediateStatefulSamplesBroker (stateful self)
                 (_num_failed_tests self + 1) (_num_passed_tests self), s')
          | (Raise e, s') => (Raise e, self, s')
          end
      | WRITE =>
          let '(file, lineno, testname) := location in
          match with_new_session (
                  db_file <- try_get_file file ;;
                  db_file <- match db_file with
                             | Some db_file => ret db_file
                             | None =>
                                 hash <-
                                   (if _hash_testfiles (stateful self)
                                    then h <- lift (_hash_file (stateful self)
                                                               file) ;;
                                         ret (Some h)
                                    else ret None) ;;
                                 add_file file hash
                             end ;;
                  add_or_update_item db_file lineno testname now) s with
          | (Ok _, s') =>
              (Ok tt,
               mkImmediateStatefulSamplesBroker (stateful self)
                 (_num_failed_tests self) (_num_passed_tests self + 1), s')
          | (Raise e, s') => (Raise e, self, s')
          end
      | IGNORE =>
          match with_new_session (raise AssertionError) s with
          | (r, s') => (r, self, s')
          end
      end.

(** The results of a run, one after the other, each with the reading of the
    clock when it is processed; the first exception ends the run. *)
Fixpoint process_results (self : ImmediateStatefulSamplesBroker)
    (reports : list (string * Location * Z))
    : State → Result unit * ImmediateStatefulSamplesBroker * State :=
  λ s,
    match reports with
    | [] => (Ok tt, self, s)
    | (state, location, now) :: reports' =>
        match _process_result self state location now s with
        | (Ok _, self', s') => process_results self' reports' s'
        | (Raise e, self', s') => (Raise e, self', s')
        end
    end.

(** [_sessionfinish] *)
Definition _sessionfinish (self : ImmediateStatefulSamplesBroker)
    (exitstatus : Z) : M unit :=
  if _is_error_exitstatus exitstatus then ret tt
  else
    match _num_tests (stateful self) with
    | None => raise AssertionError
    | Some num_tests =>
        if negb (_engine (stateful self)) then raise RuntimeError
        else if bool_decide (_num_passed_tests self = num_tests)
                && _reset_on_saturation (stateful self)
        then with_new_session drop_all_entries ;;; ret tt
        else if _no_pruning (stateful self) then ret tt
        else with_new_session prune_files ;;; ret tt
    end.

End Immediate.

(** ** The vocabulary of the properties *)

(** The rows a file owns. *)
Definition owned (fid : Z) (db : DB) : list TestItem :=
  filter (λ it, i_file_id it = fid) (test_item db).

(** The populated store of the test suite: one file with two items and one
    file with one item. *)
Definition sample_db : DB :=
  mkDB [mkTestFile 1 "abc" (Some "123"); mkTestFile 2 "def" None]
       [mkTestItem 1 1 (Some 0) "t1" 10; mkTestItem 2 1 (Some 1) "t2" 11;
        mkTestItem 3 2 (Some 0) "t5" 12].

(** An open session over it, with both files loaded. *)
Definition sample_state : State :=
  mkState true sample_db [] false true sample_db [] [1; 2].

(** The [last_run] stored for a location, if any. *)
Definition stored_last_run (db : DB) (loc : Location) : option Z :=
  match head (filter (λ f, f_path f = loc.1.1) (test_file db)) with
  | Some f =>
      i_last_run
        <$> head (filter (same_item (f_id f) loc.1.2 loc.2) (test_item db))
  | None => None
  end.

(** An item survives [prune_items known] when its location resolves into
    [known]. *)
Definition kept (db : DB) (known : gset Location) (it : TestItem) : Prop :=
  match item_location db it with
  | Ok loc => loc ∈ known
  | Raise _ => False
  end.

#[global] Instance kept_dec db known it : Decision (kept db known it).
Proof. unfold kept. destruct (item_location _ it); apply _. Defined.

(** Every item names an existing file (referential integrity). *)
Definition items_have_files (db : DB) : Prop :=
  Forall (λ it, is_Some (item_file db it)) (test_item db).

(** The state a commit of the view [db] leaves. *)
Definition committed (db : DB) (s : State) : State :=
  mkState true db (durable s :: past s) (disposed s) (entered s) db []
          (attached s).

(** The columns of the unique constraint of [test_item]. *)
Definition item_key (it : TestItem) : Z * option Z * string :=
  (i_file_id it, i_lineno it, i_testname it).

(** The constraints of the schema and the integrity of the foreign key. *)
Record wf (db : DB) : Prop := mk_wf {
  wf_paths : NoDup (f_path <$> test_file db);
  wf_file_ids : NoDup (f_id <$> test_file db);
  wf_item_ids : NoDup (i_id <$> test_item db);
  wf_item_keys : NoDup (item_key <$> test_item db);
  wf_files : Forall (λ it, i_file_id it ∈ f_id <$> test_file db) (test_item db)
}.

(** A location has a stored item: a file with its path owns an item with
    its line number and name. *)
Definition stored (db : DB) (loc : Location) : Prop :=
  Exists (λ f, f_path f = loc.1.1
               ∧ Exists (same_item (f_id f) loc.1.2 loc.2) (test_item db))
         (test_file db).

#[global] Instance stored_dec db loc : Decision (stored db loc).
Proof. unfold stored. apply _. Defined.

(** The part of the state only [commit], the SAVEPOINTs and the engine
    change. *)
Definition frame (s s' : State) : Prop :=
  entered s' = entered s ∧ durable s' = durable s ∧ past s' = past s
  ∧ savepoints s' = savepoints s ∧ disposed s' = disposed s.

(** A method that leaves that part alone, whatever it returns or raises. *)
Definition keeps_frame {A} (m : M A) : Prop :=
  ∀ s r s', m s = (r, s') → frame s s'.

(** The hash provider, when there is one, returns. *)
Definition provider_returns (hash_provider : option TestFileHashProvider)
    : Prop :=
  ∀ hp, hash_provider = Some hp → ∀ f, ∃ h, hp f = Ok h.

(** A method that has left that part alone whenever it raises. *)
Definition fails_in_frame {A} (m : M A) : Prop :=
  ∀ s e s', m s = (Raise e, s') → frame s s'.

(** A method that leaves the session open or closed as it was. *)
Definition keeps_entered {A} (m : M A) : Prop :=
  ∀ s r s', m s = (r, s') → entered s' = entered s.

(** Three collected items, all of them stored in [sample_db]. *)
Definition sample_items : list Item :=
  [mkItem "abc::t1" ("abc", Some 0, "t1"); mkItem "abc::t2" ("abc", Some 1, "t2");
   mkItem "def::t5" ("def", Some 0, "t5")].

(** A broker before the collection, without hashing, shuffling or
    pruning switched off. *)
Definition sample_broker (reset : bool) : StatefulSamplesBroker :=
  mkStatefulSamplesBroker false false false reset false None false [] []
    id (λ _, Raise OSError).

(** [db] has the files of [db0], hashes apart, and some of its items. *)
Definition shrinks (db0 db : DB) : Prop :=
  (λ f, (f_id f, f_path f)) <$> test_file db
    = (λ f, (f_id f, f_path f)) <$> test_file db0
  ∧ test_item db `sublist_of` test_item db0.

(** The hash function, when there is one, returns. *)
Definition hash_func_returns (hash_func : option (string → Result bytes))
    : Prop :=
  ∀ hf, hash_func = Some hf → ∀ path, ∃ h, hf path = Ok h.

(** What the comparison has found after the items before index [i], which
    are [seen]: the known indices increase and lie below [i], every known
    item has its recency in the map, and every recency in the map is [now]
    minus the [last_run] that [db0] stores for the item's location. *)
Definition compared (db0 : DB) (now : Z) (i : Z) (seen : list Item)
    (res : DatabaseItemFilterResult) : Prop :=
  i = Z.of_nat (length seen)
  ∧ StronglySorted Z.lt (known_test_indices res)
  ∧ Forall (λ k, 0 ≤ k < i) (known_test_indices res)
  ∧ (∀ k, k ∈ known_test_indices res →
          ∃ it, seen !! Z.to_nat k = Some it ∧ is_Some (last_run_map res !! it))
  ∧ (∀ it v, last_run_map res !! it = Some v →
             ∃ lr, stored_last_run db0 (location it) = Some lr ∧ v = now - lr).

(** What the reports of a run make of the stored [last_run]s when each is
    applied as it comes: a passed test is stored with the time of its
    report, a failed one is removed. *)
Definition apply_report (content : Location → option Z)
    (report : string * Location * Z) : Location → option Z :=
  let '(state, location, now) := report in
  match _decide_result state with
  | WRITE => λ l, if decide (l = location) then Some now else content l
  | DROP => λ l, if decide (l = location) then None else content l
  | IGNORE => content
  end.

(** * Properties *)

(** ** Lists *)

Section filter_facts.
Context {A : Type} (P : A → Prop) `{∀ x, Decision (P x)}.

Lemma filter_all (l : list A) : (∀ x, x ∈ l → P x) → filter P l = l.
Proof.
  induction l as [|x l IH]; intros Hall; [done|].
  rewrite filter_cons_True by (apply Hall; left).
  f_equal. apply IH. intros y Hy. apply Hall. by right.
Qed.

Lemma filter_none (l : list A) : (∀ x, x ∈ l → ¬ P x) → filter P l = [].
Proof.
  intros Hnone. apply elem_of_nil_inv.
  intros x [HP Hx]%list_elem_of_filter. by apply (Hnone x).
Qed.

Lemma filter_nil_none (l : list A) x : filter P l = [] → x ∈ l → ¬ P x.
Proof. intros Hnil Hx HP. by apply (filter_nil_not_elem_of P l x). Qed.
End filter_facts.

(** ** Reasoning about methods *)

Ltac munfold :=
  unfold bind, ret, raise, lift, _ensure_session, query, execute, attach,
    is_attached, flush, commit, begin_nested in *.

Lemma set_pool_open_idem s : pool_open s = true → set_pool_open true s = s.
Proof. destruct s; simpl; intros ->; reflexivity. Qed.

Section invalidate_hash.

Variables (file : TestFile) (h : bytes).

Lemma update_hash_elem (fs : list TestFile) :
  file ∈ fs →
  with_last_hash (Some h) file ∈
    (λ f, if decide (f_id f = f_id file)
          then with_last_hash (Some h) f else f) <$> fs.
Proof.
  intros Hin. apply list_elem_of_fmap. exists file. split; [|done].
  by rewrite decide_True.
Qed.

Lemma update_hash_all (fs : list TestFile) f :
  f ∈ (λ f, if decide (f_id f = f_id file)
            then with_last_hash (Some h) f else f) <$> fs →
  f_id f = f_id file → f_last_hash f = Some h.
Proof.
  intros [g [-> Hg]]%list_elem_of_fmap.
  destruct (decide (f_id g = f_id file)); simpl; [done|]. intros; congruence.
Qed.

End invalidate_hash.

(** ** Pruning of items *)

Lemma item_location_files db db' it :
  test_file db = test_file db' → item_location db it = item_location db' it.
Proof. unfold item_location, item_file. by intros ->. Qed.

Lemma kept_files db db' known it :
  test_file db = test_file db' → kept db known it ↔ kept db' known it.
Proof. intros Hfs. unfold kept. by rewrite (item_location_files db db'). Qed.

Lemma filter_other_ids (l1 l2 : list TestItem) x :
  NoDup (i_id <$> (l1 ++ x :: l2)) →
  filter (λ it', i_id it' ≠ i_id x) (l1 ++ x :: l2) = l1 ++ l2.
Proof.
  rewrite fmap_app, fmap_cons. intros Hnd.
  apply NoDup_app in Hnd as (_ & Hdisj & [Hx _]%NoDup_cons).
  rewrite filter_app, filter_cons_False by (intros Hne; by apply Hne).
  f_equal; apply filter_all.
  - intros y Hy Heq. apply (Hdisj (i_id y)).
    + by apply list_elem_of_fmap_2.
    + rewrite Heq. left.
  - intros y Hy Heq. apply Hx. rewrite <- Heq. by apply list_elem_of_fmap_2.
Qed.

Lemma _prune_items_body_eq (known : gset Location) n x s f :
  pool_open s = true →
  item_file (working s) x = Some f →
  _prune_items_body known n x s
  = if decide ((f_path f, i_lineno x, i_testname x) ∈ known)
    then (Ok n, s)
    else (Ok (n + 1),
          set_working (mkDB (test_file (working s))
                            (filter (λ it', i_id it' ≠ i_id x)
                                    (test_item (working s)))) s).
Proof.
  intros Hpool Hf. unfold _prune_items_body, delete_item, item_location.
  munfold. simpl. rewrite set_pool_open_idem by done. rewrite Hf.
  destruct (decide _); [done|]. by rewrite set_pool_open_idem.
Qed.

Lemma _prune_items_loop (known : gset Location) (fs : list TestFile) :
  ∀ (rest done : list TestItem) (n : Z) (s : State),
    pool_open s = true →
    working s = mkDB fs (done ++ rest) →
    NoDup (i_id <$> (done ++ rest)) →
    Forall (λ it, is_Some (item_file (mkDB fs []) it)) rest →
    for_each (_prune_items_body known) n rest s
    = (Ok (n + Z.of_nat (length
             (filter (λ it, ¬ kept (mkDB fs []) known it) rest))),
       set_working
         (mkDB fs (done ++ filter (kept (mkDB fs []) known) rest)) s).
Proof.
  induction rest as [|x rest IH]; intros done n s Hpool Hw Hnd Hfiles.
  - simpl. unfold ret. rewrite app_nil_r in *. rewrite Z.add_0_r, <- Hw.
    by destruct s.
  - apply Forall_cons in Hfiles as [[f Hf] Hfiles].
    assert (Hf' : item_file (working s) x = Some f).
    { unfold item_file in *. by rewrite Hw. }
    assert (Hk : kept (mkDB fs []) known x
                 ↔ (f_path f, i_lineno x, i_testname x) ∈ known).
    { unfold kept, item_location. by rewrite Hf. }
    cbn [for_each]. unfold bind.
    rewrite (_prune_items_body_eq known n x s f) by done.
    destruct (decide ((f_path f, i_lineno x, i_testname x) ∈ known)) as [Hin|Hin].
    + rewrite (IH (done ++ [x]) n s); try done.
      * rewrite filter_cons_False by (intros Hn; apply Hn, Hk, Hin).
        rewrite filter_cons_True by (by apply Hk).
        by rewrite <- app_assoc.
      * by rewrite <- app_assoc.
      * by rewrite <- app_assoc.
    + rewrite Hw. simpl. rewrite filter_other_ids by done.
      rewrite (IH done (n + 1) (set_working (mkDB fs (done ++ rest)) s)).
      * rewrite filter_cons_True by (intros Hn; apply Hin, Hk, Hn).
        rewrite filter_cons_False by (intros Hn; apply Hin, Hk, Hn).
        rewrite length_cons, Nat2Z.inj_succ.
        replace (n + 1 + Z.of_nat _) with (n + Z.succ (Z.of_nat (length
          (filter (λ it, ¬ kept (mkDB fs []) known it) rest)))) by lia.
        by destruct s.
      * by destruct s.
      * by destruct s.
      * rewrite fmap_app in *. rewrite fmap_cons in Hnd.
        apply NoDup_app in Hnd as (? & Hd & [? ?]%NoDup_cons).
        apply NoDup_app. split_and!; [done| |done].
        intros y Hy Hy'. apply (Hd y Hy). by right.
      * done.
Qed.

Lemma _prune_items_eq (known : gset Location) (s : State) :
  pool_open s = true →
  NoDup (i_id <$> test_item (working s)) →
  items_have_files (working s) →
  _prune_items known s
  = (Ok (Z.of_nat (length
           (filter (λ it, ¬ kept (working s) known it)
                   (test_item (working s))))),
     set_working
       (mkDB (test_file (working s))
             (filter (kept (working s) known) (test_item (working s)))) s).
Proof.
  intros Hpool Hnd Hfiles. unfold _prune_items. unfold bind, query.
  rewrite set_pool_open_idem by done.
  rewrite (_prune_items_loop known (test_file (working s))
             (test_item (working s)) [] 0 s); try done.
  by destruct (working s).
Qed.

Lemma filter_NoDup_ids (P : TestItem → Prop) `{∀ it, Decision (P it)} l :
  NoDup (i_id <$> l) → NoDup (i_id <$> filter P l).
Proof.
  intros Hnd. eapply sublist_NoDup; [exact Hnd|].
  apply fmap_sublist, sublist_filter.
Qed.

Lemma prune_items_run (known : gset Location) (s0 : State) :
  entered s0 = true →
  NoDup (i_id <$> test_item (working s0)) →
  items_have_files (working s0) →
  ∃ s1,
    prune_items known s0
      = (Ok (Z.of_nat (length
               (filter (λ it, ¬ kept (working s0) known it)
                       (test_item (working s0))))), s1)
    ∧ working s1
        = mkDB (test_file (working s0))
               (filter (kept (working s0) known) (test_item (working s0)))
    ∧ durable s1 = working s1 ∧ entered s1 = true.
Proof.
  intros Hent0 Hnd0 Hfiles0. unfold prune_items.
  unfold bind at 1. unfold _ensure_session. rewrite Hent0.
  unfold begin_nested. unfold bind at 1.
  rewrite _prune_items_eq; [|done..].
  unfold bind, commit, ret. simpl. eexists. split; [reflexivity|].
  simpl. by rewrite Hent0.
Qed.

(** C6. In an open session over a store whose items have distinct ids and
    name existing files, [prune_items known] deletes exactly the items whose
    location is not in [known], keeps the others in place, returns the
    number of deleted items and commits; a second call with the same set
    returns [0] and changes nothing. *)
Theorem prune_items_exact_idempotent (s : State) (known : gset Location) :
  entered s = true →
  NoDup (i_id <$> test_item (working s)) →
  items_have_files (working s) →
  ∃ s1 s2,
    prune_items known s
      = (Ok (Z.of_nat (length
               (filter (λ it, ¬ kept (working s) known it)
                       (test_item (working s))))), s1)
    ∧ working s1
        = mkDB (test_file (working s))
               (filter (kept (working s) known) (test_item (working s)))
    ∧ durable s1 = working s1
    ∧ prune_items known s1 = (Ok 0, s2)
    ∧ working s2 = working s1
    ∧ durable s2 = durable s1.
Proof.
  intros Hent Hnd Hfiles.
  pose proof (prune_items_run known) as Hstep.
  destruct (Hstep s Hent Hnd Hfiles) as (s1 & Hrun1 & Hw1 & Hd1 & Hent1).
  assert (Hall : ∀ it, it ∈ test_item (working s1) → kept (working s1) known it).
  { intros it. rewrite Hw1. simpl. intros [Hk _]%list_elem_of_filter.
    by apply (kept_files (working s)). }
  destruct (Hstep s1 Hent1) as (s2 & Hrun2 & Hw2 & Hd2 & _).
  { rewrite Hw1. simpl. by apply filter_NoDup_ids. }
  { unfold items_have_files in *. rewrite Hw1. simpl.
    apply Forall_forall. intros it [_ Hit]%list_elem_of_filter.
    rewrite Forall_forall in Hfiles. by apply Hfiles. }
  exists s1, s2. split_and!; try done.
  - rewrite Hrun2. do 2 f_equal.
    rewrite filter_none; [done|]. intros x Hx Hn. by apply Hn, Hall.
  - rewrite Hw2. rewrite filter_all by done. by destruct (working s1).
  - by rewrite Hd2, Hw2, Hd1, filter_all by done; destruct (working s1).
Qed.

Lemma prune_items_exact_idempotent_witness :
  ∃ s1 s2,
    prune_items {[ ("abc", Some 0, "t1") ]} sample_state = (Ok 2, s1)
    ∧ test_item (working s1) = [mkTestItem 1 1 (Some 0) "t1" 10]
    ∧ prune_items {[ ("abc", Some 0, "t1") ]} s1 = (Ok 0, s2)
    ∧ working s2 = working s1.
Proof.
  destruct (prune_items_exact_idempotent sample_state
              {[ ("abc", Some 0, "t1") ]})
    as (s1 & s2 & H1 & Hw & _ & H2 & Hw2 & _).
  - reflexivity.
  - compute_done.
  - repeat constructor; by eexists.
  - exists s1, s2. split_and!; [exact H1| |exact H2|exact Hw2].
    rewrite Hw. reflexivity.
Defined.

(** ** Adding and updating one item *)

Lemma next_id_bound (ids : list Z) x : x ∈ ids → x < next_id ids.
Proof.
  unfold next_id. induction ids as [|y ids IH]; [by intros ?%elem_of_nil|].
  intros [->|Hx]%elem_of_cons; simpl; [lia|]. specialize (IH Hx). lia.
Qed.

Lemma next_id_fresh (ids : list Z) : next_id ids ∉ ids.
Proof. intros Hin%next_id_bound. lia. Qed.

Lemma NoDup_ids_inj {A B} (f : A → B) (l : list A) x y :
  NoDup (f <$> l) → x ∈ l → y ∈ l → f x = f y → x = y.
Proof.
  induction l as [|z l IH]; [by intros _ ?%elem_of_nil|].
  rewrite fmap_cons. intros [Hz Hnd]%NoDup_cons.
  intros [->|Hx]%elem_of_cons [->|Hy]%elem_of_cons Heq; [done| | |by apply IH].
  - exfalso. apply Hz. rewrite Heq. by apply list_elem_of_fmap_2.
  - exfalso. apply Hz. rewrite <- Heq. by apply list_elem_of_fmap_2.
Qed.

Lemma filter_fmap_commute {A} (P : A → Prop) `{∀ x, Decision (P x)}
    (g : A → A) (l : list A) :
  (∀ x, P (g x) ↔ P x) → filter P (g <$> l) = g <$> filter P l.
Proof.
  intros Hg. induction l as [|x l IH]; [done|].
  rewrite fmap_cons, !filter_cons.
  destruct (decide (P (g x))) as [Hp|Hp], (decide (P x)) as [Hq|Hq];
    rewrite ?fmap_cons, IH; try done.
  - exfalso. apply Hq, Hg, Hp.
  - exfalso. apply Hp, Hg, Hq.
Qed.

Lemma fmap_ext_in {A B} (f g : A → B) (l : list A) :
  (∀ x, x ∈ l → f x = g x) → f <$> l = g <$> l.
Proof.
  intros Hfg. apply list_fmap_ext. intros i x Hx. apply Hfg.
  by apply list_elem_of_lookup_2 in Hx.
Qed.

Lemma fmap_id_on {A} (g : A → A) (l : list A) :
  (∀ x, x ∈ l → g x = x) → g <$> l = l.
Proof.
  intros Hg. rewrite <- (list_fmap_id l) at 2. by apply fmap_ext_in.
Qed.

Section add_or_update_item.

Variables (file : TestFile) (lineno : option Z) (testname : string).

Let same := same_item (f_id file) lineno testname.

Lemma add_or_update_item_insert s last_run :
  entered s = true →
  f_id file ∈ attached s →
  filter same (test_item (working s)) = [] →
  let new := mkTestItem (next_id (i_id <$> test_item (working s)))
                        (f_id file) lineno testname last_run in
  add_or_update_item file lineno testname last_run s
  = (Ok new,
     committed (mkDB (test_file (working s))
                     (test_item (working s) ++ [new])) s).
Proof.
  intros Hent Hatt Hnil new.
  unfold add_or_update_item, _try_get_item, insert_item. munfold.
  rewrite Hent. simpl. rewrite bool_decide_true by done. simpl.
  fold same. rewrite Hnil. simpl.
  rewrite bool_decide_false; [done|].
  intros [_ (x & Hx & Hs)%Exists_exists].
  by apply (filter_nil_none same _ x Hnil).
Qed.

Lemma add_or_update_item_update s last_run it :
  entered s = true →
  f_id file ∈ attached s →
  filter same (test_item (working s)) = [it] →
  add_or_update_item file lineno testname last_run s
  = (Ok (with_last_run last_run it),
     committed
       (mkDB (test_file (working s))
             ((λ x, if decide (i_id x = i_id it)
                    then with_last_run last_run x else x)
                <$> test_item (working s))) s).
Proof.
  intros Hent Hatt Hone.
  unfold add_or_update_item, _try_get_item, update_last_run. munfold.
  rewrite Hent. simpl. rewrite bool_decide_true by done. simpl.
  fold same. by rewrite Hone.
Qed.

Lemma add_or_update_item_step s last_run :
  entered s = true →
  f_id file ∈ attached s →
  NoDup (i_id <$> test_item (working s)) →
  (length (filter same (test_item (working s))) ≤ 1)%nat →
  ∃ s' it,
    add_or_update_item file lineno testname last_run s = (Ok it, s')
    ∧ entered s' = true
    ∧ attached s' = attached s
    ∧ test_file (working s') = test_file (working s)
    ∧ filter same (test_item (working s')) = [it]
    ∧ i_last_run it = last_run
    ∧ filter (λ x, ¬ same x) (test_item (working s'))
        = filter (λ x, ¬ same x) (test_item (working s))
    ∧ NoDup (i_id <$> test_item (working s'))
    ∧ durable s' = working s'
    ∧ length (test_item (working s'))
        = (length (test_item (working s))
           + match filter same (test_item (working s)) with
             | [] => 1
             | _ => 0
             end)%nat.
Proof.
  intros Hent Hatt Hnd Hle.
  destruct (filter same (test_item (working s))) as [|it [|it' rest]] eqn:Hf;
    [| |simpl in Hle; lia].
  - eexists _, _. split; [by apply add_or_update_item_insert|].
    simpl. split_and!; try done.
    + rewrite filter_app, Hf. simpl. by rewrite filter_cons_True.
    + rewrite filter_app. rewrite filter_cons_False; [|by intros Hn; apply Hn].
      by rewrite filter_nil, app_nil_r.
    + rewrite fmap_app. apply NoDup_app. split_and!; [done| |].
      * intros x Hx [->|[]%elem_of_nil]%elem_of_cons. simpl in Hx.
        by apply next_id_fresh in Hx.
      * apply NoDup_singleton.
    + rewrite length_app. simpl. lia.
  - assert (Hit : it ∈ test_item (working s) ∧ same it).
    { assert (Hin : it ∈ filter same (test_item (working s)))
        by (rewrite Hf; left).
      apply list_elem_of_filter in Hin. tauto. }
    destruct Hit as [Hit Hsame].
    eexists _, _. split; [by apply add_or_update_item_update|].
    simpl. split_and!; try done.
    + rewrite filter_fmap_commute.
      * rewrite Hf. simpl. by rewrite decide_True.
      * intros x. by destruct (decide (i_id x = i_id it)).
    + rewrite filter_fmap_commute.
      * apply fmap_id_on. intros x [Hns Hx]%list_elem_of_filter.
        destruct (decide (i_id x = i_id it)) as [Heq|]; [|done].
        exfalso. apply Hns.
        by rewrite (NoDup_ids_inj i_id _ x it Hnd Hx Hit Heq).
      * intros x. by destruct (decide (i_id x = i_id it)).
    + rewrite <- list_fmap_compose.
      erewrite fmap_ext_in; [exact Hnd|].
      intros x _. simpl. by destruct (decide (i_id x = i_id it)).
    + rewrite length_fmap. lia.
Qed.

End add_or_update_item.

(** C7. In an open session, on a store with distinct item ids and at most
    one item for the identity (file, lineno, testname), any sequence of
    [add_or_update_item] calls on that identity succeeds and leaves exactly
    one item for it, whose [last_run] is the stamp of the last call. The
    other items and the files are untouched, and the item count grows by one
    when the identity was absent before the calls and not at all otherwise,
    however many calls follow: the first call inserts, the later ones only
    update. *)
Theorem add_or_update_item_calls_one_item (s : State) (file : TestFile)
    (lineno : option Z) (testname : string) (stamps : list Z) (last : Z) :
  entered s = true →
  f_id file ∈ attached s →
  NoDup (i_id <$> test_item (working s)) →
  (length (filter (same_item (f_id file) lineno testname)
                  (test_item (working s))) ≤ 1)%nat →
  ∃ s' it,
    add_or_update_item_calls file lineno testname (stamps ++ [last]) s
      = (Ok tt, s')
    ∧ filter (same_item (f_id file) lineno testname) (test_item (working s'))
        = [it]
    ∧ i_last_run it = last
    ∧ filter (λ x, ¬ same_item (f_id file) lineno testname x)
             (test_item (working s'))
        = filter (λ x, ¬ same_item (f_id file) lineno testname x)
                 (test_item (working s))
    ∧ test_file (working s') = test_file (working s)
    ∧ durable s' = working s'
    ∧ length (test_item (working s'))
        = (length (test_item (working s))
           + match filter (same_item (f_id file) lineno testname)
                          (test_item (working s)) with
             | [] => 1
             | _ => 0
             end)%nat.
Proof.
  revert s. induction stamps as [|t stamps IH]; intros s Hent Hatt Hnd Hle.
  - destruct (add_or_update_item_step file lineno testname s last
                Hent Hatt Hnd Hle)
      as (s' & it & Hrun & _ & _ & Hfs & Hone & Hlast & Hothers & _ & Hdur & Hlen).
    exists s', it. unfold add_or_update_item_calls. simpl.
    unfold bind, ret. rewrite Hrun. by split_and!.
  - destruct (add_or_update_item_step file lineno testname s t
                Hent Hatt Hnd Hle)
      as (s1 & it1 & Hrun & Hent1 & Hatt1 & Hfs1 & Hone1 & _ & Hothers1
          & Hnd1 & _ & Hlen1).
    destruct (IH s1) as (s' & it & Hrun' & Hone & Hlast & Hothers & Hfs
                         & Hdur & Hlen); try done.
    { by rewrite Hatt1. }
    { by rewrite Hone1. }
    exists s', it. unfold add_or_update_item_calls in *. simpl.
    unfold bind at 1. unfold bind at 1. rewrite Hrun. unfold ret at 1.
    rewrite Hrun'. split_and!; try done.
    + by rewrite Hothers.
    + by rewrite Hfs.
    + rewrite Hlen, Hone1, Hlen1. lia.
Qed.

Lemma add_or_update_item_calls_one_item_witness :
  ∃ s' it,
    add_or_update_item_calls (mkTestFile 2 "def" None) (Some 7) "t9"
      [20; 30; 40] sample_state = (Ok tt, s')
    ∧ filter (same_item 2 (Some 7) "t9") (test_item (working s')) = [it]
    ∧ i_last_run it = 40
    ∧ length (test_item (working s')) = 4%nat.
Proof.
  destruct (add_or_update_item_calls_one_item sample_state
              (mkTestFile 2 "def" None) (Some 7) "t9" [20; 30] 40)
    as (s' & it & Hrun & Hone & Hlast & _ & _ & _ & Hlen).
  - reflexivity.
  - compute_done.
  - compute_done.
  - vm_compute. lia.
  - exists s', it. split_and!; [exact Hrun|exact Hone|exact Hlast|exact Hlen].
Defined.

(** ** Deleting one item *)

(** C8. In an open session, [try_delete_item] first looks the file up by its
    path. When no file has the path it returns [False] and neither the
    session's view nor the database file changes. When one file has it, the
    matching items are deleted and counted: none gives [False] and no
    change, one gives [True] and a commit of the view without the item, and
    more than one gives [MultipleResultsFound] -- raised by
    [_try_delete_item] after the rows are gone from the view, and undone by
    the rollback of the enclosing SAVEPOINT. Several files with the path
    give [MultipleResultsFound] as well. *)
Theorem try_delete_item_cases (s : State) (path : string)
    (lineno : option Z) (testname : string) :
  entered s = true →
  let unchanged s' :=
    working s' = working s ∧ durable s' = durable s ∧ past s' = past s in
  match filter (λ f, f_path f = path) (test_file (working s)) with
  | [] =>
      ∃ s', try_delete_item (path, lineno, testname) s = (Ok false, s')
            ∧ unchanged s'
  | [db_file] =>
      let same := same_item (f_id db_file) lineno testname in
      match filter same (test_item (working s)) with
      | [] =>
          ∃ s', try_delete_item (path, lineno, testname) s = (Ok false, s')
                ∧ unchanged s'
      | [_] =>
          ∃ s', try_delete_item (path, lineno, testname) s = (Ok true, s')
                ∧ working s'
                    = mkDB (test_file (working s))
                           (filter (λ it, ¬ same it) (test_item (working s)))
                ∧ durable s' = working s'
                ∧ past s' = durable s :: past s
      | _ =>
          ∃ s1 s',
            _try_delete_item (path, lineno, testname) (push_savepoint s)
              = (Raise MultipleResultsFound, s1)
            ∧ test_item (working s1)
                = filter (λ it, ¬ same it) (test_item (working s))
            ∧ try_delete_item (path, lineno, testname) s
                = (Raise MultipleResultsFound, s')
            ∧ unchanged s'
      end
  | _ =>
      ∃ s', try_delete_item (path, lineno, testname) s
              = (Raise MultipleResultsFound, s')
            ∧ unchanged s'
  end.
Proof.
  intros Hent unchanged. subst unchanged.
  unfold try_delete_item, _try_delete_item, _try_get_file, delete_items_where,
    scalar_one_or_none.
  destruct (filter _ (test_file (working s))) as [|db_file [|f2 fs]] eqn:Hfs.
  - munfold. rewrite Hent. simpl. rewrite Hfs. simpl. eauto.
  - cbv zeta.
    destruct (filter _ (test_item (working s))) as [|it [|it2 its]] eqn:Hits.
    + munfold. rewrite Hent. simpl. rewrite Hfs. simpl. rewrite Hits. simpl.
      eexists. split; [reflexivity|]. simpl. split_and!; try done.
      rewrite filter_all; [by destruct (working s)|].
      intros x Hx. by apply (filter_nil_none _ _ x Hits).
    + munfold. rewrite Hent. simpl. rewrite Hfs. simpl. rewrite Hits. simpl.
      eauto 10.
    + munfold. rewrite Hent. simpl. rewrite Hfs. simpl. rewrite Hits.
      cbn [length].
      destruct (decide (Z.of_nat (S (S (length its))) < 0)); [lia|].
      destruct (decide (Z.of_nat (S (S (length its))) > 1)); [|lia].
      simpl. eauto 10.
  - munfold. rewrite Hent. simpl. rewrite Hfs. simpl. eauto.
Qed.

Lemma try_delete_item_cases_witness :
  ∃ s', try_delete_item ("abc", Some 1, "t2") sample_state = (Ok true, s')
        ∧ test_item (working s')
            = [mkTestItem 1 1 (Some 0) "t1" 10; mkTestItem 3 2 (Some 0) "t5" 12]
        ∧ durable s' = working s'.
Proof.
  pose proof (try_delete_item_cases sample_state "abc" (Some 1) "t2" eq_refl)
    as H.
  destruct H as (s' & Hrun & Hw & Hd & _).
  exists s'. split_and!; [exact Hrun| |exact Hd].
  rewrite Hw. reflexivity.
Defined.

(** ** The soft timeout *)

Lemma run_items_length clock self :
  length (run_items clock self) = length clock.
Proof.
  revert self. induction clock as [|now clock IH]; intros self; [done|].
  simpl. destruct (_prepare_item_check_timeout now self). simpl.
  by rewrite IH.
Qed.

Lemma run_items_inert clock self :
  _soft_timeout self = None → Forall (λ b, b = false) (run_items clock self).
Proof.
  intros Hnone. revert self Hnone.
  induction clock as [|now clock IH]; intros self Hnone; [constructor|].
  simpl. unfold _prepare_item_check_timeout. rewrite Hnone.
  constructor; [done|]. by apply IH.
Qed.

Lemma run_items_expired clock self timeout :
  _soft_timeout self = Some timeout → _past_timeout self = true →
  Forall (λ b, b = true) (run_items clock self).
Proof.
  intros Hto Hpast. induction clock as [|now clock IH]; [constructor|].
  simpl. unfold _prepare_item_check_timeout. rewrite Hto, Hpast.
  by constructor.
Qed.

(** Once started and not yet expired, item [k] is marked exactly when one of
    the checks up to it found the budget used up. *)
Lemma run_items_running clock timeout t0 k :
  (k < length clock)%nat →
  run_items clock (mkSamplesBrokerBase (Some timeout) (Some t0) false) !! k
  = Some (bool_decide (Exists (λ t, t - t0 >= timeout) (take (S k) clock))).
Proof.
  revert k. induction clock as [|now clock IH]; intros k Hk;
    [simpl in Hk; lia|].
  cbn [run_items]. unfold _prepare_item_check_timeout. cbn [_soft_timeout
    _past_timeout _start_time]. unfold check_timeout_expired.
  destruct (bool_decide (now - t0 >= timeout)) eqn:Hnow.
  - apply bool_decide_eq_true in Hnow.
    rewrite bool_decide_true by (rewrite firstn_cons; by left).
    destruct k as [|k]; [done|]. simpl.
    assert (Hall := run_items_expired clock
      (mkSamplesBrokerBase (Some timeout) (Some t0) true) timeout
      eq_refl eq_refl).
    rewrite Forall_lookup in Hall.
    destruct (lookup_lt_is_Some_2
                (run_items clock
                   (mkSamplesBrokerBase (Some timeout) (Some t0) true)) k)
      as [b Hb].
    { rewrite run_items_length. simpl in Hk. lia. }
    rewrite Hb. f_equal. by apply (Hall k).
  - apply bool_decide_eq_false in Hnow.
    destruct k as [|k]; simpl.
    + f_equal. symmetry. apply bool_decide_eq_false.
      rewrite take_0. by intros [?|?%Exists_nil]%Exists_cons.
    + rewrite IH by (simpl in Hk; lia). f_equal.
      apply bool_decide_ext. rewrite Exists_cons. simpl. tauto.
Qed.

(** C5. For every budget and every sequence of clock readings, the first
    item is never marked and only starts the clock. With a budget, a later
    item is marked exactly when the check at that item or at an earlier one
    found an elapsed time of at least the budget (the comparison is [>=]);
    so the item whose check detects the expiry is itself marked, and a mark
    is followed by marks only. With budget [0] and a clock that has not gone
    back at the second item, every item after the first is marked. Without a
    budget no item is marked. *)
Theorem timeout_governor_run (timeout : option Z) (t0 : Z) (later : list Z) :
  ∃ flags,
    run_items (t0 :: later) (new_broker_base timeout) = false :: flags
    ∧ length flags = length later
    ∧ (∀ k, (k < length later)%nat →
         flags !! k
         = Some match timeout with
                | None => false
                | Some budget =>
                    bool_decide
                      (Exists (λ t, t - t0 >= budget) (take (S k) later))
                end)
    ∧ (∀ j k, (j ≤ k < length later)%nat →
         flags !! j = Some true → flags !! k = Some true)
    ∧ (timeout = Some 0 → Forall (λ t, t0 ≤ t) (take 1 later) →
       Forall (λ b, b = true) flags).
Proof.
  destruct timeout as [budget|].
  - exists (run_items later (mkSamplesBrokerBase (Some budget) (Some t0) false)).
    assert (Hk : ∀ k, (k < length later)%nat →
      run_items later (mkSamplesBrokerBase (Some budget) (Some t0) false) !! k
      = Some (bool_decide
                (Exists (λ t, t - t0 >= budget) (take (S k) later))))
      by (intros k; apply run_items_running).
    split_and!; [done|apply run_items_length|exact Hk| |].
    + intros j k [Hjk Hlt]. rewrite !Hk by lia.
      intros [= Hj]. f_equal. apply bool_decide_eq_true in Hj.
      apply bool_decide_eq_true.
      apply Exists_exists in Hj as (t & Ht & Hge).
      apply Exists_exists. exists t. split; [|done].
      apply list_elem_of_lookup in Ht as [i Hi].
      apply list_elem_of_lookup. exists i.
      apply lookup_take_Some in Hi as [Hi Hlti].
      apply lookup_take_Some. split; [done|lia].
    + intros [= ->] Hmono. apply Forall_lookup. intros k b Hb.
      assert (Hlt : (k < length later)%nat).
      { apply lookup_lt_Some in Hb. by rewrite run_items_length in Hb. }
      rewrite Hk in Hb by done. injection Hb as <-.
      apply bool_decide_eq_true.
      destruct later as [|t1 later']; [simpl in Hlt; lia|].
      apply Forall_cons in Hmono as [Hle _].
      rewrite firstn_cons. left. lia.
  - exists (run_items later (mkSamplesBrokerBase None None false)).
    assert (Hall := run_items_inert later
      (mkSamplesBrokerBase None None false) eq_refl).
    rewrite Forall_lookup in Hall.
    split_and!; [done|apply run_items_length| | |done].
    + intros k Hlt.
      destruct (lookup_lt_is_Some_2
                  (run_items later (mkSamplesBrokerBase None None false)) k)
        as [b Hb]; [by rewrite run_items_length|].
      rewrite Hb. f_equal. by apply (Hall k).
    + intros j k _ Hj. by apply Hall in Hj.
Qed.

Lemma timeout_governor_run_witness :
  ∃ flags,
    run_items [10; 10; 11] (new_broker_base (Some 0)) = false :: flags
    ∧ Forall (λ b, b = true) flags.
Proof.
  destruct (timeout_governor_run (Some 0) 10 [10; 11])
    as (flags & Hrun & _ & _ & _ & Hzero).
  exists flags. split; [exact Hrun|].
  apply Hzero; [reflexivity|].
  simpl. repeat constructor. lia.
Defined.

(** The claim as written puts the expiry at an elapsed time that exceeds
    the budget: with a budget of 5 and a second item checked 5 after the
    start, the elapsed time does not exceed the budget and the item is
    marked all the same. *)
Lemma timeout_at_budget_counterexample :
  run_items [0; 5] (new_broker_base (Some 5)) = [false; true]
  ∧ ¬ (5 - 0 > 5).
Proof. split; [reflexivity|lia]. Qed.

(** ** Disposal of the engine *)

Lemma engine_calls_disposed cs s :
  disposed s = true → pool_open s = false →
  let '(rs, s') := engine_calls cs s in
  disposed s' = true ∧ pool_open s' = false
  ∧ Forall2 (λ c r, match c with
                    | CallDispose => r = Ok tt
                    | _ => r = Raise EngineDisposedError
                    end) cs rs.
Proof.
  revert s. induction cs as [|c cs IH]; intros s Hd Hp; [by simpl|].
  cbn [engine_calls].
  assert (Hc : ∃ s1, engine_call c s = (match c with
                                        | CallDispose => Ok tt
                                        | _ => Raise EngineDisposedError
                                        end, s1)
                     ∧ disposed s1 = true ∧ pool_open s1 = false).
  { destruct c; simpl; unfold setup_tables, new_session, dispose,
      _ensure_not_disposed, bind; rewrite ?Hd; eauto. }
  destruct Hc as (s1 & -> & Hd1 & Hp1).
  specialize (IH s1 Hd1 Hp1). destruct (engine_calls cs s1) as [rs s2].
  destruct IH as (? & ? & ?). split_and!; [done..|].
  constructor; [by destruct c|done].
Qed.

(** C9. After [dispose], [setup_tables] and [new_session] (hence every
    [with engine.new_session()] block) raise [EngineDisposedError] and leave
    every object as it is; and whatever calls are made on the engine from
    then on, those two keep raising and the connection pool stays closed. *)
Theorem engine_calls_after_dispose (s : State) :
  ∃ s1,
    dispose s = (Ok tt, s1)
    ∧ disposed s1 = true
    ∧ pool_open s1 = false
    ∧ setup_tables s1 = (Raise EngineDisposedError, s1)
    ∧ new_session s1 = (Raise EngineDisposedError, s1)
    ∧ (∀ A (body : M A),
         with_new_session body s1 = (Raise EngineDisposedError, s1))
    ∧ (∀ cs,
         let '(rs, s2) := engine_calls cs s1 in
         pool_open s2 = false
         ∧ Forall2 (λ c r, match c with
                           | CallDispose => r = Ok tt
                           | _ => r = Raise EngineDisposedError
                           end) cs rs).
Proof.
  eexists. split; [reflexivity|]. split_and!; try reflexivity.
  intros cs.
  pose proof (engine_calls_disposed cs
                (set_disposed true (set_pool_open false s))
                eq_refl eq_refl) as H.
  destruct (engine_calls cs _) as [rs s2]. tauto.
Qed.

(** The claim as written also covers the sessions made from the engine. A
    [Session] made before [dispose] holds the SQLAlchemy engine itself: used
    after the disposal it raises nothing, answers the query, and the
    engine's pool is open again. *)
Lemma session_after_dispose_counterexample :
  ∃ s,
    (new_session ;;; dispose ;;; __enter__ ;;; try_get_file "abc")
      (fresh_state sample_db)
    = (Ok (Some (mkTestFile 1 "abc" (Some "123"))), s)
    ∧ disposed s = true
    ∧ pool_open s = true.
Proof. eexists. split_and!; reflexivity. Qed.

(** ** Well-formed stores and stored locations *)

Lemma stored_iff db path lineno testname :
  stored db (path, lineno, testname)
  ↔ ∃ f it, f ∈ test_file db ∧ f_path f = path
            ∧ it ∈ test_item db ∧ same_item (f_id f) lineno testname it.
Proof.
  unfold stored. simpl. rewrite Exists_exists. split.
  - intros (f & Hf & Hp & (it & Hit & Hs)%Exists_exists). eauto 10.
  - intros (f & it & Hf & Hp & Hit & Hs). exists f. split_and!; [done..|].
    apply Exists_exists. eauto.
Qed.

Lemma same_item_key fid lineno testname it :
  same_item fid lineno testname it ↔ item_key it = (fid, lineno, testname).
Proof.
  unfold same_item, item_key. split; [by intros (-> & -> & ->)|].
  by intros [= -> -> ->].
Qed.

Lemma filter_key_unique {A K} `{EqDecision K} (g : A → K) (l : list A) v :
  NoDup (g <$> l) → (length (filter (λ x, g x = v) l) ≤ 1)%nat.
Proof.
  induction l as [|x l IH]; [simpl; lia|].
  rewrite fmap_cons. intros [Hx Hnd]%NoDup_cons.
  rewrite filter_cons. destruct (decide (g x = v)) as [Hv|]; [|by apply IH].
  rewrite filter_none; [simpl; lia|].
  intros y Hy Hgy. apply Hx. rewrite Hv, <- Hgy. by apply list_elem_of_fmap_2.
Qed.

Lemma wf_one_file db path :
  wf db → (length (filter (λ f, f_path f = path) (test_file db)) ≤ 1)%nat.
Proof. intros Hwf. apply filter_key_unique, Hwf. Qed.

Lemma wf_one_item db fid lineno testname :
  wf db →
  (length (filter (same_item fid lineno testname) (test_item db)) ≤ 1)%nat.
Proof.
  intros Hwf.
  rewrite (list_filter_iff _ (λ it, item_key it = (fid, lineno, testname)))
    by (intros; apply same_item_key).
  apply filter_key_unique, Hwf.
Qed.

Lemma filter_singleton_elem {A} (P : A → Prop) `{∀ x, Decision (P x)} l x :
  filter P l = [x] → x ∈ l ∧ P x.
Proof.
  intros Hf. assert (Hx : x ∈ filter P l) by (rewrite Hf; left).
  apply list_elem_of_filter in Hx. tauto.
Qed.

(** *** The four changes of the tables *)

Section table_changes.

Variable db : DB.
Hypothesis Hwf : wf db.

Lemma wf_insert_item f lineno testname last_run :
  f ∈ test_file db →
  filter (same_item (f_id f) lineno testname) (test_item db) = [] →
  let new := mkTestItem (next_id (i_id <$> test_item db)) (f_id f)
                        lineno testname last_run in
  let db' := mkDB (test_file db) (test_item db ++ [new]) in
  wf db'
  ∧ ∀ l, stored db' l ↔ stored db l ∨ l = (f_path f, lineno, testname).
Proof.
  intros Hf Hnone new db'. destruct Hwf as [Hp Hfi Hii Hik Hfs]. split.
  - constructor; simpl; try done.
    + rewrite fmap_app. apply NoDup_app. split_and!; [done| |apply NoDup_singleton].
      intros x Hx [->|[]%elem_of_nil]%elem_of_cons.
      by apply next_id_fresh in Hx.
    + rewrite fmap_app. apply NoDup_app. split_and!; [done| |apply NoDup_singleton].
      intros k [it [-> Hit]]%list_elem_of_fmap [Hk|[]%elem_of_nil]%elem_of_cons.
      apply (filter_nil_none _ _ it Hnone Hit). by apply same_item_key.
    + apply Forall_app. split; [done|]. constructor; [|constructor].
      simpl. by apply list_elem_of_fmap_2.
  - intros [[p ln] n]. rewrite !stored_iff. simpl. split.
    + intros (g & it & Hg & Hpg & [Hit|[->|[]%elem_of_nil]%elem_of_cons]%elem_of_app & Hs).
      * left. eauto 10.
      * right. destruct Hs as (Hid & Hln & Hn). simpl in *. subst.
        assert (g = f) as -> by (by apply (NoDup_ids_inj f_id (test_file db))).
        done.
    + intros [(g & it & Hg & Hpg & Hit & Hs)|[= -> -> ->]].
      * exists g, it. split_and!; try done. apply elem_of_app. by left.
      * exists f, new. split_and!; try done.
        apply elem_of_app. right. left.
Qed.

Lemma wf_insert_file_item path hash lineno testname last_run :
  filter (λ f, f_path f = path) (test_file db) = [] →
  let newf := mkTestFile (next_id (f_id <$> test_file db)) path hash in
  let new := mkTestItem (next_id (i_id <$> test_item db)) (f_id newf)
                        lineno testname last_run in
  let db' := mkDB (test_file db ++ [newf]) (test_item db ++ [new]) in
  wf db'
  ∧ filter (same_item (f_id newf) lineno testname) (test_item db) = []
  ∧ ∀ l, stored db' l ↔ stored db l ∨ l = (path, lineno, testname).
Proof.
  intros Hnone newf new db'. destruct Hwf as [Hp Hfi Hii Hik Hfs].
  assert (Hfresh : ∀ it, it ∈ test_item db → i_file_id it ≠ f_id newf).
  { intros it Hit Heq. rewrite Forall_forall in Hfs.
    specialize (Hfs it Hit). rewrite Heq in Hfs.
    by apply next_id_fresh in Hfs. }
  assert (Hno : filter (same_item (f_id newf) lineno testname) (test_item db)
                = []).
  { apply filter_none. intros it Hit (Hid & _). by apply (Hfresh it). }
  split_and!; [|done|].
  - constructor; simpl.
    + rewrite fmap_app. apply NoDup_app. split_and!; [done| |apply NoDup_singleton].
      intros x [g [-> Hg]]%list_elem_of_fmap [Hx|[]%elem_of_nil]%elem_of_cons.
      by apply (filter_nil_none _ _ g Hnone Hg).
    + rewrite fmap_app. apply NoDup_app. split_and!; [done| |apply NoDup_singleton].
      intros x Hx [->|[]%elem_of_nil]%elem_of_cons.
      by apply next_id_fresh in Hx.
    + rewrite fmap_app. apply NoDup_app. split_and!; [done| |apply NoDup_singleton].
      intros x Hx [->|[]%elem_of_nil]%elem_of_cons.
      by apply next_id_fresh in Hx.
    + rewrite fmap_app. apply NoDup_app. split_and!; [done| |apply NoDup_singleton].
      intros k [it [-> Hit]]%list_elem_of_fmap [Hk|[]%elem_of_nil]%elem_of_cons.
      apply (Hfresh it Hit). by injection Hk.
    + apply Forall_app. split.
      * eapply Forall_impl; [exact Hfs|]. intros it Hit. simpl in Hit.
        rewrite fmap_app. apply elem_of_app. by left.
      * constructor; [|constructor]. simpl. rewrite fmap_app.
        apply elem_of_app. right. left.
  - intros [[p ln] n]. rewrite !stored_iff. simpl. split.
    + intros (g & it & [Hg|[->|[]%elem_of_nil]%elem_of_cons]%elem_of_app
              & Hpg & [Hit|[->|[]%elem_of_nil]%elem_of_cons]%elem_of_app & Hs).
      * left. eauto 10.
      * exfalso. destruct Hs as (Hid & _). simpl in Hid.
        apply (next_id_fresh (f_id <$> test_file db)).
        unfold newf in Hid. simpl in Hid. rewrite Hid.
        by apply list_elem_of_fmap_2.
      * exfalso. destruct Hs as (Hid & _). by apply (Hfresh it).
      * right. destruct Hs as (_ & Hln & Hn). simpl in *. by subst.
    + intros [(g & it & Hg & Hpg & Hit & Hs)|[= -> -> ->]].
      * exists g, it. split_and!; try done; apply elem_of_app; by left.
      * exists newf, new. split_and!; try done; apply elem_of_app; right; left.
Qed.

Lemma wf_update_last_run iid last_run :
  let db' := mkDB (test_file db)
    ((λ it, if decide (i_id it = iid) then with_last_run last_run it else it)
       <$> test_item db) in
  wf db' ∧ ∀ l, stored db' l ↔ stored db l.
Proof.
  intros db'. destruct Hwf as [Hp Hfi Hii Hik Hfs].
  set (g := λ it, if decide (i_id it = iid)
                  then with_last_run last_run it else it).
  assert (Hid : ∀ it, i_id (g it) = i_id it)
    by (intros it; unfold g; by destruct (decide _)).
  assert (Hkey : ∀ it, item_key (g it) = item_key it)
    by (intros it; unfold g; by destruct (decide _)).
  split.
  - constructor; simpl; try done.
    + rewrite <- list_fmap_compose.
      rewrite (fmap_ext_in _ i_id); [done|]. intros x _. apply Hid.
    + rewrite <- list_fmap_compose.
      rewrite (fmap_ext_in _ item_key); [done|]. intros x _. apply Hkey.
    + apply Forall_fmap. eapply Forall_impl; [exact Hfs|].
      intros it Hit. simpl in *. by destruct (decide (i_id it = iid)).
  - intros [[p ln] n]. rewrite !stored_iff. simpl. fold g. split.
    + intros (f & it' & Hf & Hpf & [it [-> Hit]]%list_elem_of_fmap & Hs).
      exists f, it. split_and!; try done.
      apply same_item_key. rewrite <- Hkey. by apply same_item_key.
    + intros (f & it & Hf & Hpf & Hit & Hs).
      exists f, (g it). split_and!; try done.
      * by apply list_elem_of_fmap_2.
      * apply same_item_key. rewrite Hkey. by apply same_item_key.
Qed.

Lemma wf_delete_item f lineno testname :
  f ∈ test_file db →
  let db' := mkDB (test_file db)
    (filter (λ it, ¬ same_item (f_id f) lineno testname it) (test_item db)) in
  wf db'
  ∧ ∀ l, stored db' l ↔ stored db l ∧ l ≠ (f_path f, lineno, testname).
Proof.
  intros Hf db'. destruct Hwf as [Hp Hfi Hii Hik Hfs]. split.
  - constructor; simpl; try done.
    + by apply filter_NoDup_ids.
    + eapply sublist_NoDup; [exact Hik|]. apply fmap_sublist, sublist_filter.
    + apply Forall_forall. intros it [_ Hit]%list_elem_of_filter.
      rewrite Forall_forall in Hfs. by apply Hfs.
  - intros [[p ln] n]. rewrite !stored_iff. simpl. split.
    + intros (g & it & Hg & Hpg & [Hns Hit]%list_elem_of_filter & Hs).
      split; [eauto 10|]. intros [= -> -> ->].
      assert (g = f) as -> by (by apply (NoDup_ids_inj f_path (test_file db))).
      done.
    + intros [(g & it & Hg & Hpg & Hit & Hs) Hne].
      exists g, it. split_and!; try done.
      apply list_elem_of_filter. split; [|done].
      intros Hs'. apply Hne.
      destruct Hs as (Hid & Hl & Hn), Hs' as (Hid' & Hl' & Hn').
      rewrite Hid in Hid'.
      assert (g = f) as -> by (by apply (NoDup_ids_inj f_id (test_file db))).
      congruence.
Qed.

End table_changes.

(** ** What a method leaves alone *)

Lemma frame_refl s : frame s s.
Proof. by repeat split. Qed.

Lemma frame_trans s1 s2 s3 : frame s1 s2 → frame s2 s3 → frame s1 s3.
Proof. unfold frame. intros (?&?&?&?&?) (?&?&?&?&?). split_and!; congruence. Qed.

Lemma keeps_frame_ret {A} (a : A) : keeps_frame (ret a).
Proof. intros s r s' [= <- <-]. apply frame_refl. Qed.

Lemma keeps_frame_raise {A} e : keeps_frame (@raise A e).
Proof. intros s r s' [= <- <-]. apply frame_refl. Qed.

Lemma keeps_frame_lift {A} (x : Result A) : keeps_frame (lift x).
Proof. intros s r s' [= <- <-]. apply frame_refl. Qed.

Lemma keeps_frame_query {A} (q : DB → A) : keeps_frame (query q).
Proof. intros s r s' [= <- <-]. by repeat split. Qed.

Lemma keeps_frame_execute f : keeps_frame (execute f).
Proof. intros s r s' [= <- <-]. by repeat split. Qed.

Lemma keeps_frame_attach fid : keeps_frame (attach fid).
Proof. intros s r s' [= <- <-]. by repeat split. Qed.

Lemma keeps_frame_is_attached file : keeps_frame (is_attached file).
Proof. intros s r s' [= <- <-]. apply frame_refl. Qed.

Lemma keeps_frame_flush : keeps_frame flush.
Proof. apply keeps_frame_ret. Qed.

Lemma keeps_frame_ensure_session : keeps_frame _ensure_session.
Proof.
  intros s r s'. unfold _ensure_session.
  destruct (entered s); intros [= <- <-]; apply frame_refl.
Qed.

Lemma keeps_frame_bind {A B} (m : M A) (k : A → M B) :
  keeps_frame m → (∀ a, keeps_frame (k a)) → keeps_frame (bind m k).
Proof.
  intros Hm Hk s r s'. unfold bind.
  destruct (m s) as [[a|e] s1] eqn:Hms.
  - intros Hks. eapply frame_trans; [by eapply Hm|by eapply Hk].
  - intros [= <- <-]. by eapply Hm.
Qed.

Lemma keeps_frame_map_M {A B} (f : A → M B) (l : list A) :
  (∀ x, keeps_frame (f x)) → keeps_frame (map_M f l).
Proof.
  intros Hf. induction l as [|x l IH]; simpl.
  - apply keeps_frame_ret.
  - apply keeps_frame_bind; [done|]. intros y.
    apply keeps_frame_bind; [done|]. intros ys. apply keeps_frame_ret.
Qed.

Create HintDb frame discriminated.
#[global] Hint Resolve keeps_frame_ret keeps_frame_raise keeps_frame_lift
  keeps_frame_query keeps_frame_execute keeps_frame_attach
  keeps_frame_is_attached keeps_frame_flush keeps_frame_ensure_session
  keeps_frame_map_M : frame.

Ltac frame_step :=
  match goal with
  | |- keeps_frame (bind _ _) => apply keeps_frame_bind; [|intros ?]
  | |- keeps_frame (match ?x with _ => _ end) => destruct x
  | |- keeps_frame (let '(_, _) := ?x in _) => destruct x
  | |- keeps_frame _ => solve [auto with frame]
  end.

Ltac solve_frame := repeat frame_step.

Lemma keeps_frame_try_get_file path : keeps_frame (_try_get_file path).
Proof. unfold _try_get_file. solve_frame. Qed.

Lemma keeps_frame_insert_file path hash : keeps_frame (insert_file path hash).
Proof. unfold insert_file. solve_frame. Qed.

Lemma keeps_frame_insert_item fid lineno testname last_run :
  keeps_frame (insert_item fid lineno testname last_run).
Proof. unfold insert_item. solve_frame. Qed.

Lemma keeps_frame_try_get_item file lineno testname :
  keeps_frame (_try_get_item file lineno testname).
Proof. unfold _try_get_item. solve_frame. Qed.

Lemma keeps_frame_delete_items_where P `{∀ it, Decision (P it)} :
  keeps_frame (delete_items_where P).
Proof. unfold delete_items_where. solve_frame. Qed.

#[global] Hint Resolve keeps_frame_try_get_file keeps_frame_insert_file
  keeps_frame_insert_item keeps_frame_try_get_item
  keeps_frame_delete_items_where : frame.

Lemma keeps_frame_add_or_update last_run hash_provider location :
  keeps_frame (add_or_update last_run hash_provider location).
Proof.
  destruct location as [[file lineno] testname].
  unfold add_or_update, try_get_file, update_last_run. solve_frame.
Qed.

Lemma keeps_frame_try_delete_item location :
  keeps_frame (_try_delete_item location).
Proof.
  destruct location as [[file lineno] testname].
  unfold _try_delete_item. solve_frame.
Qed.

Lemma keeps_frame_prune_files : keeps_frame _prune_files.
Proof. unfold _prune_files. solve_frame. Qed.

#[global] Hint Resolve keeps_frame_add_or_update keeps_frame_try_delete_item
  keeps_frame_prune_files : frame.

(** ** The bulk update *)

Lemma length_filter_split {A} (P : A → Prop) `{∀ x, Decision (P x)} l :
  length l = (length (filter P l) + length (filter (λ x, ¬ P x) l))%nat.
Proof.
  rewrite <- length_app. apply Permutation_length.
  symmetry. apply filter_app_complement.
Qed.

Lemma filter_ext_in {A} (P Q : A → Prop) `{∀ x, Decision (P x)}
    `{∀ x, Decision (Q x)} (l : list A) :
  (∀ x, x ∈ l → P x ↔ Q x) → filter P l = filter Q l.
Proof.
  induction l as [|x l IH]; intros Hext; [done|].
  rewrite !filter_cons.
  rewrite IH by (intros y Hy; apply Hext; by right).
  destruct (decide (P x)) as [HP|HP], (decide (Q x)) as [HQ|HQ]; try done.
  - exfalso. apply HQ, (Hext x); [left|done].
  - exfalso. apply HP, (Hext x); [left|done].
Qed.

Lemma add_or_update_spec last_run hash_provider loc s :
  entered s = true →
  wf (working s) →
  provider_returns hash_provider →
  ∃ s',
    add_or_update last_run hash_provider loc s
      = (Ok (bool_decide (stored (working s) loc)), s')
    ∧ wf (working s')
    ∧ (∀ l, stored (working s') l ↔ stored (working s) l ∨ l = loc)
    ∧ length (test_item (working s'))
        = (length (test_item (working s))
           + if bool_decide (stored (working s) loc) then 0 else 1)%nat.
Proof.
  intros Hent Hwf Hhp. destruct loc as [[path lineno] testname].
  pose proof (wf_one_file _ path Hwf) as Hone.
  unfold add_or_update, try_get_file, _try_get_file, insert_file, insert_item,
    _try_get_item, update_last_run, scalar_one_or_none.
  destruct (filter (λ f, f_path f = path) (test_file (working s)))
    as [|f [|f2 fs]] eqn:Hfs; [| |simpl in Hone; lia].
  - (* a new file *)
    assert (Hns : ¬ stored (working s) (path, lineno, testname)).
    { rewrite stored_iff. intros (g & it & Hg & Hp & _).
      by apply (filter_nil_none _ _ g Hfs Hg). }
    assert (∃ hash, match hash_provider with
                    | Some hp => h <- lift (hp (mkTestFile 0 path None)) ;;
                                 ret (Some h)
                    | None => ret None
                    end = ret hash) as [hash Hhash].
    { destruct hash_provider as [hp|]; [|by eexists].
      destruct (Hhp hp eq_refl (mkTestFile 0 path None)) as [h Hh].
      exists (Some h). by rewrite Hh. }
    rewrite Hhash. clear Hhash.
    destruct (wf_insert_file_item _ Hwf path hash lineno testname last_run Hfs)
      as (Hwf' & Hnone & Hst).
    munfold. rewrite Hent. simpl. rewrite Hfs. simpl.
    rewrite bool_decide_false.
    2:{ intros [g [Hp Hg]]%list_elem_of_fmap.
        by apply (filter_nil_none _ _ g Hfs Hg). }
    simpl. rewrite bool_decide_false.
    2:{ intros [_ (it & Hit & Hs)%Exists_exists].
        by apply (filter_nil_none _ _ it Hnone Hit). }
    simpl. rewrite (bool_decide_false _ Hns).
    eexists. split; [reflexivity|]. simpl. split_and!; [done..|].
    rewrite length_app. simpl. lia.
  - (* a known file *)
    apply filter_singleton_elem in Hfs as Hf. destruct Hf as [Hf Hpath].
    pose proof (wf_one_item _ (f_id f) lineno testname Hwf) as Hone'.
    munfold. rewrite Hent. simpl. rewrite Hfs. simpl.
    rewrite bool_decide_true by left. simpl.
    destruct (filter (same_item (f_id f) lineno testname)
                     (test_item (working s))) as [|it [|it2 its]] eqn:Hits;
      [| |simpl in Hone'; lia].
    + (* a new item *)
      assert (Hns : ¬ stored (working s) (path, lineno, testname)).
      { rewrite stored_iff. intros (g & it & Hg & Hp & Hit & Hs).
        assert (g = f) as ->.
        { apply (NoDup_ids_inj f_path (test_file (working s))); try done.
          - apply Hwf.
          - congruence. }
        by apply (filter_nil_none _ _ it Hits Hit). }
      destruct (wf_insert_item _ Hwf f lineno testname last_run Hf Hits)
        as (Hwf' & Hst).
      simpl. rewrite bool_decide_false.
      2:{ intros [_ (it & Hit & Hs)%Exists_exists].
          by apply (filter_nil_none _ _ it Hits Hit). }
      simpl. rewrite (bool_decide_false _ Hns).
      eexists. split; [reflexivity|]. simpl. rewrite <- Hpath.
      split_and!; [done..|]. rewrite length_app. simpl. lia.
    + (* a known item *)
      apply filter_singleton_elem in Hits as Hit. destruct Hit as [Hit Hsame].
      assert (Hs : stored (working s) (path, lineno, testname)).
      { rewrite stored_iff. eauto 10. }
      destruct (wf_update_last_run _ Hwf (i_id it) last_run) as (Hwf' & Hst).
      simpl. rewrite (bool_decide_true _ Hs).
      eexists. split; [reflexivity|]. simpl. split_and!; [done| |].
      * intros l. rewrite Hst. split; [tauto|]. by intros [?| ->].
      * rewrite length_fmap. lia.
Qed.

Lemma _try_delete_item_spec loc s :
  wf (working s) →
  ∃ s',
    _try_delete_item loc s = (Ok (bool_decide (stored (working s) loc)), s')
    ∧ wf (working s')
    ∧ (∀ l, stored (working s') l ↔ stored (working s) l ∧ l ≠ loc)
    ∧ length (test_item (working s))
        = (length (test_item (working s'))
           + if bool_decide (stored (working s) loc) then 1 else 0)%nat.
Proof.
  intros Hwf. destruct loc as [[path lineno] testname].
  pose proof (wf_one_file _ path Hwf) as Hone.
  unfold _try_delete_item, _try_get_file, delete_items_where,
    scalar_one_or_none.
  destruct (filter (λ f, f_path f = path) (test_file (working s)))
    as [|f [|f2 fs]] eqn:Hfs; [| |simpl in Hone; lia].
  - assert (Hns : ¬ stored (working s) (path, lineno, testname)).
    { rewrite stored_iff. intros (g & it & Hg & Hp & _).
      by apply (filter_nil_none _ _ g Hfs Hg). }
    munfold. simpl. rewrite Hfs. simpl. rewrite (bool_decide_false _ Hns).
    eexists. split; [reflexivity|]. simpl. split_and!; [done| |lia].
    intros l. split; [|tauto]. intros Hl. split; [done|]. by intros ->.
  - apply filter_singleton_elem in Hfs as Hf. destruct Hf as [Hf Hpath].
    pose proof (wf_one_item _ (f_id f) lineno testname Hwf) as Hone'.
    destruct (wf_delete_item _ Hwf f lineno testname Hf) as (Hwf' & Hst).
    pose proof (length_filter_split (same_item (f_id f) lineno testname)
                  (test_item (working s))) as Hlen.
    munfold. simpl. rewrite Hfs. simpl.
    destruct (filter (same_item (f_id f) lineno testname)
                     (test_item (working s))) as [|it [|it2 its]] eqn:Hits;
      [| |simpl in Hone'; lia].
    + assert (Hns : ¬ stored (working s) (path, lineno, testname)).
      { rewrite stored_iff. intros (g & it & Hg & Hp & Hit & Hs).
        assert (g = f) as ->.
        { apply (NoDup_ids_inj f_path (test_file (working s))); try done.
          - apply Hwf.
          - congruence. }
        by apply (filter_nil_none _ _ it Hits Hit). }
      simpl. rewrite (bool_decide_false _ Hns).
      eexists. split; [reflexivity|]. simpl. rewrite <- Hpath.
      split_and!; [done..|]. simpl in Hlen. lia.
    + apply filter_singleton_elem in Hits as Hit. destruct Hit as [Hit Hsame].
      assert (Hs : stored (working s) (path, lineno, testname)).
      { rewrite stored_iff. eauto 10. }
      simpl. rewrite (bool_decide_true _ Hs).
      eexists. split; [reflexivity|]. simpl. rewrite <- Hpath.
      split_and!; [done..|]. simpl in Hlen. lia.
Qed.

Lemma count_truefalse_from_filter {A} (P : A → Prop) `{∀ x, Decision (P x)}
    (l : list A) (t f : Z) :
  count_truefalse_from t f ((λ x, bool_decide (P x)) <$> l)
  = (t + Z.of_nat (length (filter P l)),
     f + Z.of_nat (length (filter (λ x, ¬ P x) l))).
Proof.
  revert t f. induction l as [|x l IH]; intros t f.
  - simpl. f_equal; lia.
  - rewrite fmap_cons. cbn [count_truefalse_from]. rewrite !filter_cons.
    destruct (decide (P x)) as [HP|HP].
    + rewrite (bool_decide_true _ HP), IH.
      rewrite decide_False by tauto. cbn [length]. f_equal; lia.
    + rewrite (bool_decide_false _ HP), IH.
      rewrite decide_True by done. cbn [length]. f_equal; lia.
Qed.

Lemma sum_bools_filter {A} (P : A → Prop) `{∀ x, Decision (P x)} (l : list A) :
  sum_bools ((λ x, bool_decide (P x)) <$> l) = Z.of_nat (length (filter P l)).
Proof.
  unfold sum_bools.
  assert (Hgen : ∀ acc,
    foldl (λ acc (b : bool), acc + (if b then 1 else 0)) acc
          ((λ x, bool_decide (P x)) <$> l)
    = acc + Z.of_nat (length (filter P l))).
  { induction l as [|x l IH]; intros acc; [simpl; lia|].
    rewrite fmap_cons. cbn [foldl]. rewrite IH, filter_cons.
    destruct (decide (P x)) as [HP|HP].
    - rewrite (bool_decide_true _ HP). cbn [length]. lia.
    - rewrite (bool_decide_false _ HP). lia. }
  rewrite Hgen. lia.
Qed.

Lemma map_M_add_or_update_spec last_run hash_provider :
  provider_returns hash_provider →
  ∀ l s,
    entered s = true → wf (working s) → NoDup l →
    ∃ s',
      map_M (add_or_update last_run hash_provider) l s
        = (Ok ((λ x, bool_decide (stored (working s) x)) <$> l), s')
      ∧ wf (working s')
      ∧ (∀ x, stored (working s') x ↔ stored (working s) x ∨ x ∈ l)
      ∧ length (test_item (working s'))
          = (length (test_item (working s))
             + length (filter (λ x, ¬ stored (working s) x) l))%nat.
Proof.
  intros Hhp. induction l as [|a l IH]; intros s Hent Hwf Hnd.
  - exists s. simpl. split_and!; [done..| |lia].
    intros x. split; [tauto|]. by intros [?|?%elem_of_nil].
  - apply NoDup_cons in Hnd as [Ha Hnd].
    destruct (add_or_update_spec last_run hash_provider a s Hent Hwf Hhp)
      as (s1 & Hrun1 & Hwf1 & Hst1 & Hlen1).
    assert (Hent1 : entered s1 = true).
    { destruct (keeps_frame_add_or_update _ _ _ _ _ _ Hrun1) as [-> _]. done. }
    destruct (IH s1 Hent1 Hwf1 Hnd) as (s' & Hrun & Hwf' & Hst & Hlen).
    assert (Hsame : ∀ x, x ∈ l →
              stored (working s1) x ↔ stored (working s) x).
    { intros x Hx. rewrite Hst1. split; [|tauto].
      intros [?| ->]; [done|]. by destruct Ha. }
    exists s'. cbn [map_M]. unfold bind at 1. rewrite Hrun1.
    unfold bind at 1. rewrite Hrun. unfold ret. split_and!.
    + rewrite fmap_cons. do 3 f_equal. apply fmap_ext_in.
      intros x Hx. apply bool_decide_ext. by apply Hsame.
    + done.
    + intros x. rewrite Hst, Hst1, elem_of_cons. tauto.
    + rewrite Hlen, Hlen1, filter_cons.
      rewrite (filter_ext_in (λ x, ¬ stored (working s1) x)
                 (λ x, ¬ stored (working s) x) l)
        by (intros x Hx; by rewrite (Hsame x Hx)).
      destruct (decide (stored (working s) a)) as [Hs|Hs].
      * rewrite (bool_decide_true _ Hs), decide_False by tauto. lia.
      * rewrite (bool_decide_false _ Hs), decide_True by done.
        cbn [length]. lia.
Qed.

Lemma map_M_try_delete_item_spec :
  ∀ l s,
    wf (working s) → NoDup l →
    ∃ s',
      map_M _try_delete_item l s
        = (Ok ((λ x, bool_decide (stored (working s) x)) <$> l), s')
      ∧ wf (working s')
      ∧ (∀ x, stored (working s') x ↔ stored (working s) x ∧ x ∉ l)
      ∧ length (test_item (working s))
          = (length (test_item (working s'))
             + length (filter (stored (working s)) l))%nat.
Proof.
  induction l as [|a l IH]; intros s Hwf Hnd.
  - exists s. simpl. split_and!; [done..| |lia].
    intros x. split; [|tauto]. intros Hx. split; [done|]. by intros ?%elem_of_nil.
  - apply NoDup_cons in Hnd as [Ha Hnd].
    destruct (_try_delete_item_spec a s Hwf)
      as (s1 & Hrun1 & Hwf1 & Hst1 & Hlen1).
    destruct (IH s1 Hwf1 Hnd) as (s' & Hrun & Hwf' & Hst & Hlen).
    assert (Hsame : ∀ x, x ∈ l →
              stored (working s1) x ↔ stored (working s) x).
    { intros x Hx. rewrite Hst1. split; [tauto|].
      intros Hs. split; [done|]. intros ->. by destruct Ha. }
    exists s'. cbn [map_M]. unfold bind at 1. rewrite Hrun1.
    unfold bind at 1. rewrite Hrun. unfold ret. split_and!.
    + rewrite fmap_cons. do 3 f_equal. apply fmap_ext_in.
      intros x Hx. apply bool_decide_ext. by apply Hsame.
    + done.
    + intros x. rewrite Hst, Hst1, not_elem_of_cons. tauto.
    + rewrite Hlen1, Hlen, filter_cons.
      rewrite (filter_ext_in (stored (working s1)) (stored (working s)) l)
        by done.
      destruct (decide (stored (working s) a)) as [Hs|Hs].
      * rewrite (bool_decide_true _ Hs). cbn [length]. lia.
      * rewrite (bool_decide_false _ Hs). lia.
Qed.

(** *** Failures *)

Lemma keeps_frame_fails {A} (m : M A) : keeps_frame m → fails_in_frame m.
Proof. intros Hm s e s'. apply Hm. Qed.

Lemma fails_in_frame_bind {A B} (m : M A) (k : A → M B) :
  keeps_frame m → (∀ a, fails_in_frame (k a)) → fails_in_frame (bind m k).
Proof.
  intros Hm Hk s e s'. unfold bind.
  destruct (m s) as [[a|e'] s1] eqn:Hms.
  - intros Hks. eapply frame_trans; [by eapply Hm|by eapply Hk].
  - intros [= <- <-]. by eapply Hm.
Qed.

Lemma fails_in_frame_commit_ret {A} (a : A) :
  fails_in_frame (commit ;;; ret a).
Proof. intros s e s'. unfold bind, commit, ret. discriminate. Qed.

Lemma begin_nested_fails {A} (body : M A) s e s' :
  fails_in_frame body →
  begin_nested body s = (Raise e, s') →
  working s' = working s ∧ attached s' = attached s
  ∧ savepoints s' = savepoints s ∧ frame s s'.
Proof.
  intros Hbody. unfold begin_nested.
  destruct (body (push_savepoint s)) as [[a|e'] s2] eqn:Hrun; [discriminate|].
  intros [= <- <-]. apply Hbody in Hrun as (He & Hd & Hp & Hsp & Hdis).
  unfold rollback_savepoint. rewrite Hsp. simpl.
  unfold frame. simpl. by split_and!.
Qed.

(** *** The hash of a file *)

(** C3. [invalidate_hash file h] on a file that belongs to the open session
    and owns N items returns N; afterwards the file's row carries the hash
    [h], no item of the file is left and every other item is untouched.
    Both changes reach the database file in one commit, the only one made,
    so no committed state has one change without the other. The method
    raises only [InactiveSessionError], before it has opened its SAVEPOINT
    and with nothing changed; and had the statement after the hash update
    raised, the rollback to the SAVEPOINT would have undone the update. For
    a [TestFile] that does not belong to the session the claim fails: no
    [DetachedInstanceError] is raised, the items are deleted and the stored
    hash stays as it was. *)
Theorem invalidate_hash_atomic (s : State) (file : TestFile) (h : bytes) :
  entered s = true →
  f_id file ∈ attached s →
  file ∈ test_file (working s) →
  (∃ s',
     invalidate_hash file h s
       = (Ok (Z.of_nat (length (owned (f_id file) (working s)))), s')
     ∧ with_last_hash (Some h) file ∈ test_file (working s')
     ∧ (∀ f, f ∈ test_file (working s') → f_id f = f_id file →
             f_last_hash f = Some h)
     ∧ owned (f_id file) (working s') = []
     ∧ test_item (working s')
         = filter (λ it, i_file_id it ≠ f_id file) (test_item (working s))
     ∧ durable s' = working s'
     ∧ past s' = durable s :: past s)
  ∧ (∀ s0 e s1,
       invalidate_hash file h s0 = (Raise e, s1) →
       e = InactiveSessionError ∧ entered s0 = false ∧ s1 = s0)
  ∧ (∀ (fault : M Z) s0 e s1,
       fails_in_frame fault →
       begin_nested (update_last_hash (f_id file) h ;;; flush ;;; fault) s0
         = (Raise e, s1) →
       working s1 = working s0 ∧ durable s1 = durable s0 ∧ past s1 = past s0).
Proof.
  intros Hent Hatt Hin. split_and!.
  - unfold invalidate_hash, update_last_hash, delete_items_where. munfold.
    rewrite Hent. simpl. rewrite bool_decide_true by done. simpl.
    eexists. split; [reflexivity|]. simpl.
    repeat split.
    + by apply update_hash_elem.
    + intros f. apply update_hash_all.
    + unfold owned. simpl. apply elem_of_nil_inv.
      intros it [Hown [Hne _]%list_elem_of_filter]%list_elem_of_filter.
      exact (Hne Hown).
  - intros s0 e s1. unfold invalidate_hash, update_last_hash,
      delete_items_where. munfold.
    destruct (entered s0); simpl; [|by intros [= <- <-]].
    by case_bool_decide.
  - intros fault s0 e s1 Hfault Hrun.
    apply begin_nested_fails in Hrun as (Hw & _ & _ & (_ & Hd & Hp & _));
      [done|].
    unfold update_last_hash.
    apply fails_in_frame_bind; [apply keeps_frame_execute|]. intros _.
    apply fails_in_frame_bind; [apply keeps_frame_flush|]. by intros _.
Qed.

Lemma invalidate_hash_atomic_witness :
  ∃ s', invalidate_hash (mkTestFile 1 "abc" (Some "123")) "0123" sample_state
        = (Ok 2, s')
        ∧ owned 1 (working s') = [].
Proof.
  destruct (invalidate_hash_atomic sample_state
              (mkTestFile 1 "abc" (Some "123")) "0123")
    as [(s' & H & _ & _ & Ho & _) _].
  - reflexivity.
  - set_solver.
  - set_solver.
  - exists s'. split; [exact H | exact Ho].
Defined.

(** A file object that was loaded in an earlier session, handed to a new
    session over the populated store: the call returns 2 without raising,
    the two items of the file are deleted and the deletion is committed,
    while the row of the file still carries the old hash. *)
Lemma invalidate_hash_detached_counterexample :
  ∃ s',
    (new_session ;;; __enter__ ;;;
     invalidate_hash (mkTestFile 1 "abc" (Some "123")) "0123")
      (fresh_state sample_db)
    = (Ok 2, s')
    ∧ owned 1 (durable s') = []
    ∧ mkTestFile 1 "abc" (Some "123") ∈ test_file (durable s')
    ∧ Some "123" ≠ Some "0123".
Proof.
  eexists. split; [reflexivity|]. simpl. split_and!; [done| |done].
  unfold sample_db. simpl. left.
Qed.

(** *** The bulk update as a whole *)

Lemma bulk_add_update_remove_fails last_run add_update try_delete
    hash_provider prune s e s' :
  bulk_add_update_remove last_run add_update try_delete hash_provider prune s
    = (Raise e, s') →
  working s' = working s ∧ durable s' = durable s ∧ past s' = past s.
Proof.
  unfold bulk_add_update_remove. unfold bind at 1. unfold _ensure_session.
  destruct (entered s); [|by intros [= <- <-]].
  unfold bind at 1.
  match goal with
  | |- context [begin_nested ?b s] =>
      destruct (begin_nested b s) as [[res|e'] s1] eqn:Hrun
  end.
  - destruct res as [[[? ?] ?] ?]. discriminate.
  - intros [= <- <-].
    apply begin_nested_fails in Hrun as (Hw & _ & _ & (_ & Hd & Hp & _)).
    + done.
    + apply fails_in_frame_bind; [auto with frame|]. intros results.
      destruct (count_truefalse results) as [upd add].
      apply fails_in_frame_bind; [auto with frame|]. intros _.
      apply fails_in_frame_bind; [auto with frame|]. intros deleted.
      apply fails_in_frame_bind.
      * destruct prune; solve_frame.
      * intros pruned. apply fails_in_frame_commit_ret.
Qed.

(** The counters of a bulk update on a well-formed store, the number of
    items afterwards and the one commit. *)
Lemma bulk_add_update_remove_run (s : State) (last_run : Z)
    (add_update try_delete : list Location)
    (hash_provider : option TestFileHashProvider) (prune : bool) :
  entered s = true →
  wf (working s) →
  NoDup add_update →
  NoDup try_delete →
  provider_returns hash_provider →
  ∃ res s',
     bulk_add_update_remove last_run add_update try_delete hash_provider
                            prune s = (Ok res, s')
     ∧ updated res
         = Z.of_nat (length (filter (stored (working s)) add_update))
     ∧ added res
         = Z.of_nat (length add_update)
           - Z.of_nat (length (filter (stored (working s)) add_update))
     ∧ removed res
         = Z.of_nat (length (filter
                       (λ l, stored (working s) l ∨ l ∈ add_update)
                       try_delete))
     ∧ ((∀ l, l ∈ add_update → l ∉ try_delete) →
        removed res
          = Z.of_nat (length (filter (stored (working s)) try_delete)))
     ∧ (is_Some (pruned_files res) ↔ prune = true)
     ∧ Z.of_nat (length (test_item (working s')))
         = Z.of_nat (length (test_item (working s)))
           + added res - removed res
     ∧ durable s' = working s'
     ∧ past s' = durable s :: past s.
Proof.
  intros Hent Hwf Hnd1 Hnd2 Hhp.
  destruct (map_M_add_or_update_spec last_run hash_provider Hhp add_update
              (push_savepoint s) Hent Hwf Hnd1)
    as (s1 & Hrun1 & Hwf1 & Hst1 & Hlen1).
  destruct (map_M_try_delete_item_spec try_delete s1 Hwf1 Hnd2)
    as (s2 & Hrun2 & Hwf2 & Hst2 & Hlen2).
  assert (Hfr : frame (push_savepoint s) s2).
  { eapply frame_trans; [eapply keeps_frame_map_M; [|exact Hrun1]
                        |eapply keeps_frame_map_M; [|exact Hrun2]];
      auto with frame. }
  destruct Hfr as (Hent2 & Hd2 & Hp2 & _ & _).
  change (working (push_savepoint s)) with (working s) in *.
  assert (Hpr : ∃ pruned s3,
    (if prune then flush ;;; n <- _prune_files ;; ret (Some n)
     else ret None) s2 = (Ok pruned, s3)
    ∧ (is_Some pruned ↔ prune = true)
    ∧ test_item (working s3) = test_item (working s2)
    ∧ durable s3 = durable s2 ∧ past s3 = past s2).
  { destruct prune.
    - unfold _prune_files. munfold. simpl. eexists _, _.
      split; [reflexivity|]. by split_and!.
    - eexists _, _. split; [reflexivity|]. by split_and!. }
  destruct Hpr as (pruned & s3 & Hrun3 & Hsome & Hitems3 & Hd3 & Hp3).
  unfold bulk_add_update_remove. unfold bind at 1. unfold _ensure_session.
  rewrite Hent. unfold bind at 1. unfold begin_nested.
  unfold bind at 1. rewrite Hrun1.
  unfold count_truefalse. rewrite count_truefalse_from_filter.
  unfold bind at 1. unfold flush at 1, ret at 1.
  unfold bind at 1. rewrite Hrun2.
  unfold bind at 1. rewrite Hrun3.
  unfold bind, commit, ret. cbn [release_savepoint fst snd].
  eexists _, _. split; [reflexivity|]. cbn.
  rewrite sum_bools_filter.
  rewrite (filter_ext_in (stored (working s1))
             (λ l, stored (working s) l ∨ l ∈ add_update) try_delete)
    by (intros x _; apply Hst1).
  assert (Hsplit := length_filter_split (stored (working s)) add_update).
  assert (Hlen3 : length (test_item (working s3))
                  = length (test_item (working s2))) by (by rewrite Hitems3).
  rewrite (filter_ext_in (stored (working s1))
             (λ l, stored (working s) l ∨ l ∈ add_update) try_delete)
    in Hlen2 by (intros x _; apply Hst1).
  split_and!; try done.
  - lia.
  - intros Hdisj. do 2 f_equal. apply filter_ext_in.
    intros x Hx. split; [|tauto]. intros [?|Hin]; [done|].
    by destruct (Hdisj x Hin).
  - lia.
  - by rewrite Hd3, Hd2, Hp3, Hp2.
Qed.

Lemma sample_db_wf : wf sample_db.
Proof. constructor; compute_done. Qed.

(** ** The end of a lazy run *)

Lemma size_list_to_set_le (l : list Location) :
  (size (list_to_set l : gset Location) ≤ length l)%nat.
Proof.
  induction l as [|x l IH].
  - by rewrite list_to_set_nil, size_empty.
  - rewrite list_to_set_cons, size_union_alt, size_singleton. cbn [length].
    pose proof (subseteq_size (list_to_set l ∖ {[x]}) (list_to_set l : gset Location)) as Hle.
    assert ((list_to_set l ∖ {[x]} : gset Location) ⊆ list_to_set l) as Hsub
      by (intros y [Hy _]%elem_of_difference; exact Hy).
    specialize (Hle Hsub). lia.
Qed.

Lemma _process_result_recorded self state loc :
  let self' := _process_result self state loc in
  _passed_tests self'
    = _passed_tests self
      ++ (if decide (_decide_result state = WRITE) then [loc] else [])
  ∧ _failed_tests self'
    = _failed_tests self
      ++ (if decide (_decide_result state = DROP) then [loc] else [])
  ∧ _num_tests self' = _num_tests self
  ∧ _engine self' = _engine self
  ∧ _reset_on_saturation self' = _reset_on_saturation self
  ∧ _no_pruning self' = _no_pruning self
  ∧ _hash_testfiles self' = _hash_testfiles self
  ∧ _hash_file self' = _hash_file self.
Proof.
  unfold _process_result.
  destruct (_decide_result state); simpl; by rewrite ?app_nil_r.
Qed.

Lemma process_results_recorded reports : ∀ self,
  let self' := process_results self reports in
  (∀ l, l ∈ _passed_tests self' ↔
        l ∈ _passed_tests self
        ∨ ∃ st, (st, l) ∈ reports ∧ _decide_result st = WRITE)
  ∧ (∀ l, l ∈ _failed_tests self' ↔
          l ∈ _failed_tests self
          ∨ ∃ st, (st, l) ∈ reports ∧ _decide_result st = DROP)
  ∧ _num_tests self' = _num_tests self
  ∧ _engine self' = _engine self
  ∧ _reset_on_saturation self' = _reset_on_saturation self
  ∧ _no_pruning self' = _no_pruning self
  ∧ _hash_testfiles self' = _hash_testfiles self
  ∧ _hash_file self' = _hash_file self.
Proof.
  induction reports as [|[st loc] reports IH]; intros self.
  - simpl. split_and!; try done; intros l; split; try tauto;
      intros [?|(? & []%elem_of_nil & _)]; done.
  - cbn [process_results foldl]. simpl.
    specialize (IH (_process_result self st loc)).
    destruct (_process_result_recorded self st loc)
      as (Hp & Hf & Hn & He & Hr & Hnp & Hh & Hhf).
    unfold process_results in IH. cbv zeta in IH.
    destruct IH as (IHp & IHf & -> & -> & -> & -> & -> & ->).
    split_and!; try done.
    + intros l. rewrite IHp, Hp, elem_of_app. split.
      * intros [[?|Hl]|(st' & Hin & Hw)].
        -- by left.
        -- right. destruct (decide (_decide_result st = WRITE)) as [Hw|];
             [|by apply elem_of_nil in Hl].
           apply list_elem_of_singleton in Hl as ->. exists st. split; [left|done].
        -- right. exists st'. split; [by right|done].
      * intros [?|(st' & [[= -> ->]|Hin]%elem_of_cons & Hw)].
        -- by left; left.
        -- left; right. rewrite decide_True by done. left.
        -- right. eauto.
    + intros l. rewrite IHf, Hf, elem_of_app. split.
      * intros [[?|Hl]|(st' & Hin & Hw)].
        -- by left.
        -- right. destruct (decide (_decide_result st = DROP)) as [Hw|];
             [|by apply elem_of_nil in Hl].
           apply list_elem_of_singleton in Hl as ->. exists st. split; [left|done].
        -- right. exists st'. split; [by right|done].
      * intros [?|(st' & [[= -> ->]|Hin]%elem_of_cons & Hw)].
        -- by left; left.
        -- left; right. rewrite decide_True by done. left.
        -- right. eauto.
Qed.

(** C4. Take a lazy run whose results all belong to collected items, with
    the engine and the number of collected items set by the collection
    hook, and which ends with a regular exit status. When some location was
    recorded as passed and as failed, it is not among the locations to add
    or update, it is among those to delete, the two sets are disjoint, and
    [_sessionfinish] is one session with one call of
    [bulk_add_update_remove]: on the passed locations without the failed
    ones, on the failed ones, and with pruning unless [_no_pruning] is
    set. *)
Theorem lazy_sessionfinish_failed_wins (self0 : StatefulSamplesBroker)
    (reports : list (string * Location)) (collected : list Location)
    (exitstatus now : Z) (loc : Location) (st_passed st_failed : string) :
  _is_error_exitstatus exitstatus = false →
  _passed_tests self0 = [] →
  _failed_tests self0 = [] →
  _engine self0 = true →
  _num_tests self0 = Some (Z.of_nat (length collected)) →
  (∀ st l, (st, l) ∈ reports → l ∈ collected) →
  (st_passed, loc) ∈ reports → _decide_result st_passed = WRITE →
  (st_failed, loc) ∈ reports → _decide_result st_failed = DROP →
  let self := process_results self0 reports in
  let passed : gset Location := list_to_set (_passed_tests self) in
  let failed : gset Location := list_to_set (_failed_tests self) in
  loc ∈ passed
  ∧ (loc ∉ passed ∖ failed)
  ∧ loc ∈ failed
  ∧ (passed ∖ failed) ## failed
  ∧ _sessionfinish self exitstatus now
    = (with_new_session
         (bulk_add_update_remove now (elements (passed ∖ failed))
            (elements failed)
            (if _hash_testfiles self0
             then Some (λ test_file, _hash_file self0 (f_path test_file))
             else None)
            (negb (_no_pruning self0))) ;;;
       ret tt).
Proof.
  intros Hexit Hp0 Hf0 Heng Hnum Hcoll Hinp Hwp Hinf Hwf self passed failed.
  destruct (process_results_recorded reports self0)
    as (Hp & Hf & Hn & He & Hr & Hnp & Hh & Hhf).
  fold self in Hp, Hf, Hn, He, Hr, Hnp, Hh, Hhf.
  assert (Hlp : loc ∈ passed).
  { apply elem_of_list_to_set, Hp. right. eauto. }
  assert (Hlf : loc ∈ failed).
  { apply elem_of_list_to_set, Hf. right. eauto. }
  assert (Hsub : passed ∖ failed ⊆ list_to_set collected ∖ {[loc]}).
  { intros l [Hl Hnl]%elem_of_difference. apply elem_of_difference. split.
    - apply elem_of_list_to_set. apply elem_of_list_to_set, Hp in Hl.
      destruct Hl as [Hl|(st & Hin & _)]; [by rewrite Hp0 in Hl; apply elem_of_nil in Hl|].
      by eapply Hcoll.
    - intros ->%elem_of_singleton. done. }
  assert (Hsize : (size (passed ∖ failed) < length collected)%nat).
  { apply subseteq_size in Hsub.
    assert (Hloc : loc ∈ (list_to_set collected : gset Location)).
    { apply elem_of_list_to_set. by eapply Hcoll. }
    rewrite (size_difference (list_to_set collected) {[loc]}) in Hsub
      by (by intros l ->%elem_of_singleton).
    rewrite size_singleton in Hsub.
    pose proof (size_list_to_set_le collected).
    assert (size (list_to_set collected : gset Location) ≠ 0%nat).
    { intros Hz%size_empty_inv. apply (not_elem_of_empty (C:=gset Location) loc).
      by rewrite <- Hz. }
    lia. }
  split_and!; [done| |done| |].
  { intros [_ Hnot]%elem_of_difference. by apply Hnot. }
  { intros l [_ Hnot]%elem_of_difference Hl. by apply Hnot. }
  unfold _sessionfinish. rewrite Hexit, Hn, Hnum, He, Heng. simpl.
  fold passed failed.
  rewrite bool_decide_false by lia. simpl.
  by rewrite Hh, Hhf, Hnp.
Qed.

Lemma lazy_sessionfinish_failed_wins_witness :
  let self0 := mkStatefulSamplesBroker false false false false true (Some 2)
                 false [] [] id (λ _, Raise OSError) in
  let reports := [("passed", ("a.py", Some 1, "t1"));
                  ("passed", ("a.py", Some 5, "t2"));
                  ("error", ("a.py", Some 1, "t1"))] in
  let self := process_results self0 reports in
  let passed : gset Location := list_to_set (_passed_tests self) in
  let failed : gset Location := list_to_set (_failed_tests self) in
  ("a.py", Some 1, "t1") ∈ passed
  ∧ (("a.py", Some 1, "t1") ∉ passed ∖ failed)
  ∧ _sessionfinish self 1 100
    = (with_new_session
         (bulk_add_update_remove 100 (elements (passed ∖ failed))
            (elements failed) None true) ;;;
       ret tt).
Proof.
  intros self0 reports self passed failed.
  destruct (lazy_sessionfinish_failed_wins self0 reports
              [("a.py", Some 1, "t1"); ("a.py", Some 5, "t2")] 1 100
              ("a.py", Some 1, "t1") "passed" "error")
    as (Hp & Hnp & _ & _ & Hrun); try reflexivity.
  - intros st l Hin.
    assert (Hall : Forall (λ r : string * Location,
                     r.2 ∈ [("a.py", Some 1, "t1"); ("a.py", Some 5, "t2")])
                   reports) by (repeat constructor; compute_done).
    rewrite Forall_forall in Hall. exact (Hall (st, l) Hin).
  - compute_done.
  - compute_done.
  - split_and!; [exact Hp|exact Hnp|exact Hrun].
Defined.

(** ** The collection hook *)

Lemma keeps_frame_entered {A} (m : M A) : keeps_frame m → keeps_entered m.
Proof. intros Hm s r s' Hrun. by destruct (Hm s r s' Hrun) as [-> _]. Qed.

Lemma keeps_entered_bind {A B} (m : M A) (k : A → M B) :
  keeps_entered m → (∀ a, keeps_entered (k a)) → keeps_entered (bind m k).
Proof.
  intros Hm Hk s r s'. unfold bind.
  destruct (m s) as [[a|e] s1] eqn:Hms.
  - intros Hks. rewrite (Hk _ _ _ _ Hks). by eapply Hm.
  - intros [= <- <-]. by eapply Hm.
Qed.

Lemma keeps_entered_commit : keeps_entered commit.
Proof. by intros s r s' [= <- <-]. Qed.

Lemma keeps_entered_begin_nested {A} (body : M A) :
  keeps_entered body → keeps_entered (begin_nested body).
Proof.
  intros Hbody s r s'. unfold begin_nested.
  destruct (body (push_savepoint s)) as [[a|e] s1] eqn:Hrun;
    intros [= <- <-]; apply Hbody in Hrun; simpl in Hrun.
  - done.
  - unfold rollback_savepoint. by destruct (savepoints s1) as [|[? ?] ?].
Qed.

Lemma keeps_entered_for_each {A B} (f : B → A → M B) (l : list A) :
  (∀ acc x, keeps_entered (f acc x)) → ∀ acc, keeps_entered (for_each f acc l).
Proof.
  intros Hf. induction l as [|x l IH]; intros acc; simpl.
  - by intros s r s' [= <- <-].
  - apply keeps_entered_bind; [apply Hf|apply IH].
Qed.

Ltac entered_step :=
  match goal with
  | |- keeps_entered (bind _ _) => apply keeps_entered_bind; [|intros ?]
  | |- keeps_entered (begin_nested _) => apply keeps_entered_begin_nested
  | |- keeps_entered commit => apply keeps_entered_commit
  | |- keeps_entered (match ?x with _ => _ end) => destruct x
  | |- keeps_entered (let '(_, _) := ?x in _) => destruct x
  | |- keeps_entered _ => solve [apply keeps_frame_entered; auto with frame]
  end.

Ltac solve_entered := repeat entered_step.

Lemma keeps_entered_invalidate_hash file h :
  keeps_entered (invalidate_hash file h).
Proof.
  unfold invalidate_hash, update_last_hash. solve_entered.
Qed.

Lemma keeps_entered_compare_item hash_func now acc indexed :
  keeps_entered (_compare_item hash_func now acc indexed).
Proof.
  destruct acc as [[ok upd] res], indexed as [i item].
  unfold _compare_item, filter_hashed_and_update, try_get_file, try_get_item.
  apply keeps_entered_bind; [solve_entered|]. intros [db_file|]; [|solve_entered].
  apply keeps_entered_bind.
  - destruct hash_func as [hash_func|]; [|solve_entered].
    destruct (decide _); [solve_entered|].
    destruct (decide _); [|solve_entered].
    apply keeps_entered_bind; [solve_entered|]. intros hash.
    destruct (decide _); [|solve_entered].
    apply keeps_entered_bind; [apply keeps_entered_invalidate_hash|].
    intros _. solve_entered.
  - intros [ids' [|]]; solve_entered.
Qed.

Lemma keeps_entered_compare items hash_func now :
  keeps_entered (_compare_against_database items hash_func now).
Proof.
  unfold _compare_against_database. apply keeps_entered_bind.
  - apply keeps_entered_for_each. intros acc x.
    apply keeps_entered_compare_item.
  - intros acc. solve_entered.
Qed.

Lemma drop_all_entries_eq s :
  entered s = true →
  ∃ s',
    drop_all_entries s
      = (Ok (mkDropAllEntriesResult
               (Z.of_nat (length (test_file (working s))))
               (Z.of_nat (length (test_item (working s))))), s')
    ∧ working s' = empty_db
    ∧ durable s' = empty_db
    ∧ past s' = durable s :: past s
    ∧ entered s' = true.
Proof.
  intros Hent. unfold drop_all_entries, delete_items_where. munfold.
  rewrite Hent. simpl.
  rewrite (filter_all (λ _ : TestItem, True)) by done.
  rewrite (filter_none (λ _ : TestItem, ¬ True)) by (intros ? _ Hn; by apply Hn).
  eexists. split; [reflexivity|]. simpl. by rewrite Hent.
Qed.

(** C10. When the list of collected items (shuffled, if so configured) is
    not empty, the comparison against the store finds every item and
    [_reset_on_saturation] is set, the hook drops every entry of the store
    and returns: the state it leaves is the one [drop_all_entries] leaves at
    the end of the comparison, closed by the exit of the session, with no
    commit of a pruning after it, and the list of items is the one the hook
    compared, in the same order. *)
Theorem collection_saturated_resets (self : StatefulSamplesBroker)
    (items : list Item) (now : Z) (s : State)
    (filter_res : DatabaseItemFilterResult) (s1 : State) :
  let shown := if _randomize self then _shuffle_items self items else items in
  let hash_func := if _hash_testfiles self then Some (_hash_file self)
                   else None in
  shown ≠ [] →
  _reset_on_saturation self = true →
  (_setup_engine ;;; new_session ;;; __enter__ ;;;
   _compare_against_database shown hash_func now) s = (Ok filter_res, s1) →
  length (known_test_indices filter_res) = length shown →
  ∃ res s2,
    drop_all_entries s1 = (Ok res, s2)
    ∧ pytest_collection_modifyitems self items now s
      = (Ok tt,
         (set_collected (Z.of_nat (length shown)) self, shown),
         snd (__exit__ s2))
    ∧ durable (snd (__exit__ s2)) = empty_db
    ∧ past (snd (__exit__ s2)) = durable s1 :: past s1.
Proof.
  intros shown hash_func Hne Hreset Hcmp Hlen.
  unfold bind, _setup_engine, setup_tables, _ensure_not_disposed,
    create_tables, new_session, __enter__ in Hcmp. simpl in Hcmp.
  assert (Hent1 : entered s1 = true)
    by (by rewrite (keeps_entered_compare _ _ _ _ _ _ Hcmp)).
  destruct (drop_all_entries_eq s1 Hent1) as (s2 & Hdrop & Hw2 & Hd2 & Hp2 & Hent2).
  eexists _, s2. split; [exact Hdrop|].
  split_and!.
  - unfold pytest_collection_modifyitems. fold shown.
    unfold _setup_engine, setup_tables, _ensure_not_disposed, create_tables.
    unfold bind at 1. simpl.
    rewrite decide_False by (destruct shown; [done|simpl; lia]).
    unfold with_new_session, new_session, with_session, _ensure_not_disposed,
      __enter__. unfold bind at 1. unfold bind at 1. simpl.
    unfold _collection_session. unfold bind at 1. simpl. fold hash_func.
    rewrite Hcmp. rewrite Hreset. rewrite decide_True by (by rewrite Hlen).
    unfold bind at 1. unfold bind at 1. rewrite Hdrop. reflexivity.
  - unfold __exit__. simpl. by rewrite Hent2.
  - unfold __exit__. simpl. by rewrite Hent2.
Qed.

Lemma collection_saturated_resets_witness :
  ∃ s',
    pytest_collection_modifyitems (sample_broker true) sample_items 100
      (fresh_state sample_db)
    = (Ok tt, (set_collected 3 (sample_broker true), sample_items), s')
    ∧ durable s' = empty_db.
Proof.
  destruct (collection_saturated_resets (sample_broker true) sample_items 100
              (fresh_state sample_db)
              (mkDatabaseItemFilterResult [0; 1; 2]
                 (list_to_map [(mkItem "abc::t1" ("abc", Some 0, "t1"), 90);
                               (mkItem "abc::t2" ("abc", Some 1, "t2"), 89);
                               (mkItem "def::t5" ("def", Some 0, "t5"), 88)]))
              (mkState true sample_db [] false true sample_db [] [2; 1; 1]))
    as (res & s2 & _ & Hrun & Hd & _).
  - discriminate.
  - reflexivity.
  - vm_compute. reflexivity.
  - reflexivity.
  - eexists. split; [exact Hrun|exact Hd].
Defined.

(** The claim as written also covers a run that collects nothing, where
    every collected item is known: the hook then returns before it opens a
    session, and the store keeps its entries. *)
Lemma collection_empty_counterexample :
  ∃ s',
    pytest_collection_modifyitems (sample_broker true) [] 100
      (fresh_state sample_db)
    = (Ok tt, (set_collected 0 (sample_broker true), []), s')
    ∧ durable s' = sample_db
    ∧ sample_db ≠ empty_db.
Proof. eexists. split_and!; [reflexivity|reflexivity|discriminate]. Qed.

(** ** Moving the known items to the end *)

Section pick_from.
Context {A : Type}.
Implicit Types (P Q : Z → Prop) (l : list A).

Lemma pick_from_app P `{∀ i, Decision (P i)} i l1 l2 :
  pick_from P i (l1 ++ l2)
  = pick_from P i l1 ++ pick_from P (i + Z.of_nat (length l1)) l2.
Proof.
  revert i. induction l1 as [|x l1 IH]; intros i.
  - simpl. by rewrite Z.add_0_r.
  - cbn [app pick_from length]. rewrite IH.
    replace (i + 1 + Z.of_nat (length l1))
      with (i + Z.of_nat (S (length l1))) by lia.
    by destruct (decide (P i)).
Qed.

Lemma pick_from_ext P Q `{∀ i, Decision (P i)} `{∀ i, Decision (Q i)} i l :
  (∀ j, i ≤ j < i + Z.of_nat (length l) → P j ↔ Q j) →
  pick_from P i l = pick_from Q i l.
Proof.
  revert i. induction l as [|x l IH]; intros i Hext; [done|].
  cbn [pick_from]. rewrite (IH (i + 1)).
  2:{ intros j Hj. apply Hext. cbn [length]. lia. }
  assert (HPQ : P i ↔ Q i) by (apply Hext; cbn [length]; lia).
  destruct (decide (P i)), (decide (Q i)); tauto.
Qed.

Lemma pick_from_all P `{∀ i, Decision (P i)} i l :
  (∀ j, i ≤ j < i + Z.of_nat (length l) → P j) → pick_from P i l = l.
Proof.
  revert i. induction l as [|x l IH]; intros i Hall; [done|].
  cbn [pick_from]. rewrite decide_True by (apply Hall; cbn [length]; lia).
  f_equal. apply IH. intros j Hj. apply Hall. cbn [length]. lia.
Qed.

Lemma pick_from_none P `{∀ i, Decision (P i)} i l :
  (∀ j, i ≤ j < i + Z.of_nat (length l) → ¬ P j) → pick_from P i l = [].
Proof.
  revert i. induction l as [|x l IH]; intros i Hnone; [done|].
  cbn [pick_from]. rewrite decide_False by (apply Hnone; cbn [length]; lia).
  apply IH. intros j Hj. apply Hnone. cbn [length]. lia.
Qed.

Lemma pick_from_elem P `{∀ i, Decision (P i)} i l x :
  x ∈ pick_from P i l →
  ∃ j, P j ∧ i ≤ j ∧ l !! Z.to_nat (j - i) = Some x.
Proof.
  revert i. induction l as [|y l IH]; intros i; [by intros ?%elem_of_nil|].
  cbn [pick_from]. destruct (decide (P i)) as [HP|HP].
  - intros [->|Hx]%elem_of_cons.
    + exists i. split_and!; [done|lia|]. by rewrite Z.sub_diag.
    + destruct (IH _ Hx) as (j & Hj & Hle & Hl). exists j.
      split_and!; [done|lia|].
      replace (Z.to_nat (j - i)) with (S (Z.to_nat (j - (i + 1)))) by lia.
      done.
  - intros Hx. destruct (IH _ Hx) as (j & Hj & Hle & Hl). exists j.
    split_and!; [done|lia|].
    replace (Z.to_nat (j - i)) with (S (Z.to_nat (j - (i + 1)))) by lia.
    done.
Qed.
End pick_from.

Lemma insert_reverse_perm i l : insert_reverse i l ≡ₚ i :: l.
Proof.
  induction l as [|j l IH]; [done|]. simpl.
  destruct (decide (j ≤ i)); [done|]. rewrite IH. apply Permutation_swap.
Qed.

Lemma sorted_reverse_perm idx : sorted_reverse idx ≡ₚ idx.
Proof.
  induction idx as [|i idx IH]; [done|]. unfold sorted_reverse in *. simpl.
  by rewrite insert_reverse_perm, IH.
Qed.

Lemma insert_reverse_desc i l :
  i ∉ l → StronglySorted (λ a b, b < a) l →
  StronglySorted (λ a b, b < a) (insert_reverse i l).
Proof.
  induction l as [|j l IH]; intros Hi Hs; simpl.
  - repeat constructor.
  - apply not_elem_of_cons in Hi as [Hij Hi].
    apply StronglySorted_inv in Hs as [Hs Hall].
    destruct (decide (j ≤ i)).
    + constructor; [by constructor|]. constructor; [lia|].
      eapply Forall_impl; [exact Hall|]. simpl. intros; lia.
    + constructor; [by apply IH|].
      rewrite insert_reverse_perm. constructor; [lia|done].
Qed.

Lemma sorted_reverse_desc idx :
  NoDup idx → StronglySorted (λ a b, b < a) (sorted_reverse idx).
Proof.
  induction idx as [|i idx IH]; [constructor|].
  intros [Hi Hnd]%NoDup_cons. unfold sorted_reverse in *. simpl.
  apply insert_reverse_desc; [|by apply IH].
  by rewrite (sorted_reverse_perm idx).
Qed.

Lemma list_pop_middle {A} (l1 l2 : list A) (x : A) :
  list_pop (l1 ++ x :: l2) (Z.of_nat (length l1)) = Some (x, l1 ++ l2).
Proof.
  unfold list_pop. cbv zeta.
  destruct (decide (Z.of_nat (length l1) < 0)) as [?|_]; [lia|].
  destruct (decide (0 ≤ Z.of_nat (length l1)
                    < Z.of_nat (length (l1 ++ x :: l2)))) as [_|Hn].
  2:{ exfalso. apply Hn. rewrite length_app. cbn [length]. lia. }
  rewrite Nat2Z.id, list_lookup_middle by done.
  rewrite delete_take_drop, take_app_length.
  by rewrite (cons_middle x l1 l2), app_assoc, drop_app_length'
    by (rewrite length_app; simpl; lia).
Qed.

Lemma pop_checked_desc {A} (ds : list Z) : ∀ (src : list A) (prev : option Z),
  StronglySorted (λ a b, b < a) ds →
  (∀ d, d ∈ ds → 0 ≤ d < Z.of_nat (length src)) →
  (∀ p, prev = Some p → ∀ d, d ∈ ds → d < p) →
  ∃ removed,
    pop_checked src prev ds = (Ok removed, pick_from (λ i, i ∉ ds) 0 src)
    ∧ reverse removed = pick_from (λ i, i ∈ ds) 0 src.
Proof.
  induction ds as [|d ds IH]; intros src prev Hs Hrange Hprev.
  - exists []. simpl. split.
    + by rewrite pick_from_all by (intros j _; apply not_elem_of_nil).
    + by rewrite pick_from_none by (intros j _; apply not_elem_of_nil).
  - apply StronglySorted_inv in Hs as [Hs Hlt]. rewrite Forall_forall in Hlt.
    assert (Hd : 0 ≤ d < Z.of_nat (length src)) by (apply Hrange; left).
    destruct (lookup_lt_is_Some_2 src (Z.to_nat d)) as [x Hx]; [lia|].
    pose proof (take_drop_middle src (Z.to_nat d) x Hx) as Hsrc.
    set (l1 := take (Z.to_nat d) src) in *.
    set (l2 := drop (S (Z.to_nat d)) src) in *.
    assert (Hl1 : Z.of_nat (length l1) = d).
    { unfold l1. rewrite length_take. lia. }
    destruct (IH (l1 ++ l2) (Some d) Hs) as (removed & Hrun & Hrev).
    { intros d' Hd'. specialize (Hlt d' Hd'). simpl in Hlt.
      specialize (Hrange d' (list_elem_of_further _ _ _ Hd')).
      rewrite <- Hsrc, length_app in Hd. cbn [length] in Hd.
      rewrite length_app. lia. }
    { intros p [= <-] d' Hd'. by apply Hlt. }
    exists (x :: removed). cbn [pop_checked].
    rewrite decide_False.
    2:{ intros Heq. symmetry in Heq.
        specialize (Hprev d Heq d (list_elem_of_here _ _)). lia. }
    rewrite <- Hsrc at 1. rewrite <- Hl1 at 1. rewrite list_pop_middle.
    rewrite Hrun. split.
    + f_equal. rewrite <- Hsrc. rewrite !pick_from_app, !Z.add_0_l, Hl1.
      cbn [pick_from]. rewrite decide_False by (intros Hn; apply Hn; left).
      f_equal.
      * apply pick_from_ext. intros j Hj. rewrite not_elem_of_cons. split; [|tauto].
        intros Hn. split; [lia|done].
      * rewrite (pick_from_all (λ i, i ∉ d :: ds) (d + 1) l2).
        2:{ intros j Hj [->|Hin]%elem_of_cons; [lia|].
            specialize (Hlt j Hin). simpl in Hlt. lia. }
        rewrite (pick_from_all (λ i, i ∉ ds) d l2); [done|].
        intros j Hj Hin. specialize (Hlt j Hin). simpl in Hlt. lia.
    + rewrite reverse_cons, Hrev. rewrite <- Hsrc.
      rewrite !pick_from_app, !Z.add_0_l, Hl1.
      cbn [pick_from]. rewrite decide_True by left.
      rewrite (pick_from_none (λ i, i ∈ ds) d l2).
      2:{ intros j Hj Hin. specialize (Hlt j Hin). simpl in Hlt. lia. }
      rewrite (pick_from_none (λ i, i ∈ d :: ds) (d + 1) l2).
      2:{ intros j Hj [->|Hin]%elem_of_cons; [lia|].
          specialize (Hlt j Hin). simpl in Hlt. lia. }
      rewrite app_nil_r. f_equal.
      apply pick_from_ext. intros j Hj. rewrite elem_of_cons. split; [tauto|].
      intros [->|?]; [lia|done].
Qed.

Lemma keys_of_ok {A} (key : A → Result Z) (f : A → Z) (l : list A) :
  (∀ x, x ∈ l → key x = Ok (f x)) →
  keys_of key l = Ok ((λ x, (f x, x)) <$> l).
Proof.
  induction l as [|x l IH]; intros Hkey; [done|].
  cbn [keys_of]. rewrite (Hkey x) by left.
  rewrite IH by (intros y Hy; apply Hkey; by right). done.
Qed.

Lemma insert_keyed_perm {A} (x : Z * A) l : insert_keyed x l ≡ₚ x :: l.
Proof.
  induction l as [|y l IH]; [done|]. simpl.
  destruct (decide (x.1 ≤ y.1)); [done|]. rewrite IH. apply Permutation_swap.
Qed.

Lemma sort_keyed_perm {A} (l : list (Z * A)) : sort_keyed l ≡ₚ l.
Proof.
  induction l as [|x l IH]; [done|]. unfold sort_keyed in *. simpl.
  by rewrite insert_keyed_perm, IH.
Qed.

Lemma insert_keyed_sorted {A} (x : Z * A) l :
  StronglySorted (λ a b, a.1 ≤ b.1) l →
  StronglySorted (λ a b, a.1 ≤ b.1) (insert_keyed x l).
Proof.
  induction l as [|y l IH]; intros Hs; simpl.
  - repeat constructor.
  - apply StronglySorted_inv in Hs as [Hs Hall].
    destruct (decide (x.1 ≤ y.1)).
    + constructor; [by constructor|]. constructor; [done|].
      eapply Forall_impl; [exact Hall|]. simpl. intros; lia.
    + constructor; [by apply IH|].
      rewrite insert_keyed_perm. constructor; [lia|done].
Qed.

Lemma sort_keyed_sorted {A} (l : list (Z * A)) :
  StronglySorted (λ a b, a.1 ≤ b.1) (sort_keyed l).
Proof.
  induction l as [|x l IH]; [constructor|]. unfold sort_keyed in *. simpl.
  by apply insert_keyed_sorted.
Qed.

Lemma StronglySorted_fmap_in {A B} (R1 : relation A) (R2 : relation B)
    (g : A → B) (l : list A) :
  (∀ x y, x ∈ l → y ∈ l → R1 x y → R2 (g x) (g y)) →
  StronglySorted R1 l → StronglySorted R2 (g <$> l).
Proof.
  induction l as [|x l IH]; intros Hg Hs; [constructor|].
  apply StronglySorted_inv in Hs as [Hs Hall]. rewrite fmap_cons.
  constructor.
  - apply IH; [|done]. intros a b Ha Hb. apply Hg; by right.
  - rewrite Forall_fmap. rewrite Forall_forall in Hall.
    apply Forall_forall. intros y Hy. simpl. apply Hg; [left|by right|].
    by apply Hall.
Qed.

(** [move_idx_to_end] on a duplicate-free set of indices into [src]: the
    elements at the other indices come first, in their order; without a key
    the elements at the indices follow in their order, and with a key that
    returns on them they follow by ascending key. *)
Lemma move_idx_to_end_spec {A} (src : list A) (idx : list Z) :
  NoDup idx →
  (∀ i, i ∈ idx → 0 ≤ i < Z.of_nat (length src)) →
  let unmoved := pick_from (λ i, i ∉ idx) 0 src in
  let picked := pick_from (λ i, i ∈ idx) 0 src in
  move_idx_to_end src idx None = (Ok tt, unmoved ++ picked)
  ∧ ∀ (key : A → Result Z) (f : A → Z),
      (∀ x, x ∈ picked → key x = Ok (f x)) →
      ∃ moved,
        move_idx_to_end src idx (Some key) = (Ok tt, unmoved ++ moved)
        ∧ moved ≡ₚ picked
        ∧ StronglySorted (λ a b, f a ≤ f b) moved.
Proof.
  intros Hnd Hrange unmoved picked.
  destruct (decide (idx = [])) as [->|Hidx].
  { assert (Hu : unmoved = src)
      by (apply pick_from_all; intros j _; apply not_elem_of_nil).
    assert (Hk : picked = [])
      by (apply pick_from_none; intros j _; apply not_elem_of_nil).
    rewrite Hu, Hk, app_nil_r. split; [done|]. intros key f _. exists [].
    rewrite app_nil_r. split_and!; [done|done|constructor]. }
  set (ds := sorted_reverse idx).
  assert (Hperm : ∀ i, i ∈ ds ↔ i ∈ idx)
    by (intros i; unfold ds; by rewrite (sorted_reverse_perm idx)).
  destruct (pop_checked_desc ds src None) as (removed & Hrun & Hrev).
  { by apply sorted_reverse_desc. }
  { intros d Hd. by apply Hrange, Hperm. }
  { discriminate. }
  assert (Hlast : ¬ default 0 (last ds) < 0).
  { destruct (last ds) as [l|] eqn:Hl; simpl; [|lia].
    apply last_Some_elem_of, Hperm, Hrange in Hl. lia. }
  assert (Hu : pick_from (λ i, i ∉ ds) 0 src = unmoved).
  { apply pick_from_ext. intros j _. by rewrite Hperm. }
  assert (Hk : pick_from (λ i, i ∈ ds) 0 src = picked).
  { apply pick_from_ext. intros j _. by rewrite Hperm. }
  rewrite Hu in Hrun. rewrite Hk in Hrev.
  assert (Hmove : ∀ key, move_idx_to_end src idx key
            = match key with
              | None => (Ok tt, unmoved ++ reverse removed)
              | Some key =>
                  match keys_of key removed with
                  | Raise e => (Raise e, unmoved)
                  | Ok keyed => (Ok tt, unmoved ++ (sort_keyed keyed).*2)
                  end
              end).
  { intros key. unfold move_idx_to_end. destruct idx as [|k idx']; [done|].
    fold ds. rewrite decide_False by done. by rewrite Hrun. }
  split; [by rewrite Hmove, Hrev|].
  intros key f Hkey.
  assert (Hkeys : keys_of key removed = Ok ((λ x, (f x, x)) <$> removed)).
  { apply keys_of_ok. intros x Hx. apply Hkey.
    rewrite <- Hrev. by apply elem_of_reverse. }
  set (keyed := (λ x, (f x, x)) <$> removed) in *.
  exists (sort_keyed keyed).*2.
  assert (Hfst : ∀ p, p ∈ sort_keyed keyed → p.1 = f p.2).
  { intros p Hp. rewrite (sort_keyed_perm keyed) in Hp.
    by apply list_elem_of_fmap in Hp as (x & -> & _). }
  split_and!.
  - by rewrite Hmove, Hkeys.
  - rewrite (sort_keyed_perm keyed). unfold keyed.
    rewrite <- list_fmap_compose, <- Hrev, reverse_Permutation.
    by rewrite (fmap_id_on (snd ∘ _)) by done.
  - apply (StronglySorted_fmap_in (λ a b, a.1 ≤ b.1));
      [|apply sort_keyed_sorted].
    intros x y Hx Hy. by rewrite <- !Hfst.
Qed.

Lemma StronglySorted_weaken {A} (R1 R2 : relation A) (l : list A) :
  (∀ x y, x ∈ l → y ∈ l → R1 x y → R2 x y) →
  StronglySorted R1 l → StronglySorted R2 l.
Proof.
  intros HR Hs. rewrite <- (list_fmap_id l).
  by apply (StronglySorted_fmap_in R1 R2 id).
Qed.

(** C1. For every list of items, every duplicate-free set [K] of indices
    into it and every map that gives each known item its recency
    [now - last_run], the reordered list starts with the items whose index
    is not in [K], in their order, and ends with the items whose index is
    in [K]. Without a sorting key these keep their order. With the recency
    as the key they come by ascending recency, which is by descending
    [last_run]: the item run most recently is the first of the moved
    block and the item run longest ago is the last. *)
Theorem move_idx_to_end_known_last (items : list Item) (K : list Z)
    (m : gmap Item Z) (now : Z) (last_run : Item → Z) :
  NoDup K →
  (∀ i, i ∈ K → 0 ≤ i < Z.of_nat (length items)) →
  (∀ i it, i ∈ K → items !! Z.to_nat i = Some it →
           m !! it = Some (now - last_run it)) →
  let unknown := pick_from (λ i, i ∉ K) 0 items in
  let known := pick_from (λ i, i ∈ K) 0 items in
  move_idx_to_end items K None = (Ok tt, unknown ++ known)
  ∧ ∃ moved,
      move_idx_to_end items K (Some (getitem m)) = (Ok tt, unknown ++ moved)
      ∧ moved ≡ₚ known
      ∧ StronglySorted (λ a b, now - last_run a ≤ now - last_run b) moved
      ∧ StronglySorted (λ a b, last_run b ≤ last_run a) moved.
Proof.
  intros Hnd Hrange Hmap unknown known.
  destruct (move_idx_to_end_spec items K Hnd Hrange) as [Hnone Hkey].
  split; [exact Hnone|].
  destruct (Hkey (getitem m) (λ it, now - last_run it))
    as (moved & Hrun & Hperm & Hsorted).
  { intros x Hx. apply pick_from_elem in Hx as (j & Hj & _ & Hl).
    rewrite Z.sub_0_r in Hl. unfold getitem. by rewrite (Hmap j x Hj Hl). }
  exists moved. split_and!; [exact Hrun|exact Hperm|exact Hsorted|].
  eapply StronglySorted_weaken; [|exact Hsorted].
  intros a b _ _ Hab. simpl in Hab. lia.
Qed.

Lemma move_idx_to_end_known_last_witness :
  let items := [mkItem "a" ("f", Some 1, "a"); mkItem "b" ("f", Some 2, "b");
                mkItem "c" ("f", Some 3, "c"); mkItem "d" ("f", Some 4, "d")] in
  let m : gmap Item Z :=
    list_to_map [(mkItem "a" ("f", Some 1, "a"), 100 - 10);
                 (mkItem "c" ("f", Some 3, "c"), 100 - 30)] in
  move_idx_to_end items [0; 2] None
  = (Ok tt, [mkItem "b" ("f", Some 2, "b"); mkItem "d" ("f", Some 4, "d");
             mkItem "a" ("f", Some 1, "a"); mkItem "c" ("f", Some 3, "c")])
  ∧ ∃ moved,
      move_idx_to_end items [0; 2] (Some (getitem m))
      = (Ok tt, [mkItem "b" ("f", Some 2, "b"); mkItem "d" ("f", Some 4, "d")]
                ++ moved)
      ∧ StronglySorted
          (λ a b, (if decide (nodeid b = "a") then 10 else 30)
                  ≤ (if decide (nodeid a = "a") then 10 else 30)) moved.
Proof.
  intros items m.
  destruct (move_idx_to_end_known_last items [0; 2] m 100
              (λ it, if decide (nodeid it = "a") then 10 else 30))
    as (Hnone & moved & Hkey & _ & _ & Hsorted).
  - compute_done.
  - intros i Hi.
    assert (Hall : Forall (λ i, 0 ≤ i < Z.of_nat (length items)) [0; 2])
      by (repeat constructor; simpl; lia).
    rewrite Forall_forall in Hall. by apply Hall.
  - intros i it [->|[->|[]%elem_of_nil]%elem_of_cons]%elem_of_cons [= <-];
      vm_compute; reflexivity.
  - split; [exact Hnone|]. exists moved. split; [exact Hkey|exact Hsorted].
Defined.

(** The claim as written puts the item run longest ago first in the moved
    block. In a store where "t1" was last run at 10 and "t2" at 11, all
    three collected items are known and the hook, at time 100, orders them
    by the recencies 88, 89, 90: "t5" (run at 12, the most recent) comes
    first and "t1" (run longest ago) comes last. *)
Lemma most_recent_first_counterexample :
  ∃ first second last self' s',
    pytest_collection_modifyitems (sample_broker false) sample_items 100
      (fresh_state sample_db)
    = (Ok tt, (self', [first; second; last]), s')
    ∧ stored_last_run sample_db (location first) = Some 12
    ∧ stored_last_run sample_db (location second) = Some 11
    ∧ stored_last_run sample_db (location last) = Some 10
    ∧ ¬ (12 ≤ 10).
Proof.
  eexists _, _, _, _, _. split_and!; [vm_compute; reflexivity|..|lia];
    reflexivity.
Qed.

(** ** The comparison against the store *)

Lemma shrinks_refl db : shrinks db db.
Proof. by split. Qed.

Lemma shrinks_trans db0 db1 db2 :
  shrinks db0 db1 → shrinks db1 db2 → shrinks db0 db2.
Proof.
  intros [Hf1 Hi1] [Hf2 Hi2]. split; [congruence|].
  by etrans.
Qed.

Lemma shrinks_wf db0 db : wf db0 → shrinks db0 db → wf db.
Proof.
  intros [Hp Hfi Hii Hik Hfs] [Hf Hi].
  assert (Hids : f_id <$> test_file db = f_id <$> test_file db0).
  { apply (f_equal (fmap fst)) in Hf.
    by rewrite <- !list_fmap_compose in Hf. }
  assert (Hpaths : f_path <$> test_file db = f_path <$> test_file db0).
  { apply (f_equal (fmap snd)) in Hf.
    by rewrite <- !list_fmap_compose in Hf. }
  constructor.
  - by rewrite Hpaths.
  - by rewrite Hids.
  - eapply sublist_NoDup; [exact Hii|]. by apply fmap_sublist.
  - eapply sublist_NoDup; [exact Hik|]. by apply fmap_sublist.
  - rewrite Hids. apply Forall_forall. intros it Hit.
    rewrite Forall_forall in Hfs. apply Hfs.
    by eapply elem_of_sublist.
Qed.

Lemma shrinks_invalidate db fid h :
  shrinks db
    (mkDB ((λ f, if decide (f_id f = fid) then with_last_hash (Some h) f else f)
             <$> test_file db)
          (filter (λ it, ¬ i_file_id it = fid) (test_item db))).
Proof.
  split; simpl.
  - rewrite <- list_fmap_compose. apply fmap_ext_in. intros f _. simpl.
    by destruct (decide (f_id f = fid)).
  - apply sublist_filter.
Qed.

Lemma wf_stored_last_run db f ti path lineno testname :
  wf db →
  f ∈ test_file db → f_path f = path →
  ti ∈ test_item db → same_item (f_id f) lineno testname ti →
  stored_last_run db (path, lineno, testname) = Some (i_last_run ti).
Proof.
  intros Hwf Hf Hp Hti Hs. unfold stored_last_run. simpl.
  pose proof (wf_one_file db path Hwf) as Hone.
  destruct (filter (λ f, f_path f = path) (test_file db))
    as [|g [|g2 gs]] eqn:Hfs; [| |simpl in Hone; lia].
  { by destruct (filter_nil_none _ _ f Hfs Hf). }
  simpl. apply filter_singleton_elem in Hfs as [Hg Hpg].
  assert (g = f) as ->.
  { apply (NoDup_ids_inj f_path (test_file db)); [apply Hwf|done..|congruence]. }
  pose proof (wf_one_item db (f_id f) lineno testname Hwf) as Hone'.
  destruct (filter (same_item (f_id f) lineno testname) (test_item db))
    as [|t [|t2 ts]] eqn:Hts; [| |simpl in Hone'; lia].
  { by destruct (filter_nil_none _ _ ti Hts Hti). }
  simpl. apply filter_singleton_elem in Hts as [Ht Hst].
  f_equal. f_equal.
  apply (NoDup_ids_inj item_key (test_item db)); [apply Hwf|done..|].
  apply same_item_key in Hs, Hst. congruence.
Qed.

Lemma shrinks_stored_last_run db0 db f ti path lineno testname :
  wf db0 → shrinks db0 db →
  f ∈ test_file db → f_path f = path →
  ti ∈ test_item db → same_item (f_id f) lineno testname ti →
  stored_last_run db0 (path, lineno, testname) = Some (i_last_run ti).
Proof.
  intros Hwf [Hfs Hits] Hf Hp Hti Hs.
  assert (Hpair : (f_id f, f_path f)
                  ∈ (λ f, (f_id f, f_path f)) <$> test_file db0).
  { rewrite <- Hfs. by apply (list_elem_of_fmap_2 (λ f, (f_id f, f_path f))). }
  apply list_elem_of_fmap in Hpair as (f0 & [= Hid Hpath] & Hf0).
  apply (wf_stored_last_run db0 f0 ti); try done.
  - congruence.
  - by eapply elem_of_sublist.
  - by rewrite <- Hid.
Qed.

Lemma try_get_file_spec path s :
  entered s = true → wf (working s) →
  ∃ r s',
    try_get_file path s = (Ok r, s')
    ∧ working s' = working s ∧ entered s' = true
    ∧ (∀ f, f_id f ∈ attached s → f_id f ∈ attached s')
    ∧ (∀ f, r = Some f →
            f ∈ test_file (working s) ∧ f_path f = path
            ∧ f_id f ∈ attached s').
Proof.
  intros Hent Hwf. pose proof (wf_one_file _ path Hwf) as Hone.
  unfold try_get_file, _try_get_file, scalar_one_or_none. munfold.
  rewrite Hent. simpl.
  destruct (filter (λ f, f_path f = path) (test_file (working s)))
    as [|f [|f2 fs]] eqn:Hfs; [| |simpl in Hone; lia]; simpl.
  - eexists _, _. split; [reflexivity|]. simpl. by split_and!.
  - apply filter_singleton_elem in Hfs as [Hf Hp].
    eexists _, _. split; [reflexivity|]. simpl. split_and!; try done.
    + intros g Hg. by right.
    + intros g [= <-]. split_and!; [done..|left].
Qed.

Lemma try_get_item_spec file lineno testname s :
  entered s = true → wf (working s) → f_id file ∈ attached s →
  ∃ r s',
    try_get_item file lineno testname s = (Ok r, s')
    ∧ working s' = working s ∧ entered s' = true
    ∧ (∀ ti, r = Some ti →
             ti ∈ test_item (working s)
             ∧ same_item (f_id file) lineno testname ti).
Proof.
  intros Hent Hwf Hatt.
  pose proof (wf_one_item _ (f_id file) lineno testname Hwf) as Hone.
  unfold try_get_item, _try_get_item, scalar_one_or_none. munfold.
  rewrite Hent. simpl. rewrite bool_decide_true by done. simpl.
  destruct (filter (same_item (f_id file) lineno testname)
                   (test_item (working s)))
    as [|ti [|t2 ts]] eqn:Hts; [| |simpl in Hone; lia]; simpl.
  - eexists _, _. split; [reflexivity|]. simpl. by split_and!.
  - apply filter_singleton_elem in Hts as [Hti Hs].
    eexists _, _. split; [reflexivity|]. simpl. split_and!; try done.
    by intros t [= <-].
Qed.

Lemma invalidate_hash_spec file h s :
  entered s = true → f_id file ∈ attached s →
  ∃ n s',
    invalidate_hash file h s = (Ok n, s')
    ∧ entered s' = true ∧ attached s' = attached s
    ∧ shrinks (working s) (working s').
Proof.
  intros Hent Hatt.
  unfold invalidate_hash, update_last_hash, delete_items_where. munfold.
  rewrite Hent. simpl. rewrite bool_decide_true by done. simpl.
  eexists _, _. split; [reflexivity|]. simpl. split_and!; try done.
  apply shrinks_invalidate.
Qed.

Lemma filter_hashed_and_update_spec hash_func ids item file s :
  entered s = true → f_id file ∈ attached s →
  (∀ path, ∃ h, hash_func path = Ok h) →
  ∃ ids' yielded s',
    filter_hashed_and_update hash_func ids item file s
      = (Ok (ids', yielded), s')
    ∧ entered s' = true ∧ f_id file ∈ attached s'
    ∧ shrinks (working s) (working s').
Proof.
  intros Hent Hatt Hhash. destruct ids as [ok upd].
  unfold filter_hashed_and_update.
  destruct (decide (f_id file ∈ upd)).
  { eexists _, _, _. split; [reflexivity|].
    split_and!; first [done|apply shrinks_refl]. }
  destruct (decide (f_id file ∉ ok)).
  2:{ eexists _, _, _. split; [reflexivity|].
      split_and!; first [done|apply shrinks_refl]. }
  destruct (Hhash (location item).1.1) as [h Hh].
  unfold bind at 1. unfold lift. rewrite Hh.
  destruct (decide (f_last_hash file ≠ Some h)).
  2:{ eexists _, _, _. split; [reflexivity|].
      split_and!; first [done|apply shrinks_refl]. }
  destruct (invalidate_hash_spec file h s Hent Hatt)
    as (n' & s' & Hrun & Hent' & Hatt' & Hshr).
  unfold bind. rewrite Hrun. unfold ret.
  eexists _, _, _. split; [reflexivity|]. split_and!; try done.
  by rewrite Hatt'.
Qed.

Lemma StronglySorted_snoc_lt (l : list Z) (y : Z) :
  StronglySorted Z.lt l → Forall (λ x, x < y) l →
  StronglySorted Z.lt (l ++ [y]).
Proof.
  induction l as [|x l IH]; intros Hs Hall; simpl.
  - repeat constructor.
  - apply StronglySorted_inv in Hs as [Hs Hx].
    apply Forall_cons in Hall as [Hxy Hall].
    constructor; [by apply IH|].
    apply Forall_app. split; [done|]. by repeat constructor.
Qed.

Lemma compared_skip db0 now i seen item res :
  compared db0 now i seen res →
  compared db0 now (i + 1) (seen ++ [item]) res.
Proof.
  intros (Hi & Hs & Hr & Hk & Hm). split_and!; try done.
  - rewrite length_app. simpl. lia.
  - eapply Forall_impl; [exact Hr|]. simpl. intros; lia.
  - intros k Hin. destruct (Hk k Hin) as (it & Hl & Hsome).
    exists it. split; [|done]. by apply lookup_app_l_Some.
Qed.

Lemma compared_known db0 now i seen item res lr :
  compared db0 now i seen res →
  stored_last_run db0 (location item) = Some lr →
  compared db0 now (i + 1) (seen ++ [item])
    (mkDatabaseItemFilterResult (known_test_indices res ++ [i])
       (<[item := now - lr]> (last_run_map res))).
Proof.
  intros (Hi & Hs & Hr & Hk & Hm) Hlr. split_and!; simpl.
  - rewrite length_app. simpl. lia.
  - apply StronglySorted_snoc_lt; [done|].
    eapply Forall_impl; [exact Hr|]. simpl. intros; lia.
  - apply Forall_app. split.
    + eapply Forall_impl; [exact Hr|]. simpl. intros; lia.
    + repeat constructor; lia.
  - intros k [Hin|Hin]%elem_of_app.
    + destruct (Hk k Hin) as (it & Hl & Hsome). exists it.
      split; [by apply lookup_app_l_Some|].
      destruct (decide (item = it)) as [->|Hne].
      * rewrite lookup_insert_eq. by eexists.
      * by rewrite lookup_insert_ne.
    + apply list_elem_of_singleton in Hin as ->. exists item. split.
      * rewrite Hi, Nat2Z.id. by apply list_lookup_middle.
      * rewrite lookup_insert_eq. by eexists.
  - intros it v. destruct (decide (item = it)) as [->|Hne].
    + rewrite lookup_insert_eq. intros [= <-]. eauto.
    + rewrite lookup_insert_ne by done. apply Hm.
Qed.

Lemma _compare_item_spec db0 hash_func now ids res i item seen s :
  wf db0 → entered s = true → shrinks db0 (working s) →
  hash_func_returns hash_func →
  compared db0 now i seen res →
  ∃ ids' res' s',
    _compare_item hash_func now (ids, res) (i, item) s
      = (Ok (ids', res'), s')
    ∧ entered s' = true ∧ shrinks db0 (working s')
    ∧ compared db0 now (i + 1) (seen ++ [item]) res'.
Proof.
  intros Hwf0 Hent Hshr Hhash Hcmp.
  destruct item as [nid [[path lineno] testname]].
  pose proof (shrinks_wf _ _ Hwf0 Hshr) as Hwf.
  destruct (try_get_file_spec path s Hent Hwf)
    as (r & s1 & Hrun1 & Hw1 & Hent1 & _ & Hr).
  unfold _compare_item. cbn [location fst snd]. unfold bind at 1.
  rewrite Hrun1.
  destruct r as [f|].
  2:{ eexists _, _, _. split; [reflexivity|]. split_and!; [done| |].
      - by rewrite Hw1.
      - by apply compared_skip. }
  destruct (Hr f eq_refl) as (Hf & Hpath & Hatt1).
  assert (Hstep : ∃ ids' yielded s2,
    match hash_func with
    | Some hash_func =>
        filter_hashed_and_update hash_func ids
          (mkItem nid (path, lineno, testname)) f
    | None => ret (ids, true)
    end s1 = (Ok (ids', yielded), s2)
    ∧ entered s2 = true ∧ f_id f ∈ attached s2
    ∧ shrinks (working s1) (working s2)).
  { destruct hash_func as [hf|].
    - apply filter_hashed_and_update_spec; try done. by apply Hhash.
    - eexists _, _, _. split; [reflexivity|].
      split_and!; first [done|apply shrinks_refl]. }
  destruct Hstep as (ids' & yielded & s2 & Hrun2 & Hent2 & Hatt2 & Hshr2).
  assert (Hshr02 : shrinks db0 (working s2)).
  { eapply shrinks_trans; [exact Hshr|]. by rewrite <- Hw1. }
  unfold bind at 1. rewrite Hrun2.
  destruct yielded.
  2:{ eexists _, _, _. split; [reflexivity|]. split_and!; [done..|].
      by apply compared_skip. }
  pose proof (shrinks_wf _ _ Hwf0 Hshr02) as Hwf2.
  destruct (try_get_item_spec f lineno testname s2 Hent2 Hwf2 Hatt2)
    as (r' & s3 & Hrun3 & Hw3 & Hent3 & Hr').
  unfold bind at 1. rewrite Hrun3.
  destruct r' as [ti|].
  2:{ eexists _, _, _. split; [reflexivity|]. split_and!; [done| |].
      - by rewrite Hw3.
      - by apply compared_skip. }
  destruct (Hr' ti eq_refl) as (Hti & Hsame).
  eexists _, _, _. split; [reflexivity|]. split_and!; [done| |].
  - by rewrite Hw3.
  - apply compared_known; [done|]. simpl.
    rewrite <- Hpath.
    assert (Hpair : (f_id f, f_path f)
                    ∈ (λ f, (f_id f, f_path f)) <$> test_file db0).
    { destruct Hshr as [<- _].
      by apply (list_elem_of_fmap_2 (λ f, (f_id f, f_path f))). }
    apply list_elem_of_fmap in Hpair as (f0 & [= Hid Hp0] & Hf0).
    rewrite Hp0.
    apply (wf_stored_last_run db0 f0 ti); try done.
    + destruct Hshr02 as [_ Hsub]. by eapply elem_of_sublist.
    + by rewrite <- Hid.
Qed.

Lemma _compare_loop_spec db0 hash_func now :
  wf db0 → hash_func_returns hash_func →
  ∀ rest seen i ids res s,
    entered s = true → shrinks db0 (working s) →
    compared db0 now i seen res →
    ∃ ids' res' s',
      for_each (_compare_item hash_func now) (ids, res)
               (enumerate_from i rest) s
        = (Ok (ids', res'), s')
      ∧ entered s' = true ∧ shrinks db0 (working s')
      ∧ compared db0 now (i + Z.of_nat (length rest)) (seen ++ rest) res'.
Proof.
  intros Hwf0 Hhash.
  induction rest as [|item rest IH]; intros seen i ids res s Hent Hshr Hcmp.
  - eexists _, _, _. split; [reflexivity|]. simpl.
    rewrite Z.add_0_r, app_nil_r. by split_and!.
  - destruct (_compare_item_spec db0 hash_func now ids res i item seen s)
      as (ids1 & res1 & s1 & Hrun1 & Hent1 & Hshr1 & Hcmp1); try done.
    destruct (IH (seen ++ [item]) (i + 1) ids1 res1 s1)
      as (ids' & res' & s' & Hrun & Hent' & Hshr' & Hcmp'); try done.
    eexists _, _, _. cbn [enumerate_from for_each]. unfold bind at 1.
    rewrite Hrun1. split; [exact Hrun|]. split_and!; [done..|].
    rewrite <- app_assoc in Hcmp'. cbn [length].
    by replace (i + Z.of_nat (S (length rest)))
      with (i + 1 + Z.of_nat (length rest)) by lia.
Qed.

Lemma _compare_against_database_spec items hash_func now s :
  wf (working s) → hash_func_returns hash_func → entered s = true →
  ∃ res s',
    _compare_against_database items hash_func now s = (Ok res, s')
    ∧ entered s' = true ∧ shrinks (working s) (working s')
    ∧ compared (working s) now (Z.of_nat (length items)) items res.
Proof.
  intros Hwf Hhash Hent.
  destruct (_compare_loop_spec (working s) hash_func now Hwf Hhash items []
              0 (∅, ∅) (mkDatabaseItemFilterResult [] ∅) s)
    as (ids' & res' & s' & Hrun & Hent' & Hshr & Hcmp);
    [exact Hent|apply shrinks_refl| |].
  { split_and!; simpl; [done|constructor|constructor| |].
    - intros k []%elem_of_nil.
    - intros it v. by rewrite lookup_empty. }
  exists res', s'. unfold _compare_against_database, bind. rewrite Hrun.
  by split_and!.
Qed.

Lemma wf_items_have_files db : wf db → items_have_files db.
Proof.
  intros Hwf. unfold items_have_files. eapply Forall_impl; [apply Hwf|].
  intros it [f [Hid Hf]]%list_elem_of_fmap. unfold item_file. simpl.
  destruct (filter (λ f, f_id f = i_file_id it) (test_file db)) as [|g gs] eqn:Hfs.
  - by destruct (filter_nil_none _ _ f Hfs Hf).
  - by eexists.
Qed.

Lemma StronglySorted_lt_NoDup (l : list Z) : StronglySorted Z.lt l → NoDup l.
Proof.
  induction 1 as [|x l Hs IH Hall]; constructor; [|done].
  intros Hx. rewrite Forall_forall in Hall. specialize (Hall x Hx). lia.
Qed.

Lemma _collection_session_spec self shown now s :
  entered s = true → wf (working s) →
  hash_func_returns (if _hash_testfiles self then Some (_hash_file self)
                     else None) →
  ∃ res r s',
    _collection_session self shown (Z.of_nat (length shown)) now s
      = (Ok r, s')
    ∧ compared (working s) now (Z.of_nat (length shown)) shown res
    ∧ r = if decide (length (known_test_indices res) = length shown
                     ∧ _reset_on_saturation self = true)
          then None else Some res.
Proof.
  intros Hent Hwf Hhash.
  destruct (_compare_against_database_spec shown _ now s Hwf Hhash Hent)
    as (res & s1 & Hrun & Hent1 & Hshr & Hcmp).
  pose proof (shrinks_wf _ _ Hwf Hshr) as Hwf1.
  exists res. unfold _collection_session. unfold bind at 1. rewrite Hrun.
  assert (Hprune : ∃ s2,
    ((if negb (_no_pruning self)
      then prune_items (list_to_set (location <$> shown)) ;;; ret tt
      else ret tt) ;;; ret (Some res)) s1 = (Ok (Some res), s2)).
  { destruct (_no_pruning self); simpl; [by eexists|].
    destruct (prune_items_run (list_to_set (location <$> shown)) s1)
      as (s2 & Hp & _); [done|apply Hwf1|by apply wf_items_have_files|].
    exists s2. unfold bind. by rewrite Hp. }
  destruct Hprune as (s2 & Hprune).
  destruct (decide (Z.of_nat (length (known_test_indices res))
                    = Z.of_nat (length shown))) as [Hsat|Hsat].
  - destruct (_reset_on_saturation self) eqn:Hreset.
    + destruct (drop_all_entries_eq s1 Hent1) as (s3 & Hdrop & _).
      unfold bind at 1. unfold bind at 1. rewrite Hdrop.
      eexists _, _. split; [reflexivity|]. split; [done|].
      rewrite decide_True; [done|]. split; [lia|done].
    + unfold bind at 1. unfold ret at 1.
      eexists _, _. split; [exact Hprune|]. split; [done|].
      rewrite decide_False; [done|]. by intros [_ ?].
  - unfold bind at 1. unfold ret at 1.
    eexists _, _. split; [exact Hprune|]. split; [done|].
    rewrite decide_False; [done|]. intros [? _]. lia.
Qed.

Lemma _setup_engine_eq s :
  _setup_engine s
  = (Ok tt, mkState true (durable s) (past s) false (entered s) (working s)
                    (savepoints s) (attached s)).
Proof. reflexivity. Qed.

Lemma with_new_session_eq {A} (body : M A) s :
  disposed s = false →
  with_new_session body s
  = let '(r, s2) := body (mkState (pool_open s) (durable s) (past s) false
                                  true (durable s) [] []) in
    (r, snd (__exit__ s2)).
Proof.
  intros Hd. unfold with_new_session, new_session, _ensure_not_disposed, bind.
  rewrite Hd. unfold with_session, __enter__. cbn [pool_open durable past disposed].
  by rewrite Hd.
Qed.

(** The hook on a well-formed store, with a hash function that returns: it
    succeeds, and there is a duplicate-free set [K] of indices of items
    whose location has a stored [last_run] such that the list of items is
    left as it was compared when it is empty or when [K] covers it and
    [_reset_on_saturation] is set, and otherwise consists of the items
    outside [K], in their order, followed by the items of [K] by descending
    stored [last_run]. *)
Theorem collection_moves_known_items_last (self : StatefulSamplesBroker)
    (items : list Item) (now : Z) (s : State) :
  wf (durable s) →
  hash_func_returns (if _hash_testfiles self then Some (_hash_file self)
                     else None) →
  let shown := if _randomize self then _shuffle_items self items else items in
  let last_run it := default 0 (stored_last_run (durable s) (location it)) in
  ∃ K items' s',
    pytest_collection_modifyitems self items now s
      = (Ok tt, (set_collected (Z.of_nat (length shown)) self, items'), s')
    ∧ NoDup K
    ∧ (∀ k, k ∈ K →
            ∃ it, shown !! Z.to_nat k = Some it
                  ∧ is_Some (stored_last_run (durable s) (location it)))
    ∧ if decide (shown = []
                 ∨ (length K = length shown
                    ∧ _reset_on_saturation self = true))
      then items' = shown
      else ∃ moved,
             items' = pick_from (λ i, i ∉ K) 0 shown ++ moved
             ∧ moved ≡ₚ pick_from (λ i, i ∈ K) 0 shown
             ∧ StronglySorted (λ a b, last_run b ≤ last_run a) moved.
Proof.
  intros Hwf Hhash shown last_run.
  unfold pytest_collection_modifyitems. fold shown.
  rewrite _setup_engine_eq.
  destruct (decide (Z.of_nat (length shown) = 0)) as [Hz|Hnz].
  { exists [], shown. eexists. split; [reflexivity|].
    split_and!; [constructor|by intros k ?%elem_of_nil|].
    rewrite decide_True; [done|]. left. destruct shown; [done|simpl in Hz; lia]. }
  rewrite with_new_session_eq by done. cbn [pool_open durable past].
  match goal with
  | |- context [_collection_session ?b shown ?n now ?st] =>
      destruct (_collection_session_spec b shown now st)
        as (res & r & s' & Hrun & Hcmp & Hr); [done|exact Hwf|exact Hhash|]
  end.
  cbn [working durable] in Hcmp. cbn [_reset_on_saturation set_collected] in Hr.
  rewrite Hrun.
  destruct Hcmp as (_ & Hsorted & Hrange & Hknown & Hmap).
  exists (known_test_indices res).
  assert (Hnd : NoDup (known_test_indices res))
    by (by apply StronglySorted_lt_NoDup).
  assert (Hstored : ∀ k, k ∈ known_test_indices res →
            ∃ it, shown !! Z.to_nat k = Some it
                  ∧ is_Some (stored_last_run (durable s) (location it))).
  { intros k Hk. destruct (Hknown k Hk) as (it & Hl & [v Hv]).
    exists it. split; [done|]. destruct (Hmap it v Hv) as (lr & -> & _).
    by eexists. }
  destruct (decide (length (known_test_indices res) = length shown
                    ∧ _reset_on_saturation self = true)) as [Hsat|Hsat];
    subst r.
  { eexists _, _. split; [reflexivity|]. split_and!; [done..|].
    rewrite decide_True; [done|]. by right. }
  destruct (move_idx_to_end_spec shown (known_test_indices res) Hnd)
    as [_ Hkey].
  { intros i Hi. rewrite Forall_forall in Hrange. by apply Hrange. }
  destruct (Hkey (getitem (last_run_map res))
                 (λ it, default 0 (last_run_map res !! it)))
    as (moved & Hmove & Hperm & Hs).
  { intros x Hx. apply pick_from_elem in Hx as (j & Hj & _ & Hl).
    rewrite Z.sub_0_r in Hl. destruct (Hknown j Hj) as (it & Hl' & [v Hv]).
    assert (it = x) as -> by congruence.
    unfold getitem. by rewrite Hv. }
  rewrite Hmove.
  eexists _, _. split; [reflexivity|]. split_and!; [done..|].
  rewrite decide_False.
  2:{ intros [Hnil|?]; [|done]. rewrite Hnil in Hnz. simpl in Hnz. lia. }
  exists moved. split_and!; [done..|].
  eapply StronglySorted_weaken; [|exact Hs].
  intros a b Ha Hb Hab. simpl in Hab.
  assert (Hrec : ∀ x, x ∈ moved →
            default 0 (last_run_map res !! x) = now - last_run x).
  { intros x Hx. rewrite Hperm in Hx.
    apply pick_from_elem in Hx as (j & Hj & _ & Hl).
    rewrite Z.sub_0_r in Hl. destruct (Hknown j Hj) as (it & Hl' & [v Hv]).
    assert (it = x) as -> by congruence.
    destruct (Hmap x v Hv) as (lr & Hlr & ->).
    unfold last_run. by rewrite Hv, Hlr. }
  rewrite (Hrec a Ha), (Hrec b Hb) in Hab. lia.
Qed.

Lemma collection_moves_known_items_last_witness :
  wf (durable (fresh_state sample_db))
  ∧ ∃ (K : list Z) items' s',
      pytest_collection_modifyitems (sample_broker false) sample_items 100
        (fresh_state sample_db)
      = (Ok tt, (set_collected 3 (sample_broker false), items'), s')
      ∧ NoDup K.
Proof.
  split; [exact sample_db_wf|].
  destruct (collection_moves_known_items_last (sample_broker false)
              sample_items 100 (fresh_state sample_db))
    as (K & items' & s' & Hrun & Hnd & _).
  - exact sample_db_wf.
  - intros hf Hhf. discriminate Hhf.
  - by exists K, items', s'.
Defined.

(** ** The [last_run] stored for a location *)

Lemma stored_last_run_Some db path lineno testname t :
  wf db →
  stored_last_run db (path, lineno, testname) = Some t
  ↔ ∃ f ti, f ∈ test_file db ∧ f_path f = path ∧ ti ∈ test_item db
            ∧ same_item (f_id f) lineno testname ti ∧ i_last_run ti = t.
Proof.
  intros Hwf. split.
  - unfold stored_last_run. simpl.
    destruct (head (filter (λ f, f_path f = path) (test_file db)))
      as [f|] eqn:Hf; [|done].
    apply head_Some_elem_of, list_elem_of_filter in Hf as [Hp Hf].
    destruct (head (filter (same_item (f_id f) lineno testname)
                           (test_item db))) as [ti|] eqn:Hti; [|done].
    apply head_Some_elem_of, list_elem_of_filter in Hti as [Hs Hti].
    simpl. intros [= <-]. eauto 10.
  - intros (f & ti & Hf & Hp & Hti & Hs & <-).
    by apply (wf_stored_last_run db f ti).
Qed.

Lemma stored_last_run_is_Some db l :
  wf db → stored db l ↔ is_Some (stored_last_run db l).
Proof.
  intros Hwf. destruct l as [[path lineno] testname].
  rewrite stored_iff. split.
  - intros (f & ti & Hf & Hp & Hti & Hs). exists (i_last_run ti).
    apply stored_last_run_Some; eauto 10.
  - intros [t Ht]. apply stored_last_run_Some in Ht; [|done].
    destruct Ht as (f & ti & Hf & Hp & Hti & Hs & _). eauto 10.
Qed.

Section table_contents.

Variable db : DB.
Hypothesis Hwf : wf db.

Lemma stored_last_run_insert_item f lineno testname last_run :
  f ∈ test_file db →
  filter (same_item (f_id f) lineno testname) (test_item db) = [] →
  let new := mkTestItem (next_id (i_id <$> test_item db)) (f_id f)
                        lineno testname last_run in
  let db' := mkDB (test_file db) (test_item db ++ [new]) in
  ∀ l, stored_last_run db' l
       = if decide (l = (f_path f, lineno, testname)) then Some last_run
         else stored_last_run db l.
Proof.
  intros Hf Hnone new db' l.
  destruct (wf_insert_item db Hwf f lineno testname last_run Hf Hnone)
    as [Hwf' _]. fold new db' in Hwf'.
  destruct (decide (l = (f_path f, lineno, testname))) as [->|Hne].
  - apply stored_last_run_Some; [done|]. exists f, new.
    split_and!; try done. apply elem_of_app. right. left.
  - destruct l as [[p ln] n]. apply option_eq. intros t.
    rewrite !stored_last_run_Some by done. simpl. split.
    + intros (g & ti & Hg & Hp & [Hti|Hti]%elem_of_app & Hs & Ht);
        [by eauto 10|].
      apply list_elem_of_singleton in Hti as ->.
      destruct Hs as (Hid & Hl & Hn). simpl in *.
      assert (g = f) as ->
        by (by apply (NoDup_ids_inj f_id (test_file db)); [apply Hwf|..]).
      destruct Hne. congruence.
    + intros (g & ti & Hg & Hp & Hti & Hs & Ht). exists g, ti.
      split_and!; try done. apply elem_of_app. by left.
Qed.

Lemma stored_last_run_insert_file path hash :
  filter (λ f, f_path f = path) (test_file db) = [] →
  let newf := mkTestFile (next_id (f_id <$> test_file db)) path hash in
  let db' := mkDB (test_file db ++ [newf]) (test_item db) in
  wf db' ∧ ∀ l, stored_last_run db' l = stored_last_run db l.
Proof.
  intros Hnone newf db'. destruct Hwf as [Hp Hfi Hii Hik Hfs].
  assert (Hwf' : wf db').
  { constructor; simpl; try done.
    - rewrite fmap_app. apply NoDup_app.
      split_and!; [done| |apply NoDup_singleton].
      intros x [g [-> Hg]]%list_elem_of_fmap [Hx|[]%elem_of_nil]%elem_of_cons.
      by apply (filter_nil_none _ _ g Hnone Hg).
    - rewrite fmap_app. apply NoDup_app.
      split_and!; [done| |apply NoDup_singleton].
      intros x Hx [->|[]%elem_of_nil]%elem_of_cons.
      by apply next_id_fresh in Hx.
    - eapply Forall_impl; [exact Hfs|]. intros it Hit. simpl in Hit.
      rewrite fmap_app. apply elem_of_app. by left. }
  split; [done|]. intros [[p ln] n]. apply option_eq. intros t.
  rewrite !stored_last_run_Some by done. simpl. split.
  - intros (g & ti & [Hg|Hg]%elem_of_app & Hpg & Hti & Hs & Ht);
      [by eauto 10|].
    apply list_elem_of_singleton in Hg as ->. exfalso.
    destruct Hs as (Hid & _). simpl in Hid.
    rewrite Forall_forall in Hfs. specialize (Hfs ti Hti).
    rewrite Hid in Hfs. by apply next_id_fresh in Hfs.
  - intros (g & ti & Hg & Hpg & Hti & Hs & Ht). exists g, ti.
    split_and!; try done. apply elem_of_app. by left.
Qed.

Lemma stored_last_run_update f it lineno testname last_run :
  f ∈ test_file db → it ∈ test_item db →
  same_item (f_id f) lineno testname it →
  let db' := mkDB (test_file db)
    ((λ x, if decide (i_id x = i_id it) then with_last_run last_run x else x)
       <$> test_item db) in
  ∀ l, stored_last_run db' l
       = if decide (l = (f_path f, lineno, testname)) then Some last_run
         else stored_last_run db l.
Proof.
  intros Hf Hit Hsame db' l.
  destruct (wf_update_last_run db Hwf (i_id it) last_run) as [Hwf' _].
  fold db' in Hwf'.
  set (g := λ x, if decide (i_id x = i_id it)
                 then with_last_run last_run x else x).
  assert (Hkey : ∀ x, same_item (f_id f) lineno testname (g x)
                      ↔ same_item (f_id f) lineno testname x).
  { intros x. unfold g. by destruct (decide _). }
  destruct (decide (l = (f_path f, lineno, testname))) as [->|Hne].
  - apply stored_last_run_Some; [done|]. exists f, (g it).
    split_and!; try done.
    + by apply list_elem_of_fmap_2.
    + by apply Hkey.
    + unfold g. by rewrite decide_True.
  - destruct l as [[p ln] n]. apply option_eq. intros t.
    rewrite !stored_last_run_Some by done. simpl. fold g.
    assert (Hother : ∀ h x, h ∈ test_file db → f_path h = p →
              x ∈ test_item db → same_item (f_id h) ln n x → g x = x).
    { intros h x Hh Hp Hx Hs. unfold g.
      destruct (decide (i_id x = i_id it)) as [Hid|]; [|done].
      assert (x = it) as ->
        by (by apply (NoDup_ids_inj i_id (test_item db)); [apply Hwf|..]).
      destruct Hs as (Hid1 & Hl1 & Hn1), Hsame as (Hid2 & Hl2 & Hn2).
      rewrite Hid2 in Hid1.
      assert (h = f) as ->
        by (by apply (NoDup_ids_inj f_id (test_file db)); [apply Hwf|..]).
      destruct Hne. congruence. }
    split.
    + intros (h & x' & Hh & Hp & [x [-> Hx]]%list_elem_of_fmap & Hs & Ht).
      assert (Hs' : same_item (f_id h) ln n x).
      { unfold g in Hs. by destruct (decide _). }
      rewrite (Hother h x) in Ht by done. eauto 10.
    + intros (h & x & Hh & Hp & Hx & Hs & Ht). exists h, (g x).
      rewrite (Hother h x) by done. split_and!; try done.
      rewrite <- (Hother h x) at 1 by done. by apply list_elem_of_fmap_2.
Qed.

Lemma stored_last_run_delete f lineno testname :
  f ∈ test_file db →
  let db' := mkDB (test_file db)
    (filter (λ it, ¬ same_item (f_id f) lineno testname it) (test_item db)) in
  ∀ l, stored_last_run db' l
       = if decide (l = (f_path f, lineno, testname)) then None
         else stored_last_run db l.
Proof.
  intros Hf db' l.
  destruct (wf_delete_item db Hwf f lineno testname Hf) as [Hwf' Hst].
  fold db' in Hwf', Hst.
  destruct (decide (l = (f_path f, lineno, testname))) as [->|Hne].
  - destruct (stored_last_run db' _) as [t|] eqn:Ht; [|done].
    assert (Hs : stored db' (f_path f, lineno, testname))
      by (apply stored_last_run_is_Some; [done|by eexists]).
    apply Hst in Hs as [_ Hs]. done.
  - destruct l as [[p ln] n]. apply option_eq. intros t.
    rewrite !stored_last_run_Some by done. simpl. split.
    + intros (g & ti & Hg & Hp & [_ Hti]%list_elem_of_filter & Hs & Ht).
      eauto 10.
    + intros (g & ti & Hg & Hp & Hti & Hs & Ht). exists g, ti.
      split_and!; try done. apply list_elem_of_filter. split; [|done].
      intros Hs'. destruct Hs as (Hid & Hl & Hn), Hs' as (Hid' & Hl' & Hn').
      rewrite Hid in Hid'.
      assert (g = f) as ->
        by (by apply (NoDup_ids_inj f_id (test_file db)); [apply Hwf|..]).
      destruct Hne. congruence.
Qed.

Lemma stored_last_run_prune_files :
  let db' := mkDB
    (filter (λ f, Exists (λ it, i_file_id it = f_id f) (test_item db))
            (test_file db))
    (test_item db) in
  wf db' ∧ ∀ l, stored_last_run db' l = stored_last_run db l.
Proof.
  intros db'. destruct Hwf as [Hp Hfi Hii Hik Hfs].
  assert (Hwf' : wf db').
  { constructor; simpl; try done.
    - eapply sublist_NoDup; [exact Hp|]. apply fmap_sublist, sublist_filter.
    - eapply sublist_NoDup; [exact Hfi|]. apply fmap_sublist, sublist_filter.
    - apply Forall_forall. intros it Hit. rewrite Forall_forall in Hfs.
      destruct (proj1 (list_elem_of_fmap _ _ _) (Hfs it Hit)) as (f & Hid & Hf).
      rewrite Hid. apply list_elem_of_fmap_2, list_elem_of_filter.
      split; [|done]. apply Exists_exists. eauto. }
  split; [done|]. intros [[p ln] n]. apply option_eq. intros t.
  rewrite !stored_last_run_Some by done. simpl. split.
  - intros (g & ti & [_ Hg]%list_elem_of_filter & Hpg & Hti & Hs & Ht).
    eauto 10.
  - intros (g & ti & Hg & Hpg & Hti & Hs & Ht). exists g, ti.
    split_and!; try done. apply list_elem_of_filter. split; [|done].
    apply Exists_exists. exists ti. split; [done|]. apply Hs.
Qed.

End table_contents.

(** ** What the bulk update leaves in the store *)

Lemma add_or_update_content last_run hash_provider loc s :
  entered s = true →
  wf (working s) →
  provider_returns hash_provider →
  ∃ r s',
    add_or_update last_run hash_provider loc s = (Ok r, s')
    ∧ entered s' = true
    ∧ wf (working s')
    ∧ (∀ l, stored_last_run (working s') l
            = if decide (l = loc) then Some last_run
              else stored_last_run (working s) l)
    ∧ test_file (working s) `prefix_of` test_file (working s')
    ∧ (∀ p, p ∈ f_path <$> test_file (working s')
            ↔ p ∈ f_path <$> test_file (working s) ∨ p = loc.1.1).
Proof.
  intros Hent Hwf Hhp.
  destruct (add_or_update_spec last_run hash_provider loc s Hent Hwf Hhp)
    as (s' & Hrun & Hwf' & _).
  exists (bool_decide (stored (working s) loc)), s'.
  split; [done|]. split.
  { destruct (keeps_frame_add_or_update _ _ _ _ _ _ Hrun) as [-> _]. done. }
  split; [done|].
  revert Hrun. destruct loc as [[path lineno] testname]. cbn [fst snd].
  pose proof (wf_one_file _ path Hwf) as Hone.
  unfold add_or_update, try_get_file, _try_get_file, insert_file, insert_item,
    _try_get_item, update_last_run, scalar_one_or_none.
  destruct (filter (λ f, f_path f = path) (test_file (working s)))
    as [|f [|f2 fs]] eqn:Hfs; [| |simpl in Hone; lia].
  - (* a new file *)
    assert (∃ hash, match hash_provider with
                    | Some hp => h <- lift (hp (mkTestFile 0 path None)) ;;
                                 ret (Some h)
                    | None => ret None
                    end = ret hash) as [hash Hhash].
    { destruct hash_provider as [hp|]; [|by eexists].
      destruct (Hhp hp eq_refl (mkTestFile 0 path None)) as [h Hh].
      exists (Some h). by rewrite Hh. }
    rewrite Hhash. clear Hhash.
    destruct (wf_insert_file_item _ Hwf path hash lineno testname last_run Hfs)
      as (_ & Hnone & _).
    destruct (stored_last_run_insert_file _ Hwf path hash Hfs)
      as (Hwf1 & Hsame).
    munfold. rewrite Hent. simpl. rewrite Hfs. simpl.
    rewrite bool_decide_false.
    2:{ intros [g [Hp Hg]]%list_elem_of_fmap.
        by apply (filter_nil_none _ _ g Hfs Hg). }
    simpl. rewrite bool_decide_false.
    2:{ intros [_ (it & Hit & Hs)%Exists_exists].
        by apply (filter_nil_none _ _ it Hnone Hit). }
    simpl. intros [= _ <-]. simpl.
    set (newf := mkTestFile (next_id (f_id <$> test_file (working s)))
                            path hash) in *.
    split_and!.
    + intros l. rewrite <- (Hsame l).
      apply (stored_last_run_insert_item _ Hwf1 newf lineno testname
               last_run); [|done].
      simpl. apply elem_of_app. right. left.
    + by eexists.
    + intros p. rewrite fmap_app, elem_of_app. simpl.
      by rewrite list_elem_of_singleton.
  - (* a known file *)
    apply filter_singleton_elem in Hfs as Hf. destruct Hf as [Hf Hpath].
    pose proof (wf_one_item _ (f_id f) lineno testname Hwf) as Hone'.
    assert (Hpaths : ∀ p, p ∈ f_path <$> test_file (working s)
                          ↔ p ∈ f_path <$> test_file (working s) ∨ p = path).
    { intros p. split; [by left|]. intros [?| ->]; [done|].
      rewrite <- Hpath. by apply list_elem_of_fmap_2. }
    munfold. rewrite Hent. simpl. rewrite Hfs. simpl.
    rewrite bool_decide_true by left. simpl.
    destruct (filter (same_item (f_id f) lineno testname)
                     (test_item (working s))) as [|it [|it2 its]] eqn:Hits;
      [| |simpl in Hone'; lia].
    + (* a new item *)
      simpl. rewrite bool_decide_false.
      2:{ intros [_ (it & Hit & Hs)%Exists_exists].
          by apply (filter_nil_none _ _ it Hits Hit). }
      simpl. intros [= _ <-]. simpl. split_and!; [|done|done].
      rewrite <- Hpath. by apply (stored_last_run_insert_item _ Hwf f).
    + (* a known item *)
      apply filter_singleton_elem in Hits as Hit. destruct Hit as [Hit Hsame].
      simpl. intros [= _ <-]. simpl. split_and!; [|done|done].
      rewrite <- Hpath. by apply (stored_last_run_update _ Hwf f it).
Qed.

Lemma _try_delete_item_content loc s :
  wf (working s) →
  ∃ r s',
    _try_delete_item loc s = (Ok r, s')
    ∧ entered s' = entered s
    ∧ wf (working s')
    ∧ (∀ l, stored_last_run (working s') l
            = if decide (l = loc) then None
              else stored_last_run (working s) l)
    ∧ test_file (working s') = test_file (working s).
Proof.
  intros Hwf.
  destruct (_try_delete_item_spec loc s Hwf) as (s' & Hrun & Hwf' & Hst & _).
  exists (bool_decide (stored (working s) loc)), s'.
  split; [done|]. split.
  { by destruct (keeps_frame_try_delete_item _ _ _ _ Hrun) as [-> _]. }
  split; [done|].
  revert Hrun Hst. destruct loc as [[path lineno] testname].
  pose proof (wf_one_file _ path Hwf) as Hone.
  unfold _try_delete_item, _try_get_file, delete_items_where,
    scalar_one_or_none.
  destruct (filter (λ f, f_path f = path) (test_file (working s)))
    as [|f [|f2 fs]] eqn:Hfs; [| |simpl in Hone; lia].
  - munfold. simpl. rewrite Hfs. simpl. intros [= _ <-] Hst. simpl in *.
    split; [|done].
    intros l. destruct (decide (l = (path, lineno, testname))) as [->|]; [|done].
    destruct (stored_last_run (working s) _) as [t|] eqn:Ht; [|done].
    assert (Hs : stored (working s) (path, lineno, testname))
      by (apply stored_last_run_is_Some; [done|by eexists]).
    apply Hst in Hs as [_ Hs]. done.
  - apply filter_singleton_elem in Hfs as Hf. destruct Hf as [Hf Hpath].
    pose proof (wf_one_item _ (f_id f) lineno testname Hwf) as Hone'.
    munfold. simpl. rewrite Hfs. simpl.
    destruct (filter (same_item (f_id f) lineno testname)
                     (test_item (working s))) as [|it [|it2 its]] eqn:Hits;
      [| |simpl in Hone'; lia];
      simpl; intros [= _ <-] _; simpl; (split; [|done]); rewrite <- Hpath;
      by apply (stored_last_run_delete _ Hwf f).
Qed.

Lemma map_M_add_or_update_content last_run hash_provider :
  provider_returns hash_provider →
  ∀ locs s,
    entered s = true → wf (working s) →
    ∃ rs s',
      map_M (add_or_update last_run hash_provider) locs s = (Ok rs, s')
      ∧ entered s' = true
      ∧ wf (working s')
      ∧ (∀ l, stored_last_run (working s') l
              = if decide (l ∈ locs) then Some last_run
                else stored_last_run (working s) l)
      ∧ test_file (working s) `prefix_of` test_file (working s')
      ∧ (∀ p, p ∈ f_path <$> test_file (working s')
              ↔ p ∈ f_path <$> test_file (working s)
                ∨ p ∈ (λ l, l.1.1) <$> locs).
Proof.
  intros Hhp. induction locs as [|a locs IH]; intros s Hent Hwf.
  - exists [], s. split_and!; [done..| | |].
    + intros l. by destruct (decide (l ∈ [])) as [?%elem_of_nil|].
    + done.
    + intros p. split; [by left|]. by intros [?|?%elem_of_nil].
  - destruct (add_or_update_content last_run hash_provider a s Hent Hwf Hhp)
      as (r & s1 & Hrun1 & Hent1 & Hwf1 & Hc1 & Hpre1 & Hp1).
    destruct (IH s1 Hent1 Hwf1)
      as (rs & s' & Hrun & Hent' & Hwf' & Hc & Hpre & Hp).
    exists (r :: rs), s'. cbn [map_M]. unfold bind at 1. rewrite Hrun1.
    unfold bind at 1. rewrite Hrun. unfold ret.
    split_and!; [done..| | |].
    + intros l. rewrite Hc, Hc1.
      destruct (decide (l ∈ locs)) as [Hin|Hin].
      * rewrite decide_True; [done|by right].
      * destruct (decide (l = a)) as [->|Hne].
        -- rewrite decide_True; [done|left].
        -- rewrite decide_False; [done|].
           by intros [?|?]%elem_of_cons.
    + by etransitivity.
    + intros p. rewrite Hp, Hp1, fmap_cons, elem_of_cons. tauto.
Qed.

Lemma map_M_try_delete_item_content :
  ∀ locs s,
    wf (working s) →
    ∃ rs s',
      map_M _try_delete_item locs s = (Ok rs, s')
      ∧ entered s' = entered s
      ∧ wf (working s')
      ∧ (∀ l, stored_last_run (working s') l
              = if decide (l ∈ locs) then None
                else stored_last_run (working s) l)
      ∧ test_file (working s') = test_file (working s).
Proof.
  induction locs as [|a locs IH]; intros s Hwf.
  - exists [], s. split_and!; [done..| |done].
    intros l. by destruct (decide (l ∈ [])) as [?%elem_of_nil|].
  - destruct (_try_delete_item_content a s Hwf)
      as (r & s1 & Hrun1 & Hent1 & Hwf1 & Hc1 & Hf1).
    destruct (IH s1 Hwf1) as (rs & s' & Hrun & Hent' & Hwf' & Hc & Hf).
    exists (r :: rs), s'. cbn [map_M]. unfold bind at 1. rewrite Hrun1.
    unfold bind at 1. rewrite Hrun. unfold ret.
    split_and!; [done| |done| |].
    + by rewrite Hent', Hent1.
    + intros l. rewrite Hc, Hc1.
      destruct (decide (l ∈ locs)) as [Hin|Hin].
      * rewrite decide_True; [done|by right].
      * destruct (decide (l = a)) as [->|Hne].
        -- rewrite decide_True; [done|left].
        -- rewrite decide_False; [done|].
           by intros [?|?]%elem_of_cons.
    + by rewrite Hf, Hf1.
Qed.

(** The bulk update on a well-formed store: what the tables hold when it
    has returned. [files] is the table of files when the pruning runs. *)
Lemma bulk_add_update_remove_content last_run add_update try_delete
    hash_provider prune s :
  entered s = true →
  wf (working s) →
  provider_returns hash_provider →
  ∃ res s',
    bulk_add_update_remove last_run add_update try_delete hash_provider
                           prune s = (Ok res, s')
    ∧ entered s' = true
    ∧ wf (working s')
    ∧ durable s' = working s'
    ∧ (∀ l, stored_last_run (working s') l
            = if decide (l ∈ try_delete) then None
              else if decide (l ∈ add_update) then Some last_run
              else stored_last_run (working s) l)
    ∧ (prune = true →
       ∀ f, f ∈ test_file (working s') →
            Exists (λ it, i_file_id it = f_id f) (test_item (working s')))
    ∧ ∃ files,
        test_file (working s) `prefix_of` files
        ∧ NoDup (f_path <$> files)
        ∧ (∀ p, p ∈ f_path <$> files
                ↔ p ∈ f_path <$> test_file (working s)
                  ∨ p ∈ (λ l, l.1.1) <$> add_update)
        ∧ test_file (working s')
          = (if prune
             then filter (λ f, Exists (λ it, i_file_id it = f_id f)
                                      (test_item (working s'))) files
             else files)
        ∧ pruned_files res
          = (if prune
             then Some (Z.of_nat (length files)
                        - Z.of_nat (length (test_file (working s'))))
             else None).
Proof.
  intros Hent Hwf Hhp.
  destruct (map_M_add_or_update_content last_run hash_provider Hhp add_update
              (push_savepoint s) Hent Hwf)
    as (rs1 & s1 & Hrun1 & Hent1 & Hwf1 & Hc1 & Hpre1 & Hp1).
  destruct (map_M_try_delete_item_content try_delete s1 Hwf1)
    as (rs2 & s2 & Hrun2 & Hent2 & Hwf2 & Hc2 & Hf2).
  change (working (push_savepoint s)) with (working s) in *.
  assert (Hpr : ∃ pruned s3,
    (if prune then flush ;;; n <- _prune_files ;; ret (Some n)
     else ret None) s2 = (Ok pruned, s3)
    ∧ entered s3 = entered s2
    ∧ wf (working s3)
    ∧ (∀ l, stored_last_run (working s3) l = stored_last_run (working s2) l)
    ∧ (prune = true →
       ∀ f, f ∈ test_file (working s3) →
            Exists (λ it, i_file_id it = f_id f) (test_item (working s3)))
    ∧ test_file (working s3)
      = (if prune
         then filter (λ f, Exists (λ it, i_file_id it = f_id f)
                                  (test_item (working s3)))
                     (test_file (working s2))
         else test_file (working s2))
    ∧ pruned
      = (if prune
         then Some (Z.of_nat (length (test_file (working s2)))
                    - Z.of_nat (length (test_file (working s3))))
         else None)).
  { destruct prune.
    - destruct (stored_last_run_prune_files _ Hwf2) as [Hwf3 Hc3].
      unfold _prune_files. munfold. simpl. eexists _, _.
      split; [reflexivity|]. simpl. split_and!; try done.
      + intros _ f [Hf _]%list_elem_of_filter. done.
      + f_equal.
        pose proof (length_filter_split
                      (λ f, Exists (λ it, i_file_id it = f_id f)
                                   (test_item (working s2)))
                      (test_file (working s2))).
        lia.
    - eexists _, _. split; [reflexivity|]. by split_and!. }
  destruct Hpr as (pruned & s3 & Hrun3 & Hent3 & Hwf3 & Hc3 & Hfiles & Hf3
                   & Hpruned).
  unfold bulk_add_update_remove. unfold bind at 1. unfold _ensure_session.
  rewrite Hent. unfold bind at 1. unfold begin_nested.
  unfold bind at 1. rewrite Hrun1.
  destruct (count_truefalse rs1) as [upd add].
  unfold bind at 1. unfold flush at 1, ret at 1.
  unfold bind at 1. rewrite Hrun2.
  unfold bind at 1. rewrite Hrun3.
  unfold bind, commit, ret. cbn [release_savepoint fst snd].
  eexists _, _. split; [reflexivity|]. cbn.
  split_and!; try done.
  - by rewrite Hent3, Hent2.
  - intros l. by rewrite Hc3, Hc2, Hc1.
  - exists (test_file (working s2)). rewrite Hf2. split_and!; try done.
    + apply Hwf1.
    + by rewrite <- Hf2.
    + by rewrite <- Hf2.
Qed.

(** C2. In an open session over a well-formed store, a bulk update with
    duplicate-free [add_update] and [try_delete] and a hash provider that
    returns succeeds; [updated] is the number U of [add_update] locations
    that had a stored item, [added] is A - U, and [removed] is the number of
    [try_delete] locations that have a stored item when the deletions run
    (stored before the call, or just added), which for disjoint arguments is
    the number R stored before the call. The item count moves by
    [added - removed], and everything reaches the database file in the one
    commit at the end. The committed store is well-formed; it holds no item
    for a [try_delete] location, the argument [last_run] for every other
    [add_update] location, added or updated, and for every other location
    what it held before. The files are those of before and one for every new
    path of [add_update]; with [prune_files] set the files left without
    items are removed, none is left, and [pruned_files] is their number. A
    call that raises, on any store and for any arguments, leaves the view
    and the file as they were. *)
Theorem bulk_add_update_remove_counts (s : State) (last_run : Z)
    (add_update try_delete : list Location)
    (hash_provider : option TestFileHashProvider) (prune : bool) :
  entered s = true →
  wf (working s) →
  NoDup add_update →
  NoDup try_delete →
  provider_returns hash_provider →
  (∃ res s',
     bulk_add_update_remove last_run add_update try_delete hash_provider
                            prune s = (Ok res, s')
     ∧ updated res
         = Z.of_nat (length (filter (stored (working s)) add_update))
     ∧ added res
         = Z.of_nat (length add_update)
           - Z.of_nat (length (filter (stored (working s)) add_update))
     ∧ removed res
         = Z.of_nat (length (filter
                       (λ l, stored (working s) l ∨ l ∈ add_update)
                       try_delete))
     ∧ ((∀ l, l ∈ add_update → l ∉ try_delete) →
        removed res
          = Z.of_nat (length (filter (stored (working s)) try_delete)))
     ∧ (is_Some (pruned_files res) ↔ prune = true)
     ∧ Z.of_nat (length (test_item (working s')))
         = Z.of_nat (length (test_item (working s)))
           + added res - removed res
     ∧ durable s' = working s'
     ∧ past s' = durable s :: past s
     ∧ wf (durable s')
     ∧ (∀ l, stored_last_run (durable s') l
             = if decide (l ∈ try_delete) then None
               else if decide (l ∈ add_update) then Some last_run
               else stored_last_run (working s) l)
     ∧ (prune = true →
        ∀ f, f ∈ test_file (durable s') →
             Exists (λ it, i_file_id it = f_id f) (test_item (durable s')))
     ∧ ∃ files,
         test_file (working s) `prefix_of` files
         ∧ NoDup (f_path <$> files)
         ∧ (∀ p, p ∈ f_path <$> files
                 ↔ p ∈ f_path <$> test_file (working s)
                   ∨ p ∈ (λ l, l.1.1) <$> add_update)
         ∧ test_file (durable s')
           = (if prune
              then filter (λ f, Exists (λ it, i_file_id it = f_id f)
                                       (test_item (durable s'))) files
              else files)
         ∧ pruned_files res
           = (if prune
              then Some (Z.of_nat (length files)
                         - Z.of_nat (length (test_file (durable s'))))
              else None))
  ∧ (∀ s0 last_run0 add_update0 try_delete0 hash_provider0 prune0 e s1,
       bulk_add_update_remove last_run0 add_update0 try_delete0
                              hash_provider0 prune0 s0 = (Raise e, s1) →
       working s1 = working s0 ∧ durable s1 = durable s0 ∧ past s1 = past s0).
Proof.
  intros Hent Hwf Hnd1 Hnd2 Hhp. split;
    [|intros; by eapply bulk_add_update_remove_fails].
  destruct (bulk_add_update_remove_run s last_run add_update try_delete
              hash_provider prune Hent Hwf Hnd1 Hnd2 Hhp)
    as (res & s' & Hrun & Hupd & Hadd & Hrem & Hrem' & Hsome & Hlen & Hdur
        & Hpast).
  destruct (bulk_add_update_remove_content last_run add_update try_delete
              hash_provider prune s Hent Hwf Hhp)
    as (res2 & s2 & Hrun2 & _ & Hwf' & _ & Hc & Horph & files & Hpre & Hnd
        & Hpaths & Hfiles & Hpruned).
  rewrite Hrun in Hrun2. injection Hrun2 as <- <-.
  exists res, s'. rewrite Hdur.
  split_and!; try done.
  by exists files.
Qed.

Lemma bulk_add_update_remove_counts_witness :
  ∃ res s',
    bulk_add_update_remove 100
      [("abc", Some 0, "t1"); ("new", Some 3, "t9")]
      [("def", Some 0, "t5"); ("def", Some 1, "t6")] None true sample_state
    = (Ok res, s')
    ∧ added res = 1 ∧ updated res = 1 ∧ removed res = 1
    ∧ pruned_files res = Some 1
    ∧ durable s' = working s'
    ∧ stored_last_run (durable s') ("abc", Some 0, "t1") = Some 100
    ∧ stored_last_run (durable s') ("abc", Some 1, "t2") = Some 11
    ∧ stored_last_run (durable s') ("new", Some 3, "t9") = Some 100
    ∧ stored_last_run (durable s') ("def", Some 0, "t5") = None
    ∧ f_path <$> test_file (durable s') = ["abc"; "new"].
Proof.
  destruct (bulk_add_update_remove_counts sample_state 100
              [("abc", Some 0, "t1"); ("new", Some 3, "t9")]
              [("def", Some 0, "t5"); ("def", Some 1, "t6")] None true)
    as [(res & s' & Hrun & Hupd & Hadd & Hrem & _ & _ & _ & Hdur & _ & _
         & Hc & _) _].
  - reflexivity.
  - exact sample_db_wf.
  - compute_done.
  - compute_done.
  - intros hp Hhp. discriminate Hhp.
  - exists res, s'. split_and!; [exact Hrun| | | | |exact Hdur| | | | |].
    + rewrite Hadd. reflexivity.
    + rewrite Hupd. reflexivity.
    + rewrite Hrem. reflexivity.
    + vm_compute in Hrun. by injection Hrun as <- _.
    + rewrite Hc. reflexivity.
    + rewrite Hc. reflexivity.
    + rewrite Hc. reflexivity.
    + rewrite Hc. reflexivity.
    + vm_compute in Hrun. by injection Hrun as _ <-.
Defined.

(** ** More on [count_truefalse] and [move_idx_to_end] *)

(** X1. [count_truefalse] returns the number of [True]s followed by the
    number of [False]s of its argument, and the two add up to its length. *)
Theorem count_truefalse_counts (it : list bool) :
  count_truefalse it
  = (Z.of_nat (length (filter (λ b, b = true) it)),
     Z.of_nat (length (filter (λ b, b = false) it)))
  ∧ (count_truefalse it).1 + (count_truefalse it).2 = Z.of_nat (length it).
Proof.
  assert (Heq : count_truefalse it
    = (Z.of_nat (length (filter (λ b, b = true) it)),
       Z.of_nat (length (filter (λ b, b = false) it)))).
  { unfold count_truefalse.
    rewrite <- (list_fmap_id it) at 1.
    rewrite (fmap_ext_in id (λ b, bool_decide (b = true)) it).
    2:{ intros [] _; done. }
    rewrite (count_truefalse_from_filter (λ b, b = true)). f_equal.
    rewrite Z.add_0_l. do 2 f_equal.
    apply filter_ext_in. intros [] _; split; congruence. }
  split; [done|]. rewrite Heq. cbn [fst snd].
  rewrite (length_filter_split (λ b, b = true) it).
  rewrite (filter_ext_in (λ b, ¬ b = true) (λ b, b = false) it).
  2:{ intros [] _; split; congruence. }
  lia.
Qed.













Lemma pick_from_partition {A} (P : Z → Prop) `{∀ i, Decision (P i)} i
    (l : list A) :
  pick_from (λ j, ¬ P j) i l ++ pick_from P i l ≡ₚ l.
Proof.
  revert i. induction l as [|x l IH]; intros i; [done|].
  cbn [pick_from]. specialize (IH (i + 1)).
  destruct (decide (P i)), (decide (¬ P i)); try tauto.
  - rewrite <- Permutation_middle. by constructor.
  - cbn [app]. by constructor.
Qed.











Lemma wf_empty_db : wf empty_db.
Proof. constructor; simpl; constructor. Qed.

Lemma durable_exit s : durable (snd (__exit__ s)) = durable s.
Proof. unfold __exit__. simpl. by destruct (entered s). Qed.

(** X7. The lazy broker at the end of a regular run, on a well-formed
    database file: unless the store is saturated and reset, which leaves it
    empty, the file afterwards holds no item for a location that failed,
    the time of the call as [last_run] for every location that passed and
    did not fail, and for every other location what it held before; with
    pruning on, no file without items is left. *)
Theorem lazy_sessionfinish_store (self : StatefulSamplesBroker)
    (exitstatus now num_tests : Z) (s : State) :
  _is_error_exitstatus exitstatus = false →
  _engine self = true →
  _num_tests self = Some num_tests →
  disposed s = false →
  wf (durable s) →
  (_hash_testfiles self = true → ∀ path, ∃ h, _hash_file self path = Ok h) →
  let passed : gset Location := list_to_set (_passed_tests self) in
  let failed : gset Location := list_to_set (_failed_tests self) in
  ∃ s',
    _sessionfinish self exitstatus now s = (Ok tt, s')
    ∧ wf (durable s')
    ∧ if bool_decide (Z.of_nat (size (passed ∖ failed)) = num_tests)
         && _reset_on_saturation self
      then durable s' = empty_db
      else (∀ l, stored_last_run (durable s') l
                 = if decide (l ∈ failed) then None
                   else if decide (l ∈ passed) then Some now
                   else stored_last_run (durable s) l)
           ∧ (_no_pruning self = false →
              ∀ f, f ∈ test_file (durable s') →
                   Exists (λ it, i_file_id it = f_id f)
                          (test_item (durable s'))).
Proof.
  intros Hexit Heng Hnum Hdisp Hwf Hhash passed failed.
  unfold _sessionfinish. rewrite Hexit, Hnum, Heng. cbn [negb].
  fold passed failed.
  destruct (bool_decide (Z.of_nat (size (passed ∖ failed)) = num_tests)
            && _reset_on_saturation self) eqn:Hsat.
  - unfold bind at 1. rewrite with_new_session_eq by done.
    match goal with
    | |- context [drop_all_entries ?st] =>
        destruct (drop_all_entries_eq st eq_refl)
          as (s1 & -> & _ & Hd & _)
    end.
    eexists. split; [reflexivity|]. rewrite durable_exit, Hd.
    split; [apply wf_empty_db|done].
  - unfold bind at 1. rewrite with_new_session_eq by done.
    match goal with
    | |- context [bulk_add_update_remove now ?au ?td ?hp ?pr ?st] =>
        destruct (bulk_add_update_remove_content now au td hp pr st)
          as (res & s1 & -> & _ & Hwf1 & Hd1 & Hc & Hfiles & _)
    end; [done|exact Hwf| |].
    { intros hp Hhp f. destruct (_hash_testfiles self); [|done].
      injection Hhp as <-. by apply Hhash. }
    cbn [working] in Hc.
    eexists. split; [reflexivity|]. rewrite durable_exit, Hd1.
    split_and!; [done| |].
    + intros l. rewrite Hc.
      destruct (decide (l ∈ failed)) as [Hf|Hf].
      * rewrite decide_True; [done|by apply elem_of_elements].
      * rewrite decide_False by (by rewrite elem_of_elements).
        destruct (decide (l ∈ passed)) as [Hp|Hp].
        -- rewrite decide_True; [done|].
           apply elem_of_elements, elem_of_difference. done.
        -- rewrite decide_False; [done|].
           rewrite elem_of_elements, elem_of_difference. tauto.
    + intros Hprune. apply Hfiles. by rewrite Hprune.
Qed.


Lemma lazy_sessionfinish_store_witness :
  let self := mkStatefulSamplesBroker false false false false true (Some 4)
                false [("def", Some 0, "t5")]
                [("abc", Some 0, "t1"); ("def", Some 0, "t5");
                 ("new", Some 3, "t9")]
                id (λ _, Raise OSError) in
  ∃ s',
    _sessionfinish self 1 100 (fresh_state sample_db) = (Ok tt, s')
    ∧ stored_last_run (durable s') ("abc", Some 0, "t1") = Some 100
    ∧ stored_last_run (durable s') ("abc", Some 1, "t2") = Some 11
    ∧ stored_last_run (durable s') ("def", Some 0, "t5") = None
    ∧ stored_last_run (durable s') ("new", Some 3, "t9") = Some 100.
Proof.
  intros self.
  pose proof (lazy_sessionfinish_store self 1 100 4 (fresh_state sample_db)
                eq_refl eq_refl eq_refl eq_refl sample_db_wf) as H.
  destruct H as (s' & Hrun & _ & Hc).
  { discriminate. }
  cbn [_reset_on_saturation self] in Hc. rewrite andb_false_r in Hc.
  destruct Hc as [Hc _].
  exists s'. split; [exact Hrun|]. rewrite !Hc.
  split_and!; vm_compute; reflexivity.
Defined.

(** ** More on the methods of [Session] *)

(** X8. A session that was not entered: every method of [Session] raises
    [InactiveSessionError] and changes nothing, and this is the state
    [new_session] hands out. *)
Theorem session_methods_need_enter (s : State) :
  entered s = false →
  (∀ path, try_get_file path s = (Raise InactiveSessionError, s))
  ∧ (∀ path hash, add_file path hash s = (Raise InactiveSessionError, s))
  ∧ (∀ file lineno testname,
       try_get_item file lineno testname s = (Raise InactiveSessionError, s))
  ∧ (∀ file h, invalidate_hash file h s = (Raise InactiveSessionError, s))
  ∧ prune_files s = (Raise InactiveSessionError, s)
  ∧ (∀ known, prune_items known s = (Raise InactiveSessionError, s))
  ∧ (∀ file lineno testname last_run,
       add_or_update_item file lineno testname last_run s
       = (Raise InactiveSessionError, s))
  ∧ (∀ location, try_delete_item location s = (Raise InactiveSessionError, s))
  ∧ (∀ last_run add_update try_delete hash_provider prune,
       bulk_add_update_remove last_run add_update try_delete hash_provider
                              prune s
       = (Raise InactiveSessionError, s))
  ∧ drop_all_entries s = (Raise InactiveSessionError, s)
  ∧ (∀ s0, disposed s0 = false →
           ∃ s1, new_session s0 = (Ok tt, s1) ∧ entered s1 = false).
Proof.
  intros Hent.
  assert (Hm : ∀ A (m : M A),
            (_ensure_session ;;; m) s = (Raise InactiveSessionError, s)).
  { intros A m. unfold bind, _ensure_session. by rewrite Hent. }
  split_and!; intros; try apply Hm.
  unfold new_session, bind, _ensure_not_disposed.
  match goal with H : disposed _ = false |- _ => rewrite H end.
  by eexists.
Qed.

Lemma session_methods_need_enter_witness :
  ∃ s1,
    new_session (fresh_state sample_db) = (Ok tt, s1)
    ∧ try_get_file "abc" s1 = (Raise InactiveSessionError, s1)
    ∧ drop_all_entries s1 = (Raise InactiveSessionError, s1).
Proof.
  eexists. split; [reflexivity|].
  destruct (session_methods_need_enter
              (snd (new_session (fresh_state sample_db))) eq_refl)
    as (Hget & _ & _ & _ & _ & _ & _ & _ & _ & Hdrop & _).
  split; [apply Hget|apply Hdrop].
Defined.

(** X9. A new session holds no [TestFile] object. Whatever file is handed
    to it, [try_get_item] and [add_or_update_item] raise
    [DetachedInstanceError] and the database file stays as it was; a file
    the session has itself returned from [try_get_file] is accepted. *)
Theorem file_detached_in_new_session (s : State) (file : TestFile)
    (lineno : option Z) (testname : string) (last_run : Z) :
  disposed s = false →
  wf (durable s) →
  (∃ s1, with_new_session (try_get_item file lineno testname) s
           = (Raise DetachedInstanceError, s1)
         ∧ durable s1 = durable s ∧ past s1 = past s)
  ∧ (∃ s2, with_new_session
             (add_or_update_item file lineno testname last_run) s
           = (Raise DetachedInstanceError, s2)
         ∧ durable s2 = durable s ∧ past s2 = past s)
  ∧ (file ∈ test_file (durable s) →
     ∃ r s3,
       with_new_session
         (db_file <- try_get_file (f_path file) ;;
          match db_file with
          | Some db_file => try_get_item db_file lineno testname
          | None => ret None
          end) s
       = (Ok r, s3)
       ∧ (∀ ti, r = Some ti ↔
                ti ∈ test_item (durable s)
                ∧ same_item (f_id file) lineno testname ti)).
Proof.
  intros Hdisp Hwf. split_and!.
  - rewrite with_new_session_eq by done.
    unfold try_get_item, _try_get_item. munfold. simpl.
    eexists. split; [reflexivity|]. done.
  - rewrite with_new_session_eq by done.
    unfold add_or_update_item, _try_get_item. munfold. simpl.
    eexists. split; [reflexivity|]. done.
  - intros Hfile. rewrite with_new_session_eq by done.
    pose proof (wf_one_file _ (f_path file) Hwf) as Hone.
    pose proof (wf_one_item _ (f_id file) lineno testname Hwf) as Hone'.
    unfold try_get_file, _try_get_file, try_get_item, _try_get_item,
      scalar_one_or_none. munfold. simpl.
    destruct (filter (λ f, f_path f = f_path file) (test_file (durable s)))
      as [|f [|f2 fs]] eqn:Hfs; [| |simpl in Hone; lia].
    { by destruct (filter_nil_none _ _ file Hfs Hfile). }
    apply filter_singleton_elem in Hfs as Hf. destruct Hf as [Hf Hpath].
    assert (f = file) as ->.
    { by apply (NoDup_ids_inj f_path (test_file (durable s)));
        [apply Hwf|..]. }
    simpl. rewrite bool_decide_true by left. simpl.
    destruct (filter (same_item (f_id file) lineno testname)
                     (test_item (durable s))) as [|it [|it2 its]] eqn:Hits;
      [| |simpl in Hone'; lia]; simpl.
    + eexists _, _. split; [reflexivity|]. intros ti. split; [done|].
      intros [Hti Hs]. by destruct (filter_nil_none _ _ ti Hits Hti).
    + apply filter_singleton_elem in Hits as Hit. destruct Hit as [Hit Hs].
      eexists _, _. split; [reflexivity|]. intros ti. split.
      * by intros [= <-].
      * intros [Hti Hs']. f_equal.
        apply (NoDup_ids_inj item_key (test_item (durable s)));
          [apply Hwf|done|done|].
        apply same_item_key in Hs, Hs'. congruence.
Qed.

Lemma file_detached_in_new_session_witness :
  ∃ s1 s3,
    with_new_session
      (try_get_item (mkTestFile 1 "abc" (Some "123")) (Some 0) "t1")
      (fresh_state sample_db)
    = (Raise DetachedInstanceError, s1)
    ∧ with_new_session
        (db_file <- try_get_file "abc" ;;
         match db_file with
         | Some db_file => try_get_item db_file (Some 0) "t1"
         | None => ret None
         end) (fresh_state sample_db)
      = (Ok (Some (mkTestItem 1 1 (Some 0) "t1" 10)), s3).
Proof.
  destruct (file_detached_in_new_session (fresh_state sample_db)
              (mkTestFile 1 "abc" (Some "123")) (Some 0) "t1" 0 eq_refl
              sample_db_wf) as ((s1 & Hr1 & _) & _ & Hok).
  destruct Hok as (r & s3 & Hr3 & Hiff); [left|].
  exists s1, s3. split; [exact Hr1|].
  assert (r = Some (mkTestItem 1 1 (Some 0) "t1" 10)) as <-;
    [|exact Hr3].
  apply Hiff. split; [left|done].
Defined.

(** X10. [add_file] with a path that no stored file has: the file gets a
    fresh id, is appended to the table with the given hash and committed,
    the items are untouched, the store stays well-formed, and
    [try_get_file] with the path then returns this file. *)
Theorem add_file_then_try_get_file (s : State) (path : string)
    (hash : option bytes) :
  entered s = true →
  wf (working s) →
  path ∉ (f_path <$> test_file (working s)) →
  ∃ f s1 s2,
    add_file path hash s = (Ok f, s1)
    ∧ f_path f = path ∧ f_last_hash f = hash
    ∧ (f_id f ∉ f_id <$> test_file (working s))
    ∧ working s1 = mkDB (test_file (working s) ++ [f]) (test_item (working s))
    ∧ durable s1 = working s1
    ∧ past s1 = durable s :: past s
    ∧ wf (working s1)
    ∧ f_id f ∈ attached s1
    ∧ try_get_file path s1 = (Ok (Some f), s2)
    ∧ working s2 = working s1 ∧ durable s2 = durable s1.
Proof.
  intros Hent Hwf Hnew.
  assert (Hnone : filter (λ f, f_path f = path) (test_file (working s)) = []).
  { apply filter_none. intros g Hg Hp. apply Hnew. rewrite <- Hp.
    by apply list_elem_of_fmap_2. }
  destruct (stored_last_run_insert_file _ Hwf path hash Hnone) as [Hwf' _].
  unfold add_file, insert_file. munfold. rewrite Hent. simpl.
  rewrite bool_decide_false by done. simpl.
  eexists _, _, _. split; [reflexivity|]. simpl.
  split_and!; try done.
  - apply next_id_fresh.
  - left.
  - unfold try_get_file, _try_get_file, scalar_one_or_none. munfold. simpl.
    rewrite Hent. simpl. rewrite filter_app, Hnone. simpl.
    rewrite filter_cons_True by done. simpl. reflexivity.
  - done.
  - done.
Qed.

Lemma add_file_then_try_get_file_witness :
  ∃ s1 s2,
    add_file "new" (Some "00") sample_state
      = (Ok (mkTestFile 3 "new" (Some "00")), s1)
    ∧ try_get_file "new" s1 = (Ok (Some (mkTestFile 3 "new" (Some "00"))), s2).
Proof.
  destruct (add_file_then_try_get_file sample_state "new" (Some "00"))
    as (f & s1 & s2 & Hadd & _ & _ & _ & _ & _ & _ & _ & _ & Hget & _).
  - reflexivity.
  - exact sample_db_wf.
  - compute_done.
  - exists s1, s2.
    assert (f = mkTestFile 3 "new" (Some "00")) as ->.
    { vm_compute in Hadd. by injection Hadd as <- _. }
    split; [exact Hadd|exact Hget].
Defined.

(** X11. [add_file] with a path that a stored file has raises
    [IntegrityError]; nothing is committed and the tables are as they
    were. *)
Theorem add_file_known_path (s : State) (path : string)
    (hash : option bytes) :
  entered s = true →
  path ∈ f_path <$> test_file (working s) →
  ∃ s', add_file path hash s = (Raise IntegrityError, s')
        ∧ working s' = working s ∧ durable s' = durable s
        ∧ past s' = past s.
Proof.
  intros Hent Hin. unfold add_file, insert_file. munfold. rewrite Hent.
  simpl. rewrite bool_decide_true by done. simpl.
  eexists. split; [reflexivity|]. done.
Qed.

Lemma add_file_known_path_witness :
  ∃ s', add_file "abc" None sample_state = (Raise IntegrityError, s')
        ∧ durable s' = sample_db.
Proof.
  destruct (add_file_known_path sample_state "abc" None)
    as (s' & Hrun & _ & Hd & _).
  - reflexivity.
  - compute_done.
  - exists s'. split; [exact Hrun|exact Hd].
Defined.

Lemma prune_files_eq (s : State) :
  entered s = true →
  prune_files s
  = (Ok (Z.of_nat (length
           (filter (λ f, ¬ Exists (λ it, i_file_id it = f_id f)
                                  (test_item (working s)))
                   (test_file (working s))))),
     committed
       (mkDB (filter (λ f, Exists (λ it, i_file_id it = f_id f)
                                  (test_item (working s)))
                     (test_file (working s)))
             (test_item (working s))) s).
Proof.
  intros Hent. unfold prune_files, _prune_files. munfold.
  by rewrite Hent.
Qed.

(** X12. [prune_files] in an open session removes exactly the files that
    own no item and returns their number; the items, and with them what is
    stored for every location, are untouched, the store stays well-formed,
    the change is committed at once, and a second call finds nothing to
    remove. *)
Theorem prune_files_exact_idempotent (s : State) :
  entered s = true →
  let has_items db (f : TestFile) :=
    Exists (λ it, i_file_id it = f_id f) (test_item db) in
  ∃ s1 s2,
    prune_files s
      = (Ok (Z.of_nat (length (filter (λ f, ¬ has_items (working s) f)
                                      (test_file (working s))))), s1)
    ∧ working s1
        = mkDB (filter (has_items (working s)) (test_file (working s)))
               (test_item (working s))
    ∧ durable s1 = working s1
    ∧ past s1 = durable s :: past s
    ∧ (wf (working s) →
       wf (working s1)
       ∧ ∀ l, stored_last_run (working s1) l = stored_last_run (working s) l)
    ∧ prune_files s1 = (Ok 0, s2)
    ∧ working s2 = working s1.
Proof.
  intros Hent has_items. rewrite (prune_files_eq s Hent).
  eexists _, _. split; [reflexivity|].
  rewrite prune_files_eq by done. cbn [committed working durable past].
  split_and!; try done.
  - intros Hwf. by apply stored_last_run_prune_files.
  - rewrite filter_none; [reflexivity|].
    intros f [Hf _]%list_elem_of_filter Hn. by apply Hn.
  - cbn [committed working test_file test_item]. f_equal.
    apply filter_all. by intros f [? _]%list_elem_of_filter.
Qed.

Lemma prune_files_exact_idempotent_witness :
  ∃ s1 s2,
    prune_files (set_working
                   (mkDB (test_file sample_db)
                         [mkTestItem 1 1 (Some 0) "t1" 10]) sample_state)
      = (Ok 1, s1)
    ∧ test_file (working s1) = [mkTestFile 1 "abc" (Some "123")]
    ∧ prune_files s1 = (Ok 0, s2).
Proof.
  destruct (prune_files_exact_idempotent
              (set_working (mkDB (test_file sample_db)
                                 [mkTestItem 1 1 (Some 0) "t1" 10])
                           sample_state) eq_refl)
    as (s1 & s2 & Hrun & Hw & _ & _ & _ & Hrun2 & _).
  exists s1, s2. split_and!; [exact Hrun| |exact Hrun2].
  rewrite Hw. reflexivity.
Defined.

Lemma drop_all_entries_run (s : State) :
  entered s = true →
  drop_all_entries s
  = (Ok (mkDropAllEntriesResult
           (Z.of_nat (length (test_file (working s))))
           (Z.of_nat (length (test_item (working s))))),
     committed empty_db s).
Proof.
  intros Hent. unfold drop_all_entries, delete_items_where. munfold.
  rewrite Hent. simpl.
  rewrite (filter_all (λ _ : TestItem, True)) by done.
  by rewrite (filter_none (λ _ : TestItem, ¬ True))
    by (intros x _ Hn; by apply Hn).
Qed.

(** X13. [drop_all_entries] in an open session returns the numbers of files
    and of items the tables held, leaves both tables empty and commits; a
    second call returns zero twice, and no path is found afterwards. *)
Theorem drop_all_entries_empties (s : State) :
  entered s = true →
  ∃ s1 s2,
    drop_all_entries s
      = (Ok (mkDropAllEntriesResult
               (Z.of_nat (length (test_file (working s))))
               (Z.of_nat (length (test_item (working s))))), s1)
    ∧ working s1 = empty_db
    ∧ durable s1 = empty_db
    ∧ past s1 = durable s :: past s
    ∧ drop_all_entries s1 = (Ok (mkDropAllEntriesResult 0 0), s2)
    ∧ durable s2 = empty_db
    ∧ (∀ path, ∃ s3, try_get_file path s1 = (Ok None, s3))
    ∧ (∀ l, stored_last_run (durable s1) l = None).
Proof.
  intros Hent. rewrite (drop_all_entries_run s Hent).
  eexists _, _. split; [reflexivity|].
  rewrite drop_all_entries_run by done.
  split_and!; try done.
  intros path. unfold try_get_file, _try_get_file. munfold. simpl.
  rewrite Hent. by eexists.
Qed.

Lemma drop_all_entries_empties_witness :
  ∃ s1, drop_all_entries sample_state
        = (Ok (mkDropAllEntriesResult 2 3), s1)
        ∧ durable s1 = empty_db.
Proof.
  destruct (drop_all_entries_empties sample_state eq_refl)
    as (s1 & s2 & Hrun & _ & Hd & _).
  exists s1. split; [exact Hrun|exact Hd].
Defined.

(** ** More on the collection hook *)

(** X14. The collection hook on a well-formed database file, with a hash
    function that returns and a shuffle that permutes: it returns, it
    records the number of collected items, and the list it leaves is a
    permutation of the collected items; no test is lost and none comes
    twice, whatever the store holds. *)
Theorem collection_keeps_the_items (self : StatefulSamplesBroker)
    (items : list Item) (now : Z) (s : State) :
  wf (durable s) →
  hash_func_returns (if _hash_testfiles self then Some (_hash_file self)
                     else None) →
  _shuffle_items self items ≡ₚ items →
  ∃ items' s',
    pytest_collection_modifyitems self items now s
      = (Ok tt, (set_collected (Z.of_nat (length items)) self, items'), s')
    ∧ items' ≡ₚ items.
Proof.
  intros Hwf Hhash Hshuffle.
  destruct (collection_moves_known_items_last self items now s Hwf Hhash)
    as (K & items' & s' & Hrun & _ & _ & Hitems).
  set (shown := if _randomize self then _shuffle_items self items else items)
    in *.
  assert (Hshown : shown ≡ₚ items) by (unfold shown; by destruct (_randomize self)).
  exists items', s'. split.
  - by rewrite Hrun, Hshown.
  - destruct (decide _) as [_|_]; [by rewrite Hitems|].
    destruct Hitems as (moved & -> & Hmoved).
    rewrite (proj1 Hmoved), <- Hshown.
    apply (pick_from_partition (λ i, i ∈ K)).
Qed.

Lemma collection_keeps_the_items_witness :
  ∃ items' s',
    pytest_collection_modifyitems (sample_broker false) sample_items 100
      (fresh_state sample_db)
    = (Ok tt, (set_collected 3 (sample_broker false), items'), s')
    ∧ items' ≡ₚ sample_items.
Proof.
  apply (collection_keeps_the_items (sample_broker false) sample_items 100
           (fresh_state sample_db)).
  - exact sample_db_wf.
  - intros hf Hhf. discriminate Hhf.
  - reflexivity.
Defined.

Lemma shrinks_prune db known :
  shrinks db (mkDB (test_file db) (filter (kept db known) (test_item db))).
Proof. split; [done|]. apply sublist_filter. Qed.

Lemma kept_location db known f ti :
  wf db → f ∈ test_file db → ti ∈ test_item db → f_id f = i_file_id ti →
  kept db known ti → (f_path f, i_lineno ti, i_testname ti) ∈ known.
Proof.
  intros Hwf Hf Hti Hid. unfold kept, item_location, item_file.
  destruct (head (filter (λ g, f_id g = i_file_id ti) (test_file db)))
    as [g|] eqn:Hg; [|done].
  apply head_Some_elem_of, list_elem_of_filter in Hg as [Hgid Hg].
  assert (g = f) as ->; [|done].
  apply (NoDup_ids_inj f_id (test_file db)); [apply Hwf|done|done|congruence].
Qed.

(** What the session of the collection hook leaves in the store when the
    items are pruned. *)
Lemma _collection_session_store self shown now s :
  entered s = true → wf (working s) → durable s = working s →
  hash_func_returns (if _hash_testfiles self then Some (_hash_file self)
                     else None) →
  _no_pruning self = false →
  ∃ r s',
    _collection_session self shown (Z.of_nat (length shown)) now s
      = (Ok r, s')
    ∧ wf (durable s')
    ∧ ∀ l t, stored_last_run (durable s') l = Some t →
             l ∈ location <$> shown
             ∧ stored_last_run (working s) l = Some t.
Proof.
  intros Hent Hwf Hdur Hhash Hprune.
  destruct (_compare_against_database_spec shown _ now s Hwf Hhash Hent)
    as (res & s1 & Hrun & Hent1 & Hshr & _).
  pose proof (shrinks_wf _ _ Hwf Hshr) as Hwf1.
  unfold _collection_session. unfold bind at 1. rewrite Hrun.
  rewrite Hprune. cbn [negb].
  destruct (prune_items_run (list_to_set (location <$> shown)) s1)
    as (s2 & Hp & Hw2 & Hd2 & _);
    [done|apply Hwf1|by apply wf_items_have_files|].
  assert (Hpruned : ∃ r,
    ((prune_items (list_to_set (location <$> shown)) ;;; ret tt) ;;;
     ret (Some res)) s1 = (Ok r, s2)).
  { exists (Some res). unfold bind. by rewrite Hp. }
  destruct Hpruned as (r2 & Hpruned).
  assert (Hshr2 : shrinks (working s) (working s2)).
  { eapply shrinks_trans; [exact Hshr|]. rewrite Hw2. apply shrinks_prune. }
  assert (Hstore : wf (durable s2)
            ∧ ∀ l t, stored_last_run (durable s2) l = Some t →
                     l ∈ location <$> shown
                     ∧ stored_last_run (working s) l = Some t).
  { rewrite Hd2. pose proof (shrinks_wf _ _ Hwf Hshr2) as Hwf2.
    split; [done|]. intros [[p ln] n] t Ht.
    apply stored_last_run_Some in Ht as (f & ti & Hf & Hpath & Hti & Hs & Hlr);
      [|done].
    split.
    - rewrite Hw2 in Hf, Hti. cbn [test_file test_item] in Hf, Hti.
      apply list_elem_of_filter in Hti as [Hkept Hti].
      destruct Hs as (Hid & Hln & Hn).
      pose proof (kept_location _ _ f ti Hwf1 Hf Hti (eq_sym Hid) Hkept)
        as Hin.
      rewrite Hpath, Hln, Hn in Hin.
      by apply elem_of_list_to_set in Hin.
    - rewrite <- Hlr.
      by apply (shrinks_stored_last_run (working s) (working s2) f ti). }
  destruct (decide (Z.of_nat (length (known_test_indices res))
                    = Z.of_nat (length shown))) as [Hsat|Hsat].
  - destruct (_reset_on_saturation self) eqn:Hreset.
    + destruct (drop_all_entries_eq s1 Hent1) as (s3 & Hdrop & _ & Hd3 & _).
      unfold bind at 1. unfold bind at 1. rewrite Hdrop.
      eexists _, _. split; [reflexivity|]. rewrite Hd3.
      split; [apply wf_empty_db|]. intros l t Ht. discriminate Ht.
    + unfold bind at 1. unfold ret at 1.
      eexists _, _. split; [exact Hpruned|]. done.
  - unfold bind at 1. unfold ret at 1.
    eexists _, _. split; [exact Hpruned|]. done.
Qed.

(** X15. The collection hook with pruning on, for a non-empty list of
    collected items, a well-formed database file and a hash function that
    returns: the store it leaves holds an item only for locations of
    collected items, each with the [last_run] it had before. Whatever was
    stored for a test that is no longer collected is gone. *)
Theorem collection_prunes_the_store (self : StatefulSamplesBroker)
    (items : list Item) (now : Z) (s : State) :
  wf (durable s) →
  hash_func_returns (if _hash_testfiles self then Some (_hash_file self)
                     else None) →
  _shuffle_items self items ≡ₚ items →
  _no_pruning self = false →
  items ≠ [] →
  ∃ r self' items' s',
    pytest_collection_modifyitems self items now s = (r, (self', items'), s')
    ∧ wf (durable s')
    ∧ ∀ l t, stored_last_run (durable s') l = Some t →
             l ∈ location <$> items
             ∧ stored_last_run (durable s) l = Some t.
Proof.
  intros Hwf Hhash Hshuffle Hprune Hne.
  unfold pytest_collection_modifyitems.
  set (shown := if _randomize self then _shuffle_items self items else items).
  assert (Hshown : shown ≡ₚ items)
    by (unfold shown; by destruct (_randomize self)).
  rewrite _setup_engine_eq.
  rewrite decide_False.
  2:{ intros Hz. apply Hne. apply Permutation_length in Hshown.
      destruct items; [done|]. simpl in Hshown. lia. }
  rewrite with_new_session_eq by done. cbn [pool_open durable past].
  match goal with
  | |- context [_collection_session ?b shown ?n now ?st] =>
      destruct (_collection_session_store b shown now st)
        as (r & s' & Hrun & Hwf' & Hstore); [done|exact Hwf|done|exact Hhash|
                                             exact Hprune|]
  end.
  rewrite Hrun. cbn [working] in Hstore.
  assert (Hfinal : wf (durable (snd (__exit__ s')))
            ∧ ∀ l t, stored_last_run (durable (snd (__exit__ s'))) l = Some t →
                     l ∈ location <$> items
                     ∧ stored_last_run (durable s) l = Some t).
  { rewrite durable_exit. split; [done|]. intros l t Ht.
    destruct (Hstore l t Ht) as [Hin Hlr]. split; [|done].
    by rewrite <- Hshown. }
  destruct r as [filter_res|].
  - destruct (move_idx_to_end shown _ _) as [r items'].
    by eexists _, _, _, _.
  - by eexists _, _, _, _.
Qed.

Lemma collection_prunes_the_store_witness :
  ∃ r self' items' s',
    pytest_collection_modifyitems (sample_broker false)
      [mkItem "abc::t1" ("abc", Some 0, "t1")] 100 (fresh_state sample_db)
    = (r, (self', items'), s')
    ∧ stored_last_run (durable s') ("abc", Some 0, "t1") = Some 10
    ∧ stored_last_run (durable s') ("abc", Some 1, "t2") = None.
Proof.
  destruct (collection_prunes_the_store (sample_broker false)
              [mkItem "abc::t1" ("abc", Some 0, "t1")] 100
              (fresh_state sample_db))
    as (r & self' & items' & s' & Hrun & _ & Hstore).
  - exact sample_db_wf.
  - intros hf Hhf. discriminate Hhf.
  - reflexivity.
  - reflexivity.
  - discriminate.
  - exists r, self', items', s'. split; [exact Hrun|].
    split.
    + vm_compute in Hrun. by injection Hrun as _ _ _ <-.
    + destruct (stored_last_run (durable s') ("abc", Some 1, "t2"))
        as [t|] eqn:Ht; [|done].
      destruct (Hstore _ _ Ht) as [Hin _]. exfalso.
      apply list_elem_of_fmap in Hin as (it & Hloc & Hit).
      apply list_elem_of_singleton in Hit as ->. discriminate Hloc.
Defined.

(** ** The immediate broker *)

Lemma add_file_run (s : State) (path : string) (hash : option bytes) :
  entered s = true →
  path ∉ (f_path <$> test_file (working s)) →
  let f := mkTestFile (next_id (f_id <$> test_file (working s))) path hash in
  add_file path hash s
  = (Ok f,
     set_attached (f_id f :: attached s)
       (committed (mkDB (test_file (working s) ++ [f])
                        (test_item (working s))) s)).
Proof.
  intros Hent Hnew f. unfold add_file, insert_file. munfold. rewrite Hent.
  simpl. by rewrite bool_decide_false by done.
Qed.

(** The calls of the immediate broker on the session for a passed test. *)
Lemma immediate_write_session (hash : M (option bytes)) (path : string)
    (lineno : option Z) (testname : string) (now : Z) (s : State) :
  entered s = true →
  wf (working s) →
  (∃ h, hash = ret h) →
  ∃ it s',
    (db_file <- try_get_file path ;;
     db_file <- match db_file with
                | Some db_file => ret db_file
                | None => h <- hash ;; add_file path h
                end ;;
     add_or_update_item db_file lineno testname now) s
    = (Ok it, s')
    ∧ disposed s' = disposed s
    ∧ wf (working s')
    ∧ durable s' = working s'
    ∧ ∀ l, stored_last_run (working s') l
           = if decide (l = (path, lineno, testname)) then Some now
             else stored_last_run (working s) l.
Proof.
  intros Hent Hwf [h ->].
  pose proof (wf_one_file _ path Hwf) as Hone.
  unfold bind at 1. unfold try_get_file, _try_get_file, scalar_one_or_none.
  munfold. rewrite Hent. cbn [fst snd working set_pool_open].
  destruct (filter (λ f, f_path f = path) (test_file (working s)))
    as [|f [|f2 fs]] eqn:Hfs; [| |simpl in Hone; lia].
  - (* the file is new *)
    assert (Hnew : path ∉ (f_path <$> test_file (working s))).
    { intros [g [Hp Hg]]%list_elem_of_fmap.
      by apply (filter_nil_none _ _ g Hfs Hg). }
    destruct (stored_last_run_insert_file _ Hwf path h Hfs) as [Hwf1 Hc1].
    destruct (wf_insert_file_item _ Hwf path h lineno testname now Hfs)
      as (_ & Hnone & _).
    set (f := mkTestFile (next_id (f_id <$> test_file (working s))) path h)
      in *.
    rewrite add_file_run by done. fold f.
    rewrite add_or_update_item_insert; [|done|left|done].
    eexists _, _. split; [reflexivity|].
    cbn [committed working durable set_attached]. split_and!; [done| |done|].
    + by apply (wf_insert_item _ Hwf1 f lineno testname now);
        [apply elem_of_app; right; left|].
    + intros l. rewrite <- (Hc1 l).
      apply (stored_last_run_insert_item _ Hwf1 f lineno testname now);
        [|done].
      apply elem_of_app. right. left.
  - (* the file is known *)
    apply filter_singleton_elem in Hfs as Hf. destruct Hf as [Hf Hpath].
    pose proof (wf_one_item _ (f_id f) lineno testname Hwf) as Hone'.
    destruct (filter (same_item (f_id f) lineno testname)
                     (test_item (working s))) as [|it [|it2 its]] eqn:Hits;
      [| |simpl in Hone'; lia].
    + rewrite add_or_update_item_insert; [|done|left|done].
      eexists _, _. split; [reflexivity|].
      cbn [committed working durable set_attached set_pool_open].
      split_and!; [done| |done|].
      * by apply (wf_insert_item _ Hwf f lineno testname now).
      * rewrite <- Hpath.
        by apply (stored_last_run_insert_item _ Hwf f).
    + apply filter_singleton_elem in Hits as Hit. destruct Hit as [Hit Hs].
      rewrite (add_or_update_item_update f lineno testname _ now it);
        [|done|left|done].
      eexists _, _. split; [reflexivity|].
      cbn [committed working durable set_attached set_pool_open].
      split_and!; [done| |done|].
      * by apply (wf_update_last_run _ Hwf).
      * rewrite <- Hpath.
        by apply (stored_last_run_update _ Hwf f it).
Qed.

(** The call of the immediate broker on the session for a failed test. *)
Lemma immediate_drop_session (loc : Location) (s : State) :
  entered s = true →
  wf (working s) →
  durable s = working s →
  ∃ r s',
    try_delete_item loc s = (Ok r, s')
    ∧ disposed s' = disposed s
    ∧ wf (durable s')
    ∧ ∀ l, stored_last_run (durable s') l
           = if decide (l = loc) then None
             else stored_last_run (working s) l.
Proof.
  intros Hent Hwf Hdur.
  destruct (_try_delete_item_spec loc (push_savepoint s) Hwf)
    as (s1 & Hrun & _).
  destruct (_try_delete_item_content loc (push_savepoint s) Hwf)
    as (r & s1' & Hrun' & _ & Hwf1 & Hc & _).
  rewrite Hrun in Hrun'. injection Hrun' as <- <-.
  change (working (push_savepoint s)) with (working s) in *.
  destruct (keeps_frame_try_delete_item _ _ _ _ Hrun)
    as (_ & Hd1 & _ & _ & Hdisp1).
  change (durable (push_savepoint s)) with (durable s) in Hd1.
  change (disposed (push_savepoint s)) with (disposed s) in Hdisp1.
  unfold try_delete_item. unfold bind at 1. unfold _ensure_session.
  rewrite Hent. unfold begin_nested. unfold bind at 1. rewrite Hrun.
  destruct (decide (stored (working s) loc)) as [Hs|Hs].
  - rewrite (bool_decide_true _ Hs). unfold bind, commit, ret.
    eexists _, _. split; [reflexivity|]. simpl. done.
  - rewrite (bool_decide_false _ Hs). unfold bind, ret.
    eexists _, _. split; [reflexivity|].
    cbn [release_savepoint set_savepoints durable disposed].
    rewrite Hd1, Hdur.
    split_and!; [done..|]. intros l.
    destruct (decide (l = loc)) as [->|]; [|done].
    destruct (stored_last_run (working s) loc) as [t|] eqn:Ht; [|done].
    destruct Hs. apply stored_last_run_is_Some; [done|by eexists].
Qed.

(** X16. The immediate broker on one result, with its engine set up over a
    well-formed database file and a hash function that returns when files
    are hashed. A skipped test changes nothing and opens no session. A
    passed test is stored, committed, with the time of the report as its
    [last_run], and counted as passed; a failed test is removed from the
    store and counted as failed. Every other location keeps what was stored
    for it. *)
Theorem immediate_process_result_store
    (self : Immediate.ImmediateStatefulSamplesBroker) (state : string)
    (location : Location) (now : Z) (s : State) :
  _engine (Immediate.stateful self) = true →
  disposed s = false →
  wf (durable s) →
  (_hash_testfiles (Immediate.stateful self) = true →
   ∀ path, ∃ h, _hash_file (Immediate.stateful self) path = Ok h) →
  ∃ self' s',
    Immediate._process_result self state location now s = (Ok tt, self', s')
    ∧ Immediate.stateful self' = Immediate.stateful self
    ∧ disposed s' = false
    ∧ wf (durable s')
    ∧ (∀ l, stored_last_run (durable s') l
            = apply_report (stored_last_run (durable s))
                           (state, location, now) l)
    ∧ match _decide_result state with
      | IGNORE => self' = self ∧ s' = s
      | WRITE =>
          Immediate._num_passed_tests self'
            = Immediate._num_passed_tests self + 1
          ∧ Immediate._num_failed_tests self'
            = Immediate._num_failed_tests self
      | DROP =>
          Immediate._num_failed_tests self'
            = Immediate._num_failed_tests self + 1
          ∧ Immediate._num_passed_tests self'
            = Immediate._num_passed_tests self
      end.
Proof.
  intros Heng Hdisp Hwf Hhash.
  unfold Immediate._process_result, apply_report. cbv zeta.
  destruct (_decide_result state) eqn:Hact.
  - (* WRITE *)
    rewrite decide_False by done. rewrite Heng. cbn [negb].
    destruct location as [[path lineno] testname].
    rewrite with_new_session_eq by done.
    match goal with
    | |- context [bind (try_get_file path) ?k ?st] =>
        destruct (immediate_write_session
                    (if _hash_testfiles (Immediate.stateful self)
                     then h <- lift (_hash_file (Immediate.stateful self)
                                                path) ;;
                          ret (Some h)
                     else ret None)
                    path lineno testname now st)
          as (it & s1 & Hrun & Hdisp1 & Hwf1 & Hd1 & Hc)
    end; [done|exact Hwf| |].
    { destruct (_hash_testfiles (Immediate.stateful self)); [|by eexists].
      destruct (Hhash eq_refl path) as [h Hh]. exists (Some h).
      by rewrite Hh. }
    rewrite Hrun. eexists _, _. split; [reflexivity|].
    rewrite durable_exit, Hd1. cbn [working] in Hc.
    split_and!; try done.
    unfold __exit__. simpl. by destruct (entered s1).
  - (* DROP *)
    rewrite decide_False by done. rewrite Heng. cbn [negb].
    rewrite with_new_session_eq by done.
    match goal with
    | |- context [try_delete_item location ?st] =>
        destruct (immediate_drop_session location st)
          as (r & s1 & Hrun & Hdisp1 & Hwf1 & Hc); [done|exact Hwf|done|]
    end.
    rewrite Hrun. eexists _, _. split; [reflexivity|].
    rewrite durable_exit. cbn [working] in Hc.
    split_and!; try done.
    unfold __exit__. simpl. by destruct (entered s1).
  - (* IGNORE *)
    rewrite decide_True by done. eexists _, _. split; [reflexivity|].
    by split_and!.
Qed.

Lemma immediate_process_result_store_witness :
  ∃ self' s',
    Immediate._process_result (Immediate._post_init (set_collected 3
                                 (sample_broker false)))
      "passed" ("abc", Some 1, "t2") 100 (fresh_state sample_db)
    = (Ok tt, self', s')
    ∧ Immediate._num_passed_tests self' = 1
    ∧ stored_last_run (durable s') ("abc", Some 1, "t2") = Some 100
    ∧ stored_last_run (durable s') ("abc", Some 0, "t1") = Some 10.
Proof.
  destruct (immediate_process_result_store
              (Immediate._post_init (set_collected 3 (sample_broker false)))
              "passed" ("abc", Some 1, "t2") 100 (fresh_state sample_db))
    as (self' & s' & Hrun & _ & _ & _ & Hc & Hn & _).
  - reflexivity.
  - reflexivity.
  - exact sample_db_wf.
  - discriminate.
  - exists self', s'. split; [exact Hrun|]. rewrite Hn, !Hc.
    split_and!; reflexivity.
Defined.

Lemma foldl_apply_report_ext reports : ∀ (c1 c2 : Location → option Z),
  (∀ l, c1 l = c2 l) →
  ∀ l, foldl apply_report c1 reports l = foldl apply_report c2 reports l.
Proof.
  induction reports as [|[[st loc] now] reports IH]; intros c1 c2 Hc; [done|].
  cbn [foldl]. apply IH. intros l. unfold apply_report.
  destruct (_decide_result st); [| |done]; by rewrite Hc.
Qed.

(** The last result that counts for a location decides what is stored for
    it. *)
Lemma apply_reports_last (c : Location → option Z) before st loc now after :
  (∀ r, r ∈ after → r.1.2 = loc → _decide_result r.1.1 = IGNORE) →
  foldl apply_report c (before ++ (st, loc, now) :: after) loc
  = match _decide_result st with
    | WRITE => Some now
    | DROP => None
    | IGNORE => foldl apply_report c before loc
    end.
Proof.
  induction after as [|[[st' loc'] now'] after IH] using rev_ind; intros Hign.
  - rewrite foldl_app. cbn [foldl]. unfold apply_report.
    destruct (_decide_result st); [| |done]; by rewrite decide_True.
  - rewrite app_comm_cons, app_assoc, foldl_app. cbn [foldl].
    unfold apply_report at 1.
    assert (IH' := IH (λ r Hr, Hign r (proj2 (elem_of_app _ _ _) (or_introl Hr)))).
    destruct (_decide_result st') eqn:Hst'; [| |done].
    + rewrite decide_False; [done|]. intros <-.
      assert (Hi : _decide_result st' = IGNORE); [|congruence].
      apply (Hign (st', loc, now')); [|done]. apply elem_of_app. right. left.
    + rewrite decide_False; [done|]. intros <-.
      assert (Hi : _decide_result st' = IGNORE); [|congruence].
      apply (Hign (st', loc, now')); [|done]. apply elem_of_app. right. left.
Qed.

(** X17. The immediate broker over the results of a run, with the
    preconditions of one result: every result is written through at once,
    so the store afterwards is the store of before with the results applied
    in their order, and for each location the last result that is not
    ignored decides: passed after failed is stored, failed after passed is
    not. The counters count results, not locations. *)
Theorem immediate_last_result_wins
    (self : Immediate.ImmediateStatefulSamplesBroker)
    (reports : list (string * Location * Z)) (s : State) :
  _engine (Immediate.stateful self) = true →
  disposed s = false →
  wf (durable s) →
  (_hash_testfiles (Immediate.stateful self) = true →
   ∀ path, ∃ h, _hash_file (Immediate.stateful self) path = Ok h) →
  ∃ self' s',
    Immediate.process_results self reports s = (Ok tt, self', s')
    ∧ wf (durable s')
    ∧ (∀ l, stored_last_run (durable s') l
            = foldl apply_report (stored_last_run (durable s)) reports l)
    ∧ (∀ before st loc now after,
         reports = before ++ (st, loc, now) :: after →
         (∀ r, r ∈ after → r.1.2 = loc → _decide_result r.1.1 = IGNORE) →
         stored_last_run (durable s') loc
         = match _decide_result st with
           | WRITE => Some now
           | DROP => None
           | IGNORE => foldl apply_report (stored_last_run (durable s))
                             before loc
           end)
    ∧ Immediate._num_passed_tests self'
      = Immediate._num_passed_tests self
        + Z.of_nat (length (filter (λ r, _decide_result r.1.1 = WRITE)
                                   reports))
    ∧ Immediate._num_failed_tests self'
      = Immediate._num_failed_tests self
        + Z.of_nat (length (filter (λ r, _decide_result r.1.1 = DROP)
                                   reports)).
Proof.
  intros Heng Hdisp Hwf Hhash.
  assert (Hmain : ∃ self' s',
    Immediate.process_results self reports s = (Ok tt, self', s')
    ∧ wf (durable s')
    ∧ (∀ l, stored_last_run (durable s') l
            = foldl apply_report (stored_last_run (durable s)) reports l)
    ∧ Immediate._num_passed_tests self'
      = Immediate._num_passed_tests self
        + Z.of_nat (length (filter (λ r, _decide_result r.1.1 = WRITE)
                                   reports))
    ∧ Immediate._num_failed_tests self'
      = Immediate._num_failed_tests self
        + Z.of_nat (length (filter (λ r, _decide_result r.1.1 = DROP)
                                   reports))).
  { revert self s Heng Hdisp Hwf Hhash.
    induction reports as [|[[st loc] now] reports IH];
      intros self s Heng Hdisp Hwf Hhash.
    - exists self, s. simpl. split_and!; try done; lia.
    - destruct (immediate_process_result_store self st loc now s
                  Heng Hdisp Hwf Hhash)
        as (self1 & s1 & Hrun1 & Hst1 & Hdisp1 & Hwf1 & Hc1 & Hn1).
      destruct (IH self1 s1) as (self' & s' & Hrun & Hwf' & Hc & Hp & Hf);
        [by rewrite Hst1|done|done|by rewrite Hst1|].
      exists self', s'. cbn [Immediate.process_results]. rewrite Hrun1.
      split_and!; [done|done| | |].
      + intros l. rewrite Hc. cbn [foldl]. by apply foldl_apply_report_ext.
      + rewrite Hp, filter_cons. cbn [fst snd].
        destruct (_decide_result st) eqn:Hst.
        * rewrite decide_True by done. destruct Hn1 as [-> _].
          cbn [length]. lia.
        * rewrite decide_False by done. destruct Hn1 as [_ ->]. lia.
        * rewrite decide_False by done. destruct Hn1 as [-> _]. lia.
      + rewrite Hf, filter_cons. cbn [fst snd].
        destruct (_decide_result st) eqn:Hst.
        * rewrite decide_False by done. destruct Hn1 as [_ ->]. lia.
        * rewrite decide_True by done. destruct Hn1 as [-> _].
          cbn [length]. lia.
        * rewrite decide_False by done. destruct Hn1 as [-> _]. lia. }
  destruct Hmain as (self' & s' & Hrun & Hwf' & Hc & Hp & Hf).
  exists self', s'. split_and!; try done.
  intros before st loc now after -> Hign. rewrite Hc.
  by apply apply_reports_last.
Qed.

Lemma immediate_last_result_wins_witness :
  ∃ self' s',
    Immediate.process_results
      (Immediate._post_init (set_collected 3 (sample_broker false)))
      [("passed", ("abc", Some 0, "t1"), 100);
       ("error", ("abc", Some 0, "t1"), 101);
       ("failed", ("new", Some 2, "t7"), 102);
       ("passed", ("new", Some 2, "t7"), 103)]
      (fresh_state sample_db)
    = (Ok tt, self', s')
    ∧ stored_last_run (durable s') ("abc", Some 0, "t1") = None
    ∧ stored_last_run (durable s') ("new", Some 2, "t7") = Some 103
    ∧ Immediate._num_passed_tests self' = 2
    ∧ Immediate._num_failed_tests self' = 2.
Proof.
  destruct (immediate_last_result_wins
              (Immediate._post_init (set_collected 3 (sample_broker false)))
              [("passed", ("abc", Some 0, "t1"), 100);
               ("error", ("abc", Some 0, "t1"), 101);
               ("failed", ("new", Some 2, "t7"), 102);
               ("passed", ("new", Some 2, "t7"), 103)]
              (fresh_state sample_db))
    as (self' & s' & Hrun & _ & Hc & _ & Hp & Hf).
  - reflexivity.
  - reflexivity.
  - exact sample_db_wf.
  - discriminate.
  - exists self', s'. split; [exact Hrun|]. rewrite !Hc, Hp, Hf.
    split_and!; reflexivity.
Defined.

(** X18. The end of a run for the immediate broker, with its engine set up
    over a well-formed database file and the number of collected tests
    known. After an error exit status nothing is done. Otherwise, when as
    many results were counted as passed as tests were collected and the
    reset is asked for, the store is emptied; if not, the items stay as they
    are and, unless pruning is off, the files that own no item are
    removed. *)
Theorem immediate_sessionfinish_store
    (self : Immediate.ImmediateStatefulSamplesBroker)
    (exitstatus num_tests : Z) (s : State) :
  _engine (Immediate.stateful self) = true →
  _num_tests (Immediate.stateful self) = Some num_tests →
  disposed s = false →
  wf (durable s) →
  ∃ s',
    Immediate._sessionfinish self exitstatus s = (Ok tt, s')
    ∧ wf (durable s')
    ∧ if _is_error_exitstatus exitstatus then s' = s
      else if bool_decide (Immediate._num_passed_tests self = num_tests)
              && _reset_on_saturation (Immediate.stateful self)
      then durable s' = empty_db
      else if _no_pruning (Immediate.stateful self) then s' = s
      else test_item (durable s') = test_item (durable s)
           ∧ test_file (durable s')
             = filter (λ f, Exists (λ it, i_file_id it = f_id f)
                                   (test_item (durable s)))
                      (test_file (durable s))
           ∧ ∀ l, stored_last_run (durable s') l
                  = stored_last_run (durable s) l.
Proof.
  intros Heng Hnum Hdisp Hwf. unfold Immediate._sessionfinish.
  destruct (_is_error_exitstatus exitstatus); [by exists s|].
  rewrite Hnum, Heng. cbn [negb].
  destruct (bool_decide (Immediate._num_passed_tests self = num_tests)
            && _reset_on_saturation (Immediate.stateful self)).
  - unfold bind at 1. rewrite with_new_session_eq by done.
    rewrite drop_all_entries_run by done.
    eexists. split; [reflexivity|]. rewrite durable_exit.
    split; [apply wf_empty_db|done].
  - destruct (_no_pruning (Immediate.stateful self)); [by exists s|].
    unfold bind at 1. rewrite with_new_session_eq by done.
    rewrite prune_files_eq by done.
    eexists. split; [reflexivity|]. rewrite durable_exit.
    cbn [committed durable working test_file test_item].
    destruct (stored_last_run_prune_files _ Hwf) as [Hwf' Hc].
    by split_and!.
Qed.

Lemma immediate_sessionfinish_store_witness :
  ∃ s',
    Immediate._sessionfinish
      (Immediate.mkImmediateStatefulSamplesBroker
         (set_collected 3 (sample_broker true)) 0 3)
      0 (fresh_state sample_db)
    = (Ok tt, s')
    ∧ durable s' = empty_db.
Proof.
  destruct (immediate_sessionfinish_store
              (Immediate.mkImmediateStatefulSamplesBroker
                 (set_collected 3 (sample_broker true)) 0 3)
              0 3 (fresh_state sample_db))
    as (s' & Hrun & _ & Hd).
  - reflexivity.
  - reflexivity.
  - reflexivity.
  - exact sample_db_wf.
  - exists s'. split; [exact Hrun|exact Hd].
Defined.

(** X19. [pytest_sessionfinish] of the lazy broker passes on what
    [_sessionfinish] returns or raises, and in both cases it has set
    [_session_finished] and, if the engine was set up, disposed it: no
    session can be opened any more, and every report that comes afterwards
    is dropped. Before that, a report is recorded unless its state is the
    empty string. *)
Theorem pytest_sessionfinish_finalizes (self : StatefulSamplesBroker)
    (exitstatus now : Z) (s : State) :
  ∃ self' s',
    pytest_sessionfinish self exitstatus now s
      = ((_sessionfinish self exitstatus now s).1, self', s')
    ∧ _session_finished self' = true
    ∧ durable s' = durable (_sessionfinish self exitstatus now s).2
    ∧ (_engine self = true →
       disposed s' = true ∧ pool_open s' = false
       ∧ ∀ A (body : M A),
           with_new_session body s' = (Raise EngineDisposedError, s'))
    ∧ (∀ state location, pytest_report_teststatus self' state location = self')
    ∧ (_session_finished self = false →
       ∀ state location,
         pytest_report_teststatus self state location
         = if decide (state = "") then self
           else _process_result self state location).
Proof.
  unfold pytest_sessionfinish.
  destruct (_sessionfinish self exitstatus now s) as [r s1].
  eexists _, _. split; [reflexivity|]. cbn [fst snd].
  split_and!.
  - done.
  - by destruct (_engine self).
  - intros ->. split_and!; [done..|]. intros A body.
    unfold with_new_session, new_session, _ensure_not_disposed, bind. done.
  - intros state location. unfold pytest_report_teststatus. done.
  - intros Hfin state location. unfold pytest_report_teststatus.
    by rewrite Hfin.
Qed.
